(** * focus-app: the research-breakdown request handler

    A shallow embedding of [api/research-breakdown.js] and the properties
    its specification states about it.

    The file has three layers:
    - [JS]: the fragment of ECMAScript the handler relies on (UTF-16
      strings, binary64 numbers, values, coercions, [JSON.parse], the
      regular expressions of the source written as matchers);
    - [Net]: the outside world a request sees: environment variables and
      the answers of the HTTP servers it calls;
    - the handler itself, function by function, under the names of the
      source. *)

From Stdlib Require Import ZArith NArith List Bool String Ascii Lia.
From Stdlib Require Import Floats.SpecFloat.
Import ListNotations.

Set Implicit Arguments.
Set Warnings "-register-all,-abstract-large-number".

(* ================================================================== *)
(** * ECMAScript fragment                                              *)
(* ================================================================== *)

Module JS.

(** ** Strings: sequences of UTF-16 code units *)

Definition char := N.
Definition str := list char.

Definition char_eqb : char -> char -> bool := N.eqb.

Fixpoint str_eqb (a b : str) : bool :=
  match a, b with
  | [], [] => true
  | x :: a', y :: b' => char_eqb x y && str_eqb a' b'
  | _, _ => false
  end.

(** Source literals are written as Rocq strings (UTF-8 bytes) and decoded
    to code units; code points above the BMP become surrogate pairs. *)
Fixpoint utf8_decode (bs : list N) : str :=
  match bs with
  | [] => []
  | b0 :: r0 =>
    if (b0 <? 128)%N then b0 :: utf8_decode r0
    else
      match r0 with
      | [] => [b0]
      | b1 :: r1 =>
        if (b0 <? 224)%N
        then ((b0 mod 32) * 64 + b1 mod 64)%N :: utf8_decode r1
        else
          match r1 with
          | [] => [b0; b1]
          | b2 :: r2 =>
            if (b0 <? 240)%N
            then ((b0 mod 16) * 4096 + (b1 mod 64) * 64 + b2 mod 64)%N
                 :: utf8_decode r2
            else
              match r2 with
              | [] => [b0; b1; b2]
              | b3 :: r3 =>
                let cp := ((b0 mod 8) * 262144 + (b1 mod 64) * 4096
                           + (b2 mod 64) * 64 + b3 mod 64)%N in
                let v := (cp - 65536)%N in
                (55296 + v / 1024)%N :: (56320 + v mod 1024)%N
                :: utf8_decode r3
              end
          end
      end
  end.

Definition lit (s : string) : str :=
  utf8_decode (map N_of_ascii (list_ascii_of_string s)).

(** The quotation mark, for literals that contain one. *)
Definition dquote : char := 34%N.

(** [WhiteSpace] and [LineTerminator] code units: what [\s] matches and
    what [String.prototype.trim] removes. *)
Definition is_ws (c : char) : bool :=
  ((9 <=? c) && (c <=? 13) || (c =? 32) || (c =? 160) || (c =? 5760)
   || (8192 <=? c) && (c <=? 8202) || (c =? 8232) || (c =? 8233)
   || (c =? 8239) || (c =? 8287) || (c =? 12288) || (c =? 65279))%N.

Fixpoint trimStart (s : str) : str :=
  match s with
  | c :: r => if is_ws c then trimStart r else s
  | [] => []
  end.

Fixpoint trimEnd (s : str) : str :=
  match s with
  | [] => []
  | c :: r =>
    match trimEnd r with
    | [] => if is_ws c then [] else [c]
    | r' => c :: r'
    end
  end.

(** [String.prototype.trim] *)
Definition trim (s : str) : str := trimEnd (trimStart s).

(** [String.prototype.slice(0, n)] for a non-negative [n] *)
Definition slice0 {A} (n : nat) (l : list A) : list A := firstn n l.

(** ASCII upper-casing: the canonicalisation a case-insensitive regular
    expression without the [u] flag applies to the letters a-z (no code
    unit above 127 is mapped onto an ASCII one). *)
Definition upper (c : char) : char :=
  if ((97 <=? c) && (c <=? 122))%N then (c - 32)%N else c.

(** [prefix_ci p s]: [s] starts with [p] up to ASCII case; the rest of [s]
    after it. *)
Fixpoint prefix_ci (p s : str) : option str :=
  match p, s with
  | [], _ => Some s
  | x :: p', y :: s' =>
    if char_eqb (upper x) (upper y) then prefix_ci p' s' else None
  | _ :: _, [] => None
  end.

(** The same, case-sensitive. *)
Fixpoint prefix (p s : str) : option str :=
  match p, s with
  | [], _ => Some s
  | x :: p', y :: s' => if char_eqb x y then prefix p' s' else None
  | _ :: _, [] => None
  end.

(** ** Global replacement

    [s.replace(re, rep)] for a regular expression [re] with the [g] flag
    whose matches are never empty.  [m t] says whether [re] matches at
    the start of [t], and returns what follows the match.  Matching is
    retried one code unit later when it fails; after a match it resumes
    where the match ended. *)
Fixpoint replace_from (m : str -> option str) (rep : str)
         (fuel : nat) (s : str) : str :=
  match fuel with
  | O => s
  | S fuel' =>
    match m s with
    | Some rest => rep ++ replace_from m rep fuel' rest
    | None =>
      match s with
      | [] => []
      | c :: s' => c :: replace_from m rep fuel' s'
      end
    end
  end.

Definition replace_all (m : str -> option str) (rep : str) (s : str) : str :=
  replace_from m rep (S (List.length s)) s.

(** [s.match(re)] for a regular expression without the [g] flag: the
    text of the leftmost match ([match[0]]), [None] for [null]. *)
Fixpoint match_first (m : str -> option str) (s : str) : option str :=
  match m s with
  | Some rest => Some (firstn (List.length s - List.length rest) s)
  | None =>
    match s with
    | [] => None
    | _ :: s' => match_first m s'
    end
  end.

(** ** Numbers: IEEE 754 binary64

    [spec_float] is the Standard Library's specification of binary
    floating point; binary64 has 53 bits of precision and [emax = 1024].
    Finite numbers are kept in canonical form, as every operation below
    produces them. *)

Local Open Scope Z_scope.

Definition number := spec_float.
Definition prec : Z := 53.
Definition emax : Z := 1024.

Definition NaN : number := S754_nan.
Definition Infinity : number := S754_infinity false.

(** The number nearest to an integer. *)
Definition of_Z (z : Z) : number := binary_normalize prec emax z 0 false.

(** The number nearest to [m * 10^e10] for [m >= 0] (ties to even), with
    sign [neg].  Exponents far outside the binary64 range are cut short
    before any power is computed. *)
Definition of_decimal (neg : bool) (m : Z) (e10 : Z) : number :=
  match m with
  | Zpos p =>
    let d := Z.log2 m / 3 in  (* m >= 10^(d/2), m < 10^(d+1) *)
    if (400 <? d / 2 + e10)%Z then S754_infinity neg
    else if (d + 1 + e10 <? -400)%Z then S754_zero neg
    else if (0 <=? e10)%Z
    then binary_normalize prec emax
           (if neg then - (m * 10 ^ e10) else m * 10 ^ e10) 0 neg
    else SFdiv prec emax (S754_finite neg p 0)
           (S754_finite false (Z.to_pos (10 ^ (- e10))) 0)
  | _ => S754_zero neg
  end.

Definition is_nan (x : number) : bool :=
  match x with S754_nan => true | _ => false end.

Definition is_zero (x : number) : bool :=
  match x with S754_zero _ => true | _ => false end.

Definition num_eqb : number -> number -> bool := SFeqb.
Definition num_leb : number -> number -> bool := SFleb.
Definition num_ltb : number -> number -> bool := SFltb.

(** [Math.min] and [Math.max] of two numbers: NaN if either is NaN, and
    -0 counts as smaller than +0. *)
Definition Math_min (a b : number) : number :=
  match SFcompare a b with
  | None => NaN
  | Some Lt => a
  | Some Gt => b
  | Some Eq =>
    match a, b with
    | S754_zero sa, S754_zero sb => S754_zero (sa || sb)
    | _, _ => a
    end
  end.

Definition Math_max (a b : number) : number :=
  match SFcompare a b with
  | None => NaN
  | Some Lt => b
  | Some Gt => a
  | Some Eq =>
    match a, b with
    | S754_zero sa, S754_zero sb => S754_zero (sa && sb)
    | _, _ => a
    end
  end.

(** *** Decimal digits *)

Definition digit_char (d : Z) : char := Z.to_N (48 + d).

Fixpoint digits_fuel (fuel : nat) (z : Z) (acc : str) : str :=
  match fuel with
  | O => acc
  | S f =>
    if (z <? 10)%Z then digit_char z :: acc
    else digits_fuel f (z / 10) (digit_char (z mod 10) :: acc)
  end.

(** The decimal digits of a non-negative integer. *)
Definition Z_digits (z : Z) : str :=
  digits_fuel (S (Z.to_nat (Z.log2 z))) z [].

Definition is_digit (c : char) : bool := ((48 <=? c) && (c <=? 57))%N.

(** Leading decimal digits of [s]: their value, how many, and the rest. *)
Fixpoint scan_digits (acc : Z) (n : nat) (s : str) : Z * nat * str :=
  match s with
  | c :: r =>
    if is_digit c then scan_digits (acc * 10 + (Z.of_N c - 48)) (S n) r
    else (acc, n, s)
  | [] => (acc, n, s)
  end.

(** An optional exponent part [e|E [+|-] digits]: its value (0 when
    absent) and the rest; [None] when an [e] is not followed by digits. *)
Definition scan_exponent (s : str) : option (Z * str) :=
  match s with
  | c :: r =>
    if ((c =? 101) || (c =? 69))%N then
      let '(neg, r1) :=
        match r with
        | 43%N :: r' => (false, r')
        | 45%N :: r' => (true, r')
        | _ => (false, r)
        end in
      let '(v, n, r2) := scan_digits 0 0%nat r1 in
      match n with
      | O => None
      | _ => Some (if neg then (- v)%Z else v, r2)
      end
    else Some (0%Z, s)
  | [] => Some (0%Z, s)
  end.

(** *** [Number::toString] (radix 10)

    The shortest digit string [s] (of [k] digits) and position [n] with
    [s * 10^(n-k)] rounding back to the number; then the layout rules of
    the language. *)

(** [n] with [10^(n-1) <= num/den < 10^n], for [num, den > 0]. *)
Fixpoint dec_position_below (fuel : nat) (num den : Z) (j : Z) : Z :=
  match fuel with
  | O => (- j)%Z
  | S f =>
    if (den <=? num * 10 ^ (j + 1))%Z then (- j)%Z
    else dec_position_below f num den (j + 1)
  end.

Definition dec_position (num den : Z) : Z :=
  if (den <=? num)%Z then Z.of_nat (List.length (Z_digits (num / den)))
  else dec_position_below 400%nat num den 0.

(** Candidates with [k] digits for the value [num/den] at position [n]:
    the digit strings just below and just above it. *)
Definition shortest_at (x : number) (num den n k : Z) : option (Z * Z) :=
  let sc := (n - k)%Z in
  let lo := if (0 <=? sc)%Z then (num / (den * 10 ^ sc))%Z
            else ((num * 10 ^ (- sc)) / den)%Z in
  let hi := (lo + 1)%Z in
  let ok s := num_eqb (of_decimal false s sc) x in
  (* twice the value against lo + hi, both scaled to integers *)
  let c := if (0 <=? sc)%Z
           then (2 * num ?= (lo + hi) * 10 ^ sc * den)%Z
           else (2 * num * 10 ^ (- sc) ?= (lo + hi) * den)%Z in
  let pick s := if (s =? 10 ^ k)%Z then Some (10 ^ (k - 1), n + 1)%Z
                else Some (s, n) in
  match ok lo, ok hi with
  | true, true =>
    match c with
    | Lt => pick lo
    | Gt => pick hi
    | Eq => if Z.even lo then pick lo else pick hi
    end
  | true, false => pick lo
  | false, true => pick hi
  | false, false => None
  end.

Fixpoint shortest_from (fuel : nat) (x : number) (num den n k : Z)
  : Z * Z * Z :=
  match fuel with
  | O => (0, n, k)%Z
  | S f =>
    match shortest_at x num den n k with
    | Some (s, n') => (s, n', k)
    | None => shortest_from f x num den n (k + 1)
    end
  end.

Definition zeros (n : Z) : str := repeat 48%N (Z.to_nat n).

Definition layout (s n k : Z) : str :=
  let ds := Z_digits s in
  if ((k <=? n) && (n <=? 21))%Z then ds ++ zeros (n - k)
  else if ((0 <? n) && (n <=? 21))%Z then
    firstn (Z.to_nat n) ds ++ lit "." ++ skipn (Z.to_nat n) ds
  else if ((-6 <? n) && (n <=? 0))%Z then lit "0." ++ zeros (- n) ++ ds
  else
    let e := (n - 1)%Z in
    let es := (if (e <? 0)%Z then lit "-" else lit "+") ++ Z_digits (Z.abs e) in
    match ds with
    | d :: ((_ :: _) as more) => d :: lit "." ++ more ++ lit "e" ++ es
    | _ => ds ++ lit "e" ++ es
    end.

Definition Number_toString (x : number) : str :=
  match x with
  | S754_nan => lit "NaN"
  | S754_zero _ => lit "0"
  | S754_infinity s => (if s then lit "-" else []) ++ lit "Infinity"
  | S754_finite sg m e =>
    let num := if (0 <=? e)%Z then (Zpos m * 2 ^ e)%Z else Zpos m in
    let den := if (0 <=? e)%Z then 1%Z else (2 ^ (- e))%Z in
    let n := dec_position num den in
    let '(s, n', k) := shortest_from 17%nat (S754_finite false m e) num den n 1 in
    (if sg then lit "-" else []) ++ layout s n' k
  end.

(** *** [StringToNumber]: the value of [Number(s)] for a string *)

Definition digit_value (radix : N) (c : char) : option Z :=
  let v := if is_digit c then Some (c - 48)%N
           else if ((97 <=? c) && (c <=? 102))%N then Some (c - 87)%N
           else if ((65 <=? c) && (c <=? 70))%N then Some (c - 55)%N
           else None in
  match v with
  | Some d => if (d <? radix)%N then Some (Z.of_N d) else None
  | None => None
  end.

Fixpoint scan_radix (radix : N) (acc : Z) (s : str) : option Z :=
  match s with
  | [] => Some acc
  | c :: r =>
    match digit_value radix c with
    | Some d => scan_radix radix (acc * Z.of_N radix + d) r
    | None => None
    end
  end.

(** [0x..], [0o..], [0b..] literals (unsigned, at least one digit). *)
Definition nondecimal_literal (s : str) : option number :=
  match s with
  | 48%N :: c :: ((_ :: _) as ds) =>
    let radix := if ((c =? 120) || (c =? 88))%N then Some 16%N
                 else if ((c =? 111) || (c =? 79))%N then Some 8%N
                 else if ((c =? 98) || (c =? 66))%N then Some 2%N
                 else None in
    match radix with
    | Some r => option_map of_Z (scan_radix r 0 ds)
    | None => None
    end
  | _ => None
  end.

(** [Infinity], or digits with an optional fraction and exponent. *)
Definition unsigned_decimal_literal (neg : bool) (s : str) : option number :=
  if str_eqb s (lit "Infinity") then Some (S754_infinity neg)
  else
    let '(ip, ni, r1) := scan_digits 0 0%nat s in
    let '(fp, nf, r2) :=
      match r1 with
      | 46%N :: r => scan_digits 0 0%nat r
      | _ => (0%Z, O, r1)
      end in
    match (ni + nf)%nat, scan_exponent r2 with
    | S _, Some (ex, []) =>
      Some (of_decimal neg (ip * 10 ^ Z.of_nat nf + fp) (ex - Z.of_nat nf))
    | _, _ => None
    end.

Definition StringToNumber (s : str) : number :=
  match trim s with
  | [] => S754_zero false
  | t =>
    match nondecimal_literal t with
    | Some x => x
    | None =>
      let r :=
        match t with
        | 43%N :: t' => unsigned_decimal_literal false t'
        | 45%N :: t' => unsigned_decimal_literal true t'
        | _ => unsigned_decimal_literal false t
        end in
      match r with
      | Some x => x
      | None => NaN
      end
    end
  end.

Local Close Scope Z_scope.

(** ** Values

    [json] is what [JSON.parse] produces.  A [value] is what an expression
    of the handler can evaluate to: [undefined], a JSON value, or a
    function found on a built-in prototype. *)

Inductive json :=
| JNull
| JBool (b : bool)
| JNum (x : number)
| JStr (s : str)
| JArr (items : list json)
| JObj (props : list (str * json)).

Inductive value :=
| Undefined
| Of (j : json)
| Builtin (owner name : string).

Coercion Of : json >-> value.

(** Exceptions, by constructor, with their [message].  The message of
    an error the engine raises is the engine's; the ones below follow
    V8. *)
Inductive exn :=
| TypeError (message : str)
| SyntaxError (message : str)
| URIError (message : str)
| Error (message : str).

Definition message (e : exn) : str :=
  match e with
  | TypeError m | SyntaxError m | URIError m | Error m => m
  end.

Inductive result (A : Type) :=
| Ok (a : A)
| Throw (e : exn).
Arguments Ok {A} a.
Arguments Throw {A} e.

Definition rbind {A B} (r : result A) (k : A -> result B) : result B :=
  match r with
  | Ok a => k a
  | Throw e => Throw e
  end.

(** An own property of an object. *)
Fixpoint own (props : list (str * json)) (k : str) : option json :=
  match props with
  | [] => None
  | (k', v) :: rest => if str_eqb k' k then Some v else own rest k
  end.

(** [CreateDataProperty]: a repeated key overwrites in place. *)
Fixpoint set_prop (k : str) (v : json) (props : list (str * json))
  : list (str * json) :=
  match props with
  | [] => [(k, v)]
  | (k', v') :: rest =>
    if str_eqb k' k then (k, v) :: rest else (k', v') :: set_prop k v rest
  end.

(** *** Properties inherited from the built-in prototypes *)

Definition Object_prototype : list string :=
  ["constructor"; "hasOwnProperty"; "isPrototypeOf"; "propertyIsEnumerable";
   "toLocaleString"; "toString"; "valueOf"; "__proto__";
   "__defineGetter__"; "__defineSetter__"; "__lookupGetter__";
   "__lookupSetter__"]%string.

Definition String_prototype : list string :=
  ["at"; "charAt"; "charCodeAt"; "codePointAt"; "concat"; "endsWith";
   "includes"; "indexOf"; "isWellFormed"; "lastIndexOf"; "localeCompare";
   "match"; "matchAll"; "normalize"; "padEnd"; "padStart"; "repeat";
   "replace"; "replaceAll"; "search"; "slice"; "split"; "startsWith";
   "substring"; "toLocaleLowerCase"; "toLocaleUpperCase"; "toLowerCase";
   "toUpperCase"; "toWellFormed"; "trim"; "trimEnd"; "trimStart";
   "anchor"; "big"; "blink"; "bold"; "fixed"; "fontcolor"; "fontsize";
   "italics"; "link"; "small"; "strike"; "sub"; "substr"; "sup";
   "trimLeft"; "trimRight"]%string.

Definition Array_prototype : list string :=
  ["at"; "concat"; "copyWithin"; "entries"; "every"; "fill"; "filter";
   "find"; "findIndex"; "findLast"; "findLastIndex"; "flat"; "flatMap";
   "forEach"; "includes"; "indexOf"; "join"; "keys"; "lastIndexOf"; "map";
   "pop"; "push"; "reduce"; "reduceRight"; "reverse"; "shift"; "slice";
   "some"; "sort"; "splice"; "toReversed"; "toSorted"; "toSpliced";
   "unshift"; "values"; "with"]%string.

Definition Number_prototype : list string :=
  ["toExponential"; "toFixed"; "toPrecision"]%string.

Definition Function_prototype : list string :=
  ["apply"; "bind"; "call"; "length"; "name"; "arguments"; "caller"]%string.

Definition inherited (owner : string) (protos : list string) (k : str)
  : value :=
  match find (fun n => str_eqb (lit n) k) protos with
  | Some n => Builtin owner n
  | None =>
    match find (fun n => str_eqb (lit n) k) Object_prototype with
    | Some n => Builtin "Object" n
    | None => Undefined
    end
  end.

(** A property key that is a canonical array index. *)
Definition index_of_key (k : str) : option nat :=
  let '(v, n, rest) := scan_digits 0 0 k in
  match n, rest with
  | S _, [] => if str_eqb (Z_digits v) k then Some (Z.to_nat v) else None
  | _, _ => None
  end.

Definition length_of {A} (l : list A) : number := of_Z (Z.of_nat (List.length l)).

(** [v.k] and [v[k]]: throws on [undefined] and [null]. *)
Definition Get (v : value) (k : str) : result value :=
  match v with
  | Undefined =>
    Throw (TypeError (lit "Cannot read properties of undefined (reading '"
                      ++ k ++ lit "')"))
  | Of JNull =>
    Throw (TypeError (lit "Cannot read properties of null (reading '"
                      ++ k ++ lit "')"))
  | Of (JObj props) =>
    match own props k with
    | Some x => Ok (Of x)
    | None => Ok (inherited "Object" [] k)
    end
  | Of (JArr items) =>
    if str_eqb k (lit "length") then Ok (Of (JNum (length_of items)))
    else
      match index_of_key k with
      | Some i =>
        Ok (match nth_error items i with Some x => Of x | None => Undefined end)
      | None => Ok (inherited "Array" Array_prototype k)
      end
  | Of (JStr s) =>
    if str_eqb k (lit "length") then Ok (Of (JNum (length_of s)))
    else
      match index_of_key k with
      | Some i =>
        Ok (match nth_error s i with
            | Some c => Of (JStr [c])
            | None => Undefined
            end)
      | None => Ok (inherited "String" String_prototype k)
      end
  | Of (JNum _) => Ok (inherited "Number" Number_prototype k)
  | Of (JBool _) => Ok (inherited "Boolean" [] k)
  | Builtin _ _ => Ok (inherited "Function" Function_prototype k)
  end.

(** [v?.k] *)
Definition GetOpt (v : value) (k : str) : value :=
  match Get v k with
  | Ok x => x
  | Throw _ => Undefined
  end.

(** *** Coercions *)

Definition ToBoolean (v : value) : bool :=
  match v with
  | Undefined | Of JNull => false
  | Of (JBool b) => b
  | Of (JNum x) => negb (is_nan x || is_zero x)
  | Of (JStr s) => match s with [] => false | _ => true end
  | Of (JArr _) | Of (JObj _) | Builtin _ _ => true
  end.

(** [a || b] on values already evaluated. *)
Definition or_else (a b : value) : value := if ToBoolean a then a else b.

Fixpoint join (sep : str) (parts : list str) : str :=
  match parts with
  | [] => []
  | [p] => p
  | p :: rest => p ++ sep ++ join sep rest
  end.

Fixpoint sequence {A} (l : list (result A)) : result (list A) :=
  match l with
  | [] => Ok []
  | r :: rest =>
    rbind r (fun a => rbind (sequence rest) (fun l' => Ok (a :: l')))
  end.

(** [ToString] of a JSON value.  An array is joined with commas, [null]
    elements giving the empty string.  An object gives
    ["[object Object]"] unless it has an own property [toString]: that
    one is not callable, [Object.prototype.valueOf] returns the object
    itself, and the conversion throws. *)
Fixpoint json_ToString (j : json) : result str :=
  match j with
  | JNull => Ok (lit "null")
  | JBool b => Ok (if b then lit "true" else lit "false")
  | JNum x => Ok (Number_toString x)
  | JStr s => Ok s
  | JArr items =>
    rbind
      (sequence
         (map (fun e => match e with
                        | JNull => Ok []
                        | _ => json_ToString e
                        end) items))
      (fun parts => Ok (join (lit ",") parts))
  | JObj props =>
    match own props (lit "toString") with
    | Some _ => Throw (TypeError (lit "Cannot convert object to primitive value"))
    | None => Ok (lit "[object Object]")
    end
  end.

Definition ToString (v : value) : result str :=
  match v with
  | Undefined => Ok (lit "undefined")
  | Of j => json_ToString j
  | Builtin _ name =>
    Ok (lit "function " ++ lit name ++ lit "() { [native code] }")
  end.

(** [ToNumber]: objects and arrays go through their string conversion. *)
Definition ToNumber (v : value) : result number :=
  match v with
  | Undefined => Ok NaN
  | Of JNull => Ok (S754_zero false)
  | Of (JBool b) => Ok (if b then of_Z 1 else S754_zero false)
  | Of (JNum x) => Ok x
  | Of (JStr s) => Ok (StringToNumber s)
  | Of ((JArr _ | JObj _) as j) =>
    rbind (json_ToString j) (fun s => Ok (StringToNumber s))
  | Builtin _ _ => Ok NaN
  end.

Definition isArray (v : value) : bool :=
  match v with
  | Of (JArr _) => true
  | _ => false
  end.

(** [a === b].  Two objects are equal only when they are the same
    object, which the caller states with [same]. *)
Definition strict_equals (same : bool) (a b : value) : bool :=
  match a, b with
  | Undefined, Undefined => true
  | Of JNull, Of JNull => true
  | Of (JBool x), Of (JBool y) => Bool.eqb x y
  | Of (JNum x), Of (JNum y) => num_eqb x y
  | Of (JStr x), Of (JStr y) => str_eqb x y
  | Of (JArr _), Of (JArr _) => same
  | Of (JObj _), Of (JObj _) => same
  | Builtin o x, Builtin o' y => String.eqb o o' && String.eqb x y
  | _, _ => false
  end.

(** ** [JSON.parse] *)

Definition is_json_ws (c : char) : bool :=
  ((c =? 32) || (c =? 9) || (c =? 10) || (c =? 13))%N.

Fixpoint skip_ws (s : str) : str :=
  match s with
  | c :: r => if is_json_ws c then skip_ws r else s
  | [] => []
  end.

Definition hex4 (a b c d : char) : option char :=
  match digit_value 16 a, digit_value 16 b, digit_value 16 c, digit_value 16 d with
  | Some x, Some y, Some z, Some w =>
    Some (Z.to_N (((x * 16 + y) * 16 + z) * 16 + w))
  | _, _, _, _ => None
  end.

(** The characters of a string literal after its opening quote, up to
    the closing one. *)
Fixpoint parse_string (s : str) : option (str * str) :=
  let cons c p := option_map (fun '(t, rest) => (c :: t, rest)) p in
  match s with
  | [] => None
  | c :: r =>
    if (c =? 34)%N then Some ([], r)
    else if (c =? 92)%N then
      match r with
      | e :: r' =>
        if (e =? 34)%N then cons 34%N (parse_string r')
        else if (e =? 92)%N then cons 92%N (parse_string r')
        else if (e =? 47)%N then cons 47%N (parse_string r')
        else if (e =? 98)%N then cons 8%N (parse_string r')
        else if (e =? 102)%N then cons 12%N (parse_string r')
        else if (e =? 110)%N then cons 10%N (parse_string r')
        else if (e =? 114)%N then cons 13%N (parse_string r')
        else if (e =? 116)%N then cons 9%N (parse_string r')
        else if (e =? 117)%N then
          match r' with
          | h1 :: h2 :: h3 :: h4 :: r'' =>
            match hex4 h1 h2 h3 h4 with
            | Some u => cons u (parse_string r'')
            | None => None
            end
          | _ => None
          end
        else None
      | [] => None
      end
    else if (c <? 32)%N then None
    else cons c (parse_string r)
  end.

(** A JSON number: an optional minus sign, an integer part without
    leading zero, an optional fraction with at least one digit, an
    optional exponent. *)
Definition parse_number (s : str) : option (number * str) :=
  let '(neg, s1) := match s with 45%N :: r => (true, r) | _ => (false, s) end in
  let '(ip, ni, r1) := scan_digits 0 0 s1 in
  let int_ok :=
    match ni, s1 with
    | O, _ => false
    | 1, _ => true
    | _, c :: _ => negb (c =? 48)%N
    | _, [] => false
    end in
  if negb int_ok then None
  else
    let frac :=
      match r1 with
      | 46%N :: r =>
        let '(fp, nf, r2) := scan_digits 0 0 r in
        match nf with O => None | _ => Some (fp, nf, r2) end
      | _ => Some (0%Z, O, r1)
      end in
    match frac with
    | None => None
    | Some (fp, nf, r2) =>
      match scan_exponent r2 with
      | None => None
      | Some (ex, r3) =>
        Some (of_decimal neg (ip * 10 ^ Z.of_nat nf + fp) (ex - Z.of_nat nf), r3)
      end
    end.

Fixpoint parse_value (fuel : nat) (s : str) : option (json * str) :=
  match fuel with
  | O => None
  | S f =>
    match skip_ws s with
    | [] => None
    | c :: r =>
      if (c =? 123)%N then
        match skip_ws r with
        | 125%N :: r' => Some (JObj [], r')
        | _ => parse_members f [] r
        end
      else if (c =? 91)%N then
        match skip_ws r with
        | 93%N :: r' => Some (JArr [], r')
        | _ => parse_elements f [] r
        end
      else if (c =? 34)%N then
        option_map (fun '(t, rest) => (JStr t, rest)) (parse_string r)
      else
        match prefix (lit "null") (c :: r),
              prefix (lit "true") (c :: r),
              prefix (lit "false") (c :: r) with
        | Some rest, _, _ => Some (JNull, rest)
        | _, Some rest, _ => Some (JBool true, rest)
        | _, _, Some rest => Some (JBool false, rest)
        | None, None, None =>
          option_map (fun '(x, rest) => (JNum x, rest)) (parse_number (c :: r))
        end
    end
  end

with parse_elements (fuel : nat) (acc : list json) (s : str)
  : option (json * str) :=
  match fuel with
  | O => None
  | S f =>
    match parse_value f s with
    | None => None
    | Some (v, r) =>
      match skip_ws r with
      | 44%N :: r' => parse_elements f (v :: acc) r'
      | 93%N :: r' => Some (JArr (rev (v :: acc)), r')
      | _ => None
      end
    end
  end

with parse_members (fuel : nat) (acc : list (str * json)) (s : str)
  : option (json * str) :=
  match fuel with
  | O => None
  | S f =>
    match skip_ws s with
    | 34%N :: r =>
      match parse_string r with
      | None => None
      | Some (k, r1) =>
        match skip_ws r1 with
        | 58%N :: r2 =>
          match parse_value f r2 with
          | None => None
          | Some (v, r3) =>
            match skip_ws r3 with
            | 44%N :: r' => parse_members f (set_prop k v acc) r'
            | 125%N :: r' => Some (JObj (set_prop k v acc), r')
            | _ => None
            end
          end
        | _ => None
        end
      end
    | _ => None
    end
  end.

(** [JSON.parse(s)], without reviver: a [SyntaxError] unless [s] is
    exactly one JSON text.  The message of the error is one of a few
    fixed ones, where the engine's tells the position; and the
    properties of an object are kept in the order of the text, where
    the engine lists those whose name is an array index first. *)
Definition JSON_parse (s : str) : result json :=
  match parse_value (2 * List.length s + 2) s with
  | Some (v, rest) =>
    match skip_ws rest with
    | [] => Ok v
    | _ => Throw (SyntaxError (lit "Unexpected non-whitespace character after JSON"))
    end
  | None => Throw (SyntaxError (lit "Unexpected token in JSON"))
  end.

(** ** [encodeURIComponent]

    UTF-8, percent-escaped except for the unreserved characters; a lone
    surrogate raises a [URIError]. *)

Definition unreserved (c : char) : bool :=
  ((65 <=? c) && (c <=? 90) || (97 <=? c) && (c <=? 122) || is_digit c
   || existsb (N.eqb c) [45; 95; 46; 33; 126; 42; 39; 40; 41])%N.

Definition hex_digit (d : N) : char :=
  if (d <? 10)%N then (48 + d)%N else (55 + d)%N.

Definition percent (byte : N) : str :=
  [37%N; hex_digit (byte / 16); hex_digit (byte mod 16)].

Definition utf8_escape (cp : N) : str :=
  if (cp <? 128)%N then percent cp
  else if (cp <? 2048)%N then
    percent (192 + cp / 64) ++ percent (128 + cp mod 64)
  else if (cp <? 65536)%N then
    percent (224 + cp / 4096) ++ percent (128 + (cp / 64) mod 64)
    ++ percent (128 + cp mod 64)
  else
    percent (240 + cp / 262144) ++ percent (128 + (cp / 4096) mod 64)
    ++ percent (128 + (cp / 64) mod 64) ++ percent (128 + cp mod 64).

Definition is_high_surrogate (c : char) : bool := ((55296 <=? c) && (c <=? 56319))%N.
Definition is_low_surrogate (c : char) : bool := ((56320 <=? c) && (c <=? 57343))%N.

Fixpoint encodeURIComponent (s : str) : result str :=
  let malformed := Throw (URIError (lit "URI malformed")) in
  match s with
  | [] => Ok []
  | c :: r =>
    if unreserved c then rbind (encodeURIComponent r) (fun t => Ok (c :: t))
    else if is_low_surrogate c then malformed
    else if is_high_surrogate c then
      match r with
      | d :: r' =>
        if is_low_surrogate d then
          rbind (encodeURIComponent r')
                (fun t => Ok (utf8_escape ((c - 55296) * 1024 + (d - 56320) + 65536)
                              ++ t))
        else malformed
      | [] => malformed
      end
    else rbind (encodeURIComponent r) (fun t => Ok (utf8_escape c ++ t))
  end.

End JS.

(* ================================================================== *)
(** * The outside world                                                *)
(* ================================================================== *)

Module Net.
Import JS.

(** [process.env]: each variable is unset or a string. *)
Record environment := {
  SERPAPI_API_KEY : option str;
  OPENAI_API_KEY : option str;
  ANTHROPIC_API_KEY : option str
}.

Definition env_value (v : option str) : value :=
  match v with
  | Some s => Of (JStr s)
  | None => Undefined
  end.

(** A call of [fetch]. A POST carries the object the source serialises
    with [JSON.stringify]. *)
Inductive request :=
| GET (url : value)
| GET_follow (url : value)
| POST (url : str) (headers : list (str * str)) (body : json).

(** What [fetch] resolves to. *)
Record response := {
  status : N;
  body : str
}.

Definition ok (r : response) : bool :=
  ((200 <=? status r) && (status r <=? 299))%N.

(** The servers' behaviour during one request: the outcome of each
    successive [fetch], in order; [None] is a network failure, and so is
    every call after the script ends. The calls made are logged.

    Every call of [fetch] settles here: it resolves or it rejects.  The
    source awaits [fetch] without a timeout, so that a call that stays
    pending leaves the handler pending for ever; such a run has no
    counterpart in a [world], and what is proved of a computation is
    proved of the runs in which every call settles. *)
Record world := {
  answers : list (option response);
  log : list request
}.

(** Asynchronous code run to completion: a computation reads and
    changes the world, and returns or throws. *)
Definition M (A : Type) : Type := world -> result A * world.

Definition ret {A} (a : A) : M A := fun w => (Ok a, w).
Definition throw {A} (e : exn) : M A := fun w => (Throw e, w).
Definition lift {A} (r : result A) : M A := fun w => (r, w).

Definition bind {A B} (m : M A) (k : A -> M B) : M B :=
  fun w =>
    match m w with
    | (Ok a, w') => k a w'
    | (Throw e, w') => (Throw e, w')
    end.

(** [try { m } catch (e) { h e }] *)
Definition try_catch {A} (m : M A) (h : exn -> M A) : M A :=
  fun w =>
    match m w with
    | (Ok a, w') => (Ok a, w')
    | (Throw e, w') => h e w'
    end.

Declare Scope js_scope.
Delimit Scope js_scope with js.
Notation "x <- m ;; k" := (bind m (fun x => k))
  (at level 61, m at next level, right associativity) : js_scope.
Notation "'await' m" := m (at level 10, only parsing) : js_scope.

Definition fetch (rq : request) : M response :=
  fun w =>
    let w' := {| answers := tl (answers w); log := log w ++ [rq] |} in
    match answers w with
    | Some r :: _ => (Ok r, w')
    | _ => (Throw (TypeError (lit "fetch failed")), w')
    end.

(** [res.json()] and [res.text()] *)
Definition json_of (r : response) : M json := lift (JSON_parse (body r)).
Definition text_of (r : response) : M str := ret (body r).

End Net.


(* ================================================================== *)
(** * api/research-breakdown.js                                        *)
(* ================================================================== *)

(** The repository holds the handler twice: [api/research-breakdown.js]
    and an earlier copy whose name is not known.  The two differ in
    [webSearch] (one query and no deduplication in the earlier copy) and
    in the wording of the prompt; every other function is the same. *)
Inductive source_file :=
| api_research_breakdown
| unnamed_part_000.

Module SearchResult.
Record t := { title : JS.value; link : JS.value; snippet : JS.value }.
End SearchResult.

Module Page.
Record t := { title : JS.value; url : JS.value; text : JS.str }.
End Page.

Module MicroTask.
Record t := {
  id : nat;
  text : JS.str;
  estimatedTime : JS.number;
  priority : JS.str;
  dependsOn : list JS.json
}.
End MicroTask.

Module Source.
Record t := { title : JS.value; url : JS.value }.
End Source.

(** The incoming request, and what the handler answers with
    [res.status(..).json(..)]. *)
Module Req.
Record t := { method : JS.str; body : JS.value }.
End Req.

Inductive reply_body :=
| ErrorBody (error : JS.str)
| Breakdown (breakdown : list MicroTask.t) (sources : list Source.t)
            (usedWebResearch : bool).

Inductive reply := Reply (status : N) (json : reply_body).

Import JS Net.
Local Open Scope js_scope.

Notation "x <~ r ;; k" := (rbind r (fun x => k))
  (at level 61, r at next level, right associativity) : js_scope.

Definition quoted (s : string) : str := [dquote] ++ lit s ++ [dquote].

(** [a.map(f)] where [f] receives the index too. *)
Fixpoint map_from {A B} (f : nat -> A -> B) (i : nat) (l : list A) : list B :=
  match l with
  | [] => []
  | x :: r => f i x :: map_from f (S i) r
  end.

Definition map_indexed {A B} (f : nat -> A -> B) (l : list A) : list B :=
  map_from f 0 l.

(** [v.map(f)] on a value: only an array has [map]. *)
Definition array_map {B} (f : json -> result B) (v : value)
  : result (list B) :=
  match v with
  | Of (JArr items) => sequence (map f items)
  | _ => Throw (TypeError (lit "(intermediate value).map is not a function"))
  end.

(** ** stripHtml *)

(** The rest of [s] after the first occurrence of [p], up to ASCII case. *)
Fixpoint find_ci (p s : str) : option str :=
  match prefix_ci p s with
  | Some rest => Some rest
  | None =>
    match s with
    | [] => None
    | _ :: s' => find_ci p s'
    end
  end.

(** [/<script[\s\S]*?<\/script>/gi]: from an opening [<script] to the
    nearest closing tag after it. *)
Definition re_script (t : str) : option str :=
  match prefix_ci (lit "<script") t with
  | Some r => find_ci (lit "</script>") r
  | None => None
  end.

(** [/<style[\s\S]*?<\/style>/gi] *)
Definition re_style (t : str) : option str :=
  match prefix_ci (lit "<style") t with
  | Some r => find_ci (lit "</style>") r
  | None => None
  end.

(** The rest of [s] after its first [>]. *)
Fixpoint after_gt (s : str) : option str :=
  match s with
  | [] => None
  | c :: r => if (c =? 62)%N then Some r else after_gt r
  end.

(** [/<[^>]+>/g]: a [<], at least one code unit other than [>], and the
    next [>]. *)
Definition re_tag (t : str) : option str :=
  match t with
  | lt :: c :: r =>
    if (lt =? 60)%N then if (c =? 62)%N then None else after_gt r else None
  | _ => None
  end.

(** [/\s+/g]: a maximal run of white space. *)
Definition re_spaces (t : str) : option str :=
  match t with
  | c :: r => if is_ws c then Some (trimStart r) else None
  | [] => None
  end.

Definition stripHtml (html : value) : result str :=
  if negb (ToBoolean html) then Ok []
  else
    match html with
    | Of (JStr s) =>
      Ok (trim
            (replace_all re_spaces (lit " ")
               (replace_all re_tag (lit " ")
                  (replace_all re_style (lit " ")
                     (replace_all re_script (lit " ") s)))))
    | _ => Throw (TypeError (lit "html.replace is not a function"))
    end.

(** ** webSearch *)

Definition searchQueries (task : str) : list str :=
  [ task ++ lit " step by step guide 2024";
    task ++ lit " best practices tutorial";
    task ++ lit " implementation checklist";
    task ++ lit " project requirements breakdown";
    task ++ lit " development roadmap" ].

Definition serpapi_url (q num apiKey : str) : value :=
  Of (JStr (lit "https://serpapi.com/search.json?engine=google&q=" ++ q
            ++ lit "&num=" ++ num ++ lit "&api_key=" ++ apiKey)).

(** [r => ({ title: r.title, link: r.link, snippet: r.snippet || "" })] *)
Definition organic_result (r : json) : result SearchResult.t :=
  title <~ Get r (lit "title") ;;
  link <~ Get r (lit "link") ;;
  snippet <~ Get r (lit "snippet") ;;
  Ok {| SearchResult.title := title;
        SearchResult.link := link;
        SearchResult.snippet := or_else snippet (Of (JStr [])) |}.

(** The loop over [searchQueries], with [allResults] so far. *)
Fixpoint search_each (apiKey : str) (queries : list str)
         (allResults : list SearchResult.t) : M (list SearchResult.t) :=
  match queries with
  | [] => ret allResults
  | query :: more =>
    q <- lift (encodeURIComponent query) ;;
    res <- await fetch (GET (serpapi_url q (lit "3") apiKey)) ;;
    if ok res then
      data <- await json_of res ;;
      found <- lift (Get data (lit "organic_results")) ;;
      results <- lift (array_map organic_result (or_else found (Of (JArr [])))) ;;
      search_each apiKey more (allResults ++ results)
    else search_each apiKey more allResults
  end.

Fixpoint findIndex_from {A} (p : nat -> A -> bool) (i : nat) (l : list A)
  : option nat :=
  match l with
  | [] => None
  | x :: r => if p i x then Some i else findIndex_from p (S i) r
  end.

(** [l.findIndex(p)]; [None] for -1. The predicate is told the index, to
    know whether it is looking at the very same element. *)
Definition findIndex {A} (p : nat -> A -> bool) (l : list A) : option nat :=
  findIndex_from p 0 l.

Fixpoint filter_from {A} (p : nat -> A -> bool) (i : nat) (l : list A)
  : list A :=
  match l with
  | [] => []
  | x :: r => if p i x then x :: filter_from p (S i) r
              else filter_from p (S i) r
  end.

(** [l.filter((x, index) => p)] *)
Definition filter_indexed {A} (p : nat -> A -> bool) (l : list A) : list A :=
  filter_from p 0 l.

(** [allResults.filter((result, index, self) =>
       index === self.findIndex(r => r.link === result.link))].
    The links of two different entries are different objects. *)
Definition uniqueResults (allResults : list SearchResult.t)
  : list SearchResult.t :=
  filter_indexed
    (fun index result =>
       match findIndex
               (fun j r => strict_equals (j =? index)%nat
                             (SearchResult.link r) (SearchResult.link result))
               allResults with
       | Some j => (j =? index)%nat
       | None => false
       end)
    allResults.

(** The body of the first [try] block: [Some] what it returns, [None]
    when control falls out of it. *)
Definition serpapi_search (f : source_file) (apiKey task : str)
  : M (option (list SearchResult.t)) :=
  match f with
  | api_research_breakdown =>
    allResults <- search_each apiKey (searchQueries task) [] ;;
    let unique := uniqueResults allResults in
    match unique with
    | [] => ret None
    | _ => ret (Some (firstn 8 unique))
    end
  | unnamed_part_000 =>
    q <- lift (encodeURIComponent
                 (task ++ lit " requirements best practices checklist steps plan")) ;;
    res <- await fetch (GET (serpapi_url q (lit "5") apiKey)) ;;
    if ok res then
      data <- await json_of res ;;
      found <- lift (Get data (lit "organic_results")) ;;
      results <- lift
        match or_else found (Of (JArr [])) with
        | Of (JArr items) => sequence (map organic_result (firstn 5 items))
        | _ => Throw (TypeError (lit "(intermediate value).slice(...).map is not a function"))
        end ;;
      match results with
      | [] => ret None
      | _ => ret (Some results)
      end
    else ret None
  end.

(** [p => ({ title: p.title,
            link: `https://en.wikipedia.org/wiki/${encodeURIComponent(
                     p.title.replace(/ /g, '_'))}`,
            snippet: stripHtml(p.snippet) })] *)
Definition wikipedia_hit (p : json) : result SearchResult.t :=
  title <~ Get p (lit "title") ;;
  underscored <~
    match title with
    | Of (JStr s) => Ok (map (fun c => if (c =? 32)%N then 95%N else c) s)
    | Undefined | Of JNull =>
      title <~ Get title (lit "replace") ;; Ok []
    | _ => Throw (TypeError (lit "p.title.replace is not a function"))
    end ;;
  name <~ encodeURIComponent underscored ;;
  snippet <~ Get p (lit "snippet") ;;
  stripped <~ stripHtml snippet ;;
  Ok {| SearchResult.title := title;
        SearchResult.link := Of (JStr (lit "https://en.wikipedia.org/wiki/" ++ name));
        SearchResult.snippet := Of (JStr stripped) |}.

Definition wikipedia_url (q : str) : value :=
  Of (JStr (lit "https://en.wikipedia.org/w/api.php?action=query&list=search&srsearch="
            ++ q ++ lit "&srlimit=3&format=json&origin=*")).

(** The body of the second [try] block. *)
Definition wikipedia_search (task : str) : M (list SearchResult.t) :=
  q <- lift (encodeURIComponent task) ;;
  res <- await fetch (GET (wikipedia_url q)) ;;
  if negb (ok res) then ret []
  else
    data <- await json_of res ;;
    query <- lift (Get data (lit "query")) ;;
    pages <- lift (array_map wikipedia_hit
                     (or_else (GetOpt query (lit "search")) (Of (JArr [])))) ;;
    ret (firstn 3 pages).

Definition webSearch (f : source_file) (env : environment) (task : str)
  : M (list SearchResult.t) :=
  primary <-
    match SERPAPI_API_KEY env with
    | Some apiKey =>
      if ToBoolean (Of (JStr apiKey))
      then try_catch (serpapi_search f apiKey task) (fun _ => ret None)
      else ret None
    | None => ret None
    end ;;
  match primary with
  | Some results => ret results
  | None => try_catch (wikipedia_search task) (fun _ => ret [])
  end.

(** ** fetchPages *)

(** The body of the loop: the page to push, if any. *)
Definition fetch_page (r : SearchResult.t) : M (option Page.t) :=
  resp <- await fetch (GET_follow (SearchResult.link r)) ;;
  if negb (ok resp) then ret None
  else
    html <- await text_of resp ;;
    stripped <- lift (stripHtml (Of (JStr html))) ;;
    ret (Some {| Page.title := SearchResult.title r;
                 Page.url := SearchResult.link r;
                 Page.text := firstn 10000 stripped |}).

Fixpoint fetch_each (results : list SearchResult.t) (pages : list Page.t)
  : M (list Page.t) :=
  match results with
  | [] => ret pages
  | r :: more =>
    page <- try_catch (fetch_page r) (fun _ => ret None) ;;
    match page with
    | Some p => fetch_each more (pages ++ [p])
    | None => fetch_each more pages
    end
  end.

Definition fetchPages (results : list SearchResult.t) : M (list Page.t) :=
  fetch_each results [].

(** ** buildPrompt *)

Definition prompt_head_api_research_breakdown : str :=
  lit "You are an expert project planner and researcher. Create a precise, actionable micro-task plan that reflects real-world best practices and current industry standards.

Primary task: "
  ++ [dquote].

Definition prompt_middle_api_research_breakdown : str :=
  [dquote]
  ++ lit "

Use the following web context (if any) to inform the plan:
".

Definition prompt_tail_api_research_breakdown : str :=
  lit "

Return ONLY valid JSON matching this TypeScript type:
{
  "
  ++ quoted "microTasks"
  ++ lit ": Array<{
    "
  ++ quoted "text"
  ++ lit ": string,
    "
  ++ quoted "estimatedTimeMinutes"
  ++ lit ": number,
    "
  ++ quoted "priority"
  ++ lit ": "
  ++ quoted "high"
  ++ lit " | "
  ++ quoted "medium"
  ++ lit " | "
  ++ quoted "low"
  ++ lit ",
    "
  ++ quoted "dependsOn"
  ++ lit "?: number[]
  }>
}

CRITICAL REQUIREMENTS:
• Generate SPECIFIC, ACTIONABLE steps, not generic concepts
• Each task should be something you can actually DO right now
• Include concrete deliverables and measurable outcomes
• Use current best practices and modern tools/technologies
• Research the specific domain if needed to provide accurate steps

For technical projects, include:
• Specific tool setup and configuration steps
• Exact commands or code snippets where relevant
• Modern frameworks, libraries, and best practices
• Testing, deployment, and monitoring specifics
• Security and performance considerations

For business/creative projects, include:
• Research and validation steps
• Specific planning and documentation tasks
• Execution and iteration phases
• Quality assurance and feedback loops
• Launch and measurement strategies

Guidelines:
• 8-15 micro-tasks that are specific and outcome-driven
• Estimate realistic durations (15–120 minutes each)
• Include dependencies by index (0-based) if a task requires another first
• Assume a competent person with basic tools
• Focus on what makes THIS specific project unique
• No commentary, no markdown — just JSON.".

Definition prompt_head_unnamed_part_000 : str :=
  lit "You are an expert project planner and researcher. Create a precise, actionable micro-task plan that reflects real-world best practices.

Primary task: "
  ++ [dquote].

Definition prompt_middle_unnamed_part_000 : str :=
  [dquote]
  ++ lit "

Use the following web context (if any) to inform the plan:
".

Definition prompt_tail_unnamed_part_000 : str :=
  lit "

Return ONLY valid JSON matching this TypeScript type:
{
  "
  ++ quoted "microTasks"
  ++ lit ": Array<{
    "
  ++ quoted "text"
  ++ lit ": string,
    "
  ++ quoted "estimatedTimeMinutes"
  ++ lit ": number,
    "
  ++ quoted "priority"
  ++ lit ": "
  ++ quoted "high"
  ++ lit " | "
  ++ quoted "medium"
  ++ lit " | "
  ++ quoted "low"
  ++ lit ",
    "
  ++ quoted "dependsOn"
  ++ lit "?: number[]
  }>
}

Guidelines:
• First do a quick mental model: define the concept, typical deliverables, and success criteria (implicit).
• Cover end-to-end lifecycle: discovery/research, planning/specs, environment setup, core execution, quality (testing/accessibility), performance, security, documentation, and delivery/launch.
• If the task is technical (e.g., "
  ++ [dquote]
  ++ lit "build a website"
  ++ [dquote]
  ++ lit "), include essential best practices (e.g., responsive layout, accessibility/WCAG, SEO basics, analytics, performance budgets, version control, CI checks, deployment & rollback).
• Include 7–12 micro-tasks that are specific and outcome-driven.
• Estimate realistic durations (15–90 minutes each).
• Prefer parallelizable tasks when possible.
• Include dependencies by index (0-based) if a task requires another to be done first.
• Assume a single competent person.
• No commentary, no markdown — just JSON.".

Definition prompt_head (f : source_file) : str :=
  match f with
  | api_research_breakdown => prompt_head_api_research_breakdown
  | unnamed_part_000 => prompt_head_unnamed_part_000
  end.

Definition prompt_middle (f : source_file) : str :=
  match f with
  | api_research_breakdown => prompt_middle_api_research_breakdown
  | unnamed_part_000 => prompt_middle_unnamed_part_000
  end.

Definition prompt_tail (f : source_file) : str :=
  match f with
  | api_research_breakdown => prompt_tail_api_research_breakdown
  | unnamed_part_000 => prompt_tail_unnamed_part_000
  end.

(** [`Source ${i + 1}: ${p.title} (${p.url})\n${p.text.slice(0, 2500)}`] *)
Definition source_block (i : nat) (p : Page.t) : result str :=
  title <~ ToString (Page.title p) ;;
  url <~ ToString (Page.url p) ;;
  Ok (lit "Source " ++ Z_digits (Z.of_nat i + 1) ++ lit ": " ++ title
      ++ lit " (" ++ url ++ lit ")" ++ [10%N] ++ firstn 2500 (Page.text p)).

(** The [context] variable. *)
Definition prompt_context (pages : list Page.t) : result str :=
  match pages with
  | [] => Ok []
  | _ =>
    blocks <~ sequence (map_indexed source_block (firstn 3 pages)) ;;
    Ok (join [10%N; 10%N] blocks)
  end.

Definition no_context : str := lit "(no web context provided)".

Definition buildPrompt (f : source_file) (task : str) (pages : list Page.t)
  : result str :=
  context <~ prompt_context pages ;;
  Ok (prompt_head f ++ task ++ prompt_middle f
      ++ (match context with [] => no_context | _ => context end)
      ++ prompt_tail f).

(** ** callAnthropic, callOpenAI *)

Definition ANTHROPIC_API_URL : str := lit "https://api.anthropic.com/v1/messages".
Definition OPENAI_CHAT_URL : str := lit "https://api.openai.com/v1/chat/completions".

Definition jstr (s : string) : json := JStr (lit s).

Definition callAnthropic (env : environment) (prompt : str) : M value :=
  match ANTHROPIC_API_KEY env with
  | Some ((_ :: _) as apiKey) =>
    res <- await fetch
      (POST ANTHROPIC_API_URL
         [ (lit "content-type", lit "application/json");
           (lit "x-api-key", apiKey);
           (lit "anthropic-version", lit "2023-06-01") ]
         (JObj [ (lit "model", jstr "claude-3-5-sonnet-20240620");
                 (lit "max_tokens", JNum (of_Z 2000));
                 (lit "temperature", JNum (of_decimal false 2 (-1)));
                 (lit "messages",
                  JArr [ JObj [ (lit "role", jstr "user");
                                (lit "content", JStr prompt) ] ]) ])) ;;
    if negb (ok res) then
      text <- await text_of res ;;
      throw (Error (lit "Anthropic error: " ++ Z_digits (Z.of_N (status res))
                    ++ lit " " ++ text))
    else
      data <- await json_of res ;;
      (* (data.content && data.content[0] && data.content[0].text) || "" *)
      content <- lift (Get data (lit "content")) ;;
      first <- lift (if ToBoolean content then Get content (lit "0")
                     else Ok content) ;;
      text <- lift (if ToBoolean first then Get first (lit "text")
                    else Ok first) ;;
      ret (or_else text (Of (JStr [])))
  | _ => throw (Error (lit "Missing ANTHROPIC_API_KEY env var"))
  end.

Definition callOpenAI (env : environment) (prompt : str) : M value :=
  match OPENAI_API_KEY env with
  | Some ((_ :: _) as apiKey) =>
    res <- await fetch
      (POST OPENAI_CHAT_URL
         [ (lit "content-type", lit "application/json");
           (lit "Authorization", lit "Bearer " ++ apiKey) ]
         (JObj [ (lit "model", jstr "gpt-4o-mini");
                 (lit "temperature", JNum (of_decimal false 2 (-1)));
                 (lit "response_format", JObj [ (lit "type", jstr "json_object") ]);
                 (lit "messages",
                  JArr [ JObj [ (lit "role", jstr "system");
                                (lit "content",
                                 jstr "You are an expert planner. Respond ONLY with strict JSON per user instructions.") ];
                         JObj [ (lit "role", jstr "user");
                                (lit "content", JStr prompt) ] ]) ])) ;;
    if negb (ok res) then
      text <- await text_of res ;;
      throw (Error (lit "OpenAI error: " ++ Z_digits (Z.of_N (status res))
                    ++ lit " " ++ text))
    else
      data <- await json_of res ;;
      (* data.choices?.[0]?.message?.content || "" *)
      choices <- lift (Get data (lit "choices")) ;;
      ret (or_else
             (GetOpt (GetOpt (GetOpt choices (lit "0")) (lit "message"))
                     (lit "content"))
             (Of (JStr [])))
  | _ => throw (Error (lit "Missing OPENAI_API_KEY env var"))
  end.

(** ** safeParseJson *)

(** [/```json[\s\S]*?```/i] *)
Definition re_fence (t : str) : option str :=
  match prefix_ci (lit "```json") t with
  | Some r => find_ci (lit "```") r
  | None => None
  end.

(** The rest of [s] after its last [}]. *)
Fixpoint after_last_brace (s : str) : option str :=
  match s with
  | [] => None
  | c :: r =>
    match after_last_brace r with
    | Some rest => Some rest
    | None => if (c =? 125)%N then Some r else None
    end
  end.

(** [/\{[\s\S]*\}/]: from a [{] to the last [}] of the text. *)
Definition re_braces (t : str) : option str :=
  match t with
  | c :: r => if (c =? 123)%N then after_last_brace r else None
  | [] => None
  end.

(** [/```json|```/g] (case-sensitive) *)
Definition re_fence_marker (t : str) : option str :=
  match prefix (lit "```json") t with
  | Some r => Some r
  | None => prefix (lit "```") t
  end.

Definition safeParseJson (text : value) : result value :=
  match (s <~ ToString text ;; JSON_parse s) with
  | Ok parsed => Ok (Of parsed)
  | Throw _ =>
    match text with
    | Of (JStr s) =>
      let found :=
        match match_first re_fence s with
        | Some m => Some m
        | None => match_first re_braces s
        end in
      match found with
      | Some m =>
        let block := replace_all re_fence_marker [] m in
        match JSON_parse block with
        | Ok parsed => Ok (Of parsed)
        | Throw _ => Ok (Of JNull)
        end
      | None => Ok (Of JNull)
      end
    | Undefined =>
      Throw (TypeError (lit "Cannot read properties of undefined (reading 'match')"))
    | _ => Throw (TypeError (lit "text.match is not a function"))
    end
  end.

(** ** The handler ([module.exports]) *)

(** [Number(x) || 30], once [Number(x)] is known *)
Definition number_or (n fallback : number) : number :=
  if ToBoolean (Of (JNum n)) then n else fallback.

(** [["high", "medium", "low"].includes(v)] *)
Definition is_priority (v : value) : bool :=
  existsb (fun p => strict_equals false (Of (jstr p)) v)
          ["high"; "medium"; "low"]%string.

(** The function mapped over the raw micro-tasks. *)
Definition normalize_entry (idx : nat) (t : json) : result MicroTask.t :=
  raw_text <~ Get t (lit "text") ;;
  text <~ ToString (or_else raw_text (Of (jstr "Untitled task"))) ;;
  minutes <~ Get t (lit "estimatedTimeMinutes") ;;
  n <~ ToNumber minutes ;;
  priority <~ Get t (lit "priority") ;;
  dependsOn <~ Get t (lit "dependsOn") ;;
  Ok {| MicroTask.id := idx + 1;
        MicroTask.text := trim text;
        MicroTask.estimatedTime :=
          Math_max (of_Z 10) (Math_min (of_Z 180) (number_or n (of_Z 30)));
        MicroTask.priority :=
          match priority with
          | Of (JStr p) => if is_priority priority then p else lit "medium"
          | _ => lit "medium"
          end;
        MicroTask.dependsOn :=
          match dependsOn with
          | Of (JArr items) => items
          | _ => []
          end |}.

(** From the parsed model output to the [normalized] list. *)
Definition normalize (parsed : value) : result (list MicroTask.t) :=
  let microTasks :=
    match GetOpt parsed (lit "microTasks") with
    | Of (JArr items) => items
    | _ => []
    end in
  sequence (map_indexed normalize_entry (firstn 20 microTasks)).

Definition source_of (r : SearchResult.t) : Source.t :=
  {| Source.title := SearchResult.title r; Source.url := SearchResult.link r |}.

(** The part of the handler under [try], after validation. *)
Definition research_and_plan (f : source_file) (env : environment) (task : str)
  : M reply :=
  results <- await webSearch f env task ;;
  pages <- await (match results with
                  | [] => ret []
                  | _ => fetchPages results
                  end) ;;
  prompt <- lift (buildPrompt f task pages) ;;
  raw <- await (if ToBoolean (env_value (OPENAI_API_KEY env))
                then callOpenAI env prompt
                else callAnthropic env prompt) ;;
  parsed <- lift (safeParseJson raw) ;;
  normalized <- lift (normalize parsed) ;;
  ret (Reply 200 (Breakdown normalized (map source_of results)
                            (match pages with [] => false | _ => true end))).

Definition handler (f : source_file) (env : environment) (req : Req.t)
  : M reply :=
  if negb (str_eqb (Req.method req) (lit "POST")) then
    ret (Reply 405 (ErrorBody (lit "Method not allowed")))
  else
    try_catch
      (task <- lift (Get (or_else (Req.body req) (Of (JObj []))) (lit "task")) ;;
       match task with
       | Of (JStr ((_ :: _) as task)) => research_and_plan f env task
       | _ => ret (Reply 400 (ErrorBody (lit "Missing 'task' in request body")))
       end)
      (fun err =>
         ret (Reply 500 (ErrorBody (match message err with
                                    | [] => lit "Internal error"
                                    | m => m
                                    end)))).

(* ================================================================== *)
(** * Vocabulary of the properties                                    *)
(* ================================================================== *)

Unset Implicit Arguments.

(** Concrete runs are settled by evaluation, conjunct by conjunct. *)
Ltac by_evaluation :=
  cbv zeta;
  repeat match goal with |- _ /\ _ => split end;
  vm_compute; try reflexivity; try discriminate.

(** ** Words for the sanitizer *)

(** [re.test(s)]: the expression matches somewhere in [s]. *)
Fixpoint has_match (m : str -> option str) (s : str) : bool :=
  match m s with
  | Some _ => true
  | None =>
    match s with
    | [] => false
    | _ :: r => has_match m r
    end
  end.


(** White space: a string in which every white-space code unit is a
    single space followed by something else. *)
Fixpoint ws_normal (s : str) : Prop :=
  match s with
  | [] => True
  | c :: r =>
    (is_ws c = true ->
     c = 32%N /\ match r with [] => True | d :: _ => is_ws d = false end)
    /\ ws_normal r
  end.

(** Two white-space code units in a row. *)
Fixpoint has_ws_run (s : str) : bool :=
  match s with
  | c :: r =>
    match r with
    | d :: _ => is_ws c && is_ws d || has_ws_run r
    | [] => false
    end
  | [] => false
  end.

(** What [stripHtml] computes on a non-empty string. *)
Definition stripped (s : str) : str :=
  trim (replace_all re_spaces (lit " ")
          (replace_all re_tag (lit " ")
             (replace_all re_style (lit " ")
                (replace_all re_script (lit " ") s)))).

(** ** Words for the normalizer *)

(** [n] brought into [10, 180]. *)
Definition clamp (n : number) : number :=
  if num_ltb n (of_Z 10) then of_Z 10
  else if num_ltb (of_Z 180) n then of_Z 180
  else n.

(** The field [k] of a raw entry. *)
Definition field (t : json) (k : string) : value := GetOpt (Of t) (lit k).

(** A value [String(..)] and [Number(..)] accept.  The one that is
    refused is an object with an own [toString] property, alone or
    inside an array. *)
Definition coercible (v : value) : Prop := exists s, ToString v = Ok s.

(** The entry [normalize_entry] builds when nothing throws. *)
Definition normalized_entry (idx : nat) (t : json) (text : str) (n : number)
  : MicroTask.t :=
  {| MicroTask.id := idx + 1;
     MicroTask.text := trim text;
     MicroTask.estimatedTime :=
       Math_max (of_Z 10) (Math_min (of_Z 180) (number_or n (of_Z 30)));
     MicroTask.priority :=
       match field t "priority" with
       | Of (JStr p) => if is_priority (field t "priority") then p else lit "medium"
       | _ => lit "medium"
       end;
     MicroTask.dependsOn :=
       match field t "dependsOn" with
       | Of (JArr items) => items
       | _ => []
       end |}.

(** A raw entry that estimates 0 minutes. *)
Definition a_zero_estimate : json :=
  JObj [(lit "estimatedTimeMinutes", JNum (S754_zero false))].

(** The raw micro-task array of a parsed reply. *)
Definition microTasks_of (parsed : value) : list json :=
  match GetOpt parsed (lit "microTasks") with
  | Of (JArr items) => items
  | _ => []
  end.

(** An entry the normalizer accepts. *)
Definition normalizable (t : json) : Prop :=
  t <> JNull
  /\ coercible (field t "text")
  /\ coercible (field t "estimatedTimeMinutes").

(** ** Concrete requests and servers *)

(** No search credential, and the credential of the message API. *)
Definition an_environment : environment :=
  {| SERPAPI_API_KEY := None;
     OPENAI_API_KEY := None;
     ANTHROPIC_API_KEY := Some (lit "sk-test") |}.

(** [POST {task}] *)
Definition a_post (task : string) : Req.t :=
  {| Req.method := lit "POST";
     Req.body := Of (JObj [(lit "task", JStr (lit task))]) |}.

(** A string as a JSON string literal. *)
Fixpoint escaped (s : str) : str :=
  match s with
  | [] => []
  | c :: r =>
    (if ((c =? 34) || (c =? 92))%N then [92%N; c]
     else if (c <? 32)%N
          then lit "\u00" ++ [hex_digit (c / 16); hex_digit (c mod 16)]
          else [c]) ++ escaped r
  end.

(** The same between quotation marks. *)
Definition json_string (s : str) : str := [dquote] ++ escaped s ++ [dquote].

(** The reply of the message API whose text is [text]. *)
Definition anthropic_reply (text : str) : response :=
  {| status := 200;
     body := lit "{" ++ quoted "content" ++ lit ":[{" ++ quoted "text"
             ++ lit ":" ++ json_string text ++ lit "}]}" |}.

(** A model reply whose task array holds [null]. *)
Definition a_null_entry : str :=
  lit "{" ++ quoted "microTasks" ++ lit ":[null]}".

(** ** Words for the handler *)

(** The body has a [task] field that is a non-empty string. *)
Definition has_task (b : value) : Prop :=
  exists props s,
    b = Of (JObj props) /\ own props (lit "task") = Some (JStr s) /\ s <> [].

(** ** Words for the extraction *)

(** [match[0].replace(/```json|```/g, "")] *)
Definition without_markers (m : str) : str := replace_all re_fence_marker [] m.

(** A strategy of the specification: find a block, and succeed when its
    content parses. *)
Definition block_strategy (re : str -> option str) (s : str) : option json :=
  match match_first re s with
  | Some m =>
    match JSON_parse (without_markers m) with
    | Ok parsed => Some parsed
    | Throw _ => None
    end
  | None => None
  end.

(** The extraction as the specification words it: three strategies tried
    in order, the first that succeeds wins, [null] when none does. *)
Definition extraction_as_specified (s : str) : value :=
  match JSON_parse s with
  | Ok parsed => Of parsed
  | Throw _ =>
    match block_strategy re_fence s with
    | Some parsed => Of parsed
    | None =>
      match block_strategy re_braces s with
      | Some parsed => Of parsed
      | None => Of JNull
      end
    end
  end.

(** A model reply with a fenced block that is not JSON, followed by the
    JSON object. *)
Definition fenced_then_braces : str :=
  lit "```json
not json
``` {" ++ quoted "microTasks" ++ lit ":[{}]}".

(** The result of parsing a block that was found: final either way. *)
Definition parse_or_null (block : str) : value :=
  match JSON_parse block with
  | Ok parsed => Of parsed
  | Throw _ => Of JNull
  end.

(** ** Words for the research provider *)

(** The fallback, with its [catch]. *)
Definition fallback (task : str) : M (list SearchResult.t) :=
  try_catch (wikipedia_search task) (fun _ => ret []).

(** The links of two different entries are [===]. *)
Definition same_link (a b : SearchResult.t) : bool :=
  strict_equals false (SearchResult.link a) (SearchResult.link b).

(** No two entries have [===] links. *)
Fixpoint distinct_links (l : list SearchResult.t) : Prop :=
  match l with
  | [] => True
  | a :: r => Forall (fun b => same_link a b = false) r /\ distinct_links r
  end.

(** The test of the [filter]: the entry is the first with its link. *)
Definition is_first (allResults : list SearchResult.t) (index : nat)
           (result : SearchResult.t) : bool :=
  match findIndex
          (fun j r => strict_equals (j =? index)%nat
                        (SearchResult.link r) (SearchResult.link result))
          allResults with
  | Some j => (j =? index)%nat
  | None => false
  end.

(** With the credential of the search API. *)
Definition a_configured_environment : environment :=
  {| SERPAPI_API_KEY := Some (lit "serp-key");
     OPENAI_API_KEY := None;
     ANTHROPIC_API_KEY := Some (lit "sk-test") |}.

(** One organic result of the search API, as JSON text. *)
Definition organic (title link : string) : str :=
  lit "{" ++ quoted "title" ++ lit ":" ++ quoted title ++ lit ","
  ++ quoted "link" ++ lit ":" ++ quoted link ++ lit "}".

(** The reply of the search API with these organic results. *)
Definition serpapi_reply (results : list str) : response :=
  {| status := 200;
     body := lit "{" ++ quoted "organic_results" ++ lit ":["
             ++ join (lit ",") results ++ lit "]}" |}.

(** One hit of the encyclopedia search, as JSON text. *)
Definition hit (title snippet : string) : str :=
  lit "{" ++ quoted "title" ++ lit ":" ++ quoted title ++ lit ","
  ++ quoted "snippet" ++ lit ":" ++ quoted snippet ++ lit "}".

(** The reply of the encyclopedia search with these hits. *)
Definition wikipedia_reply (hits : list str) : response :=
  {| status := 200;
     body := lit "{" ++ quoted "query" ++ lit ":{" ++ quoted "search"
             ++ lit ":[" ++ join (lit ",") hits ++ lit "]}}" |}.

(** A reply with a non-success status. *)
Definition server_error : response := {| status := 500; body := lit "oops" |}.

(** A search result whose three fields are strings. *)
Definition result_of (title link snippet : string) : SearchResult.t :=
  {| SearchResult.title := Of (jstr title);
     SearchResult.link := Of (jstr link);
     SearchResult.snippet := Of (jstr snippet) |}.

(** The empty string literal. *)
Definition empty : string := EmptyString.

(** The first query is answered with one result; after that the network
    is down. *)
Definition a_failure_after_a_result : world :=
  {| answers := [Some (serpapi_reply [organic "Guide" "https://example.org/guide"]);
                 None; None];
     log := [] |}.

(** Only the second query is answered with success. *)
Definition one_query_answered : world :=
  {| answers := [Some server_error;
                 Some (serpapi_reply [organic "Guide" "https://example.org/guide"]);
                 Some server_error; Some server_error; Some server_error];
     log := [] |}.

(** Five queries answered, with links that repeat. *)
Definition repeated_links : world :=
  {| answers :=
       [Some (serpapi_reply [organic "A" "https://a.example/";
                             organic "B" "https://b.example/"]);
        Some (serpapi_reply [organic "A again" "https://a.example/";
                             organic "C" "https://c.example/"]);
        Some server_error;
        Some (serpapi_reply []);
        Some (serpapi_reply [organic "B again" "https://b.example/"])];
     log := [] |}.

(** A page served with status 200. *)
Definition a_page (html : string) : response :=
  {| status := 200; body := lit html |}.

(** No search credential; the encyclopedia returns two hits; the first
    page is fetched, the second is not; the model answers in a fenced
    block. *)
Definition a_successful_exchange : world :=
  {| answers :=
       [ Some (wikipedia_reply [hit "Birthday party" "a <b>party</b>";
                                hit "Party" "p"]);
         Some (a_page "<html><script>x()</script><p>Hello   world</p></html>");
         None;
         Some (anthropic_reply
                 (lit "```json {" ++ quoted "microTasks" ++ lit ":[{"
                  ++ quoted "text" ++ lit ":" ++ quoted " Buy a cake " ++ lit ","
                  ++ quoted "estimatedTimeMinutes" ++ lit ":999,"
                  ++ quoted "priority" ++ lit ":" ++ quoted "high" ++ lit ","
                  ++ quoted "dependsOn" ++ lit ":[0]},{"
                  ++ quoted "priority" ++ lit ":" ++ quoted "urgent"
                  ++ lit "}]} ```")) ];
     log := [] |}.

(** The handler run on that exchange. *)
Definition a_successful_run : result reply * world :=
  handler api_research_breakdown an_environment (a_post "plan a birthday party")
          a_successful_exchange.

(** Its reply: two tasks, two sources, web research used. *)
Definition the_breakdown : reply_body :=
  Breakdown
    [ {| MicroTask.id := 1;
         MicroTask.text := lit "Buy a cake";
         MicroTask.estimatedTime := of_Z 180;
         MicroTask.priority := lit "high";
         MicroTask.dependsOn := [JNum (S754_zero false)] |};
      {| MicroTask.id := 2;
         MicroTask.text := lit "Untitled task";
         MicroTask.estimatedTime := of_Z 30;
         MicroTask.priority := lit "medium";
         MicroTask.dependsOn := [] |} ]
    [ {| Source.title := Of (jstr "Birthday party");
         Source.url := Of (jstr "https://en.wikipedia.org/wiki/Birthday_party") |};
      {| Source.title := Of (jstr "Party");
         Source.url := Of (jstr "https://en.wikipedia.org/wiki/Party") |} ]
    true.

(** ** Words for the page fetcher *)

(** The requests of [fetchPages]: one per result, in order. *)
Definition page_requests (results : list SearchResult.t) : list request :=
  map (fun r => GET_follow (SearchResult.link r)) results.

(** The page [p] carries the title and the link of the result [r]. *)
Definition page_from (r : SearchResult.t) (p : Page.t) : Prop :=
  Page.title p = SearchResult.title r /\ Page.url p = SearchResult.link r.

(** A text without tag and without run of white space, of at most [n]
    code units. *)
Definition sanitized_within (n : nat) (s : str) : Prop :=
  List.length s <= n /\ has_match re_tag s = false /\ has_ws_run s = false.

(** What [fetchPages] promises of the pages it returns for [results]. *)
Definition fetched_from (results : list SearchResult.t) (p : Page.t) : Prop :=
  (exists r, In r results /\ page_from r p)
  /\ sanitized_within 10000 (Page.text p).

(** ** Words for the prompt *)

(** The page as the prompt shows it: its text cut at 2500 code units. *)
Definition clipped (p : Page.t) : Page.t :=
  {| Page.title := Page.title p;
     Page.url := Page.url p;
     Page.text := firstn 2500 (Page.text p) |}.

(** A page whose title and url a template literal can print. *)
Definition printable (p : Page.t) : Prop :=
  coercible (Page.title p) /\ coercible (Page.url p).

(** ** Words for the requests *)

(** A request that only reads. *)
Definition is_get (rq : request) : bool :=
  match rq with
  | GET _ | GET_follow _ => true
  | POST _ _ _ => false
  end.

(** Whatever it returns, [m] makes at most [n] requests, and they only
    read. *)
Definition reads_at_most {A} (n : nat) (m : M A) : Prop :=
  forall w, exists extra,
    log (snd (m w)) = log w ++ extra
    /\ List.length extra <= n
    /\ forallb is_get extra = true.

(** The most results [serpapi_search] returns. *)
Definition most_results (f : source_file) : nat :=
  match f with
  | api_research_breakdown => 8
  | unnamed_part_000 => 5
  end.

(** The most requests of the research and the page fetches together. *)
Definition most_reads (f : source_file) : nat :=
  match f with
  | api_research_breakdown => 13
  | unnamed_part_000 => 6
  end.

(** The address of the completion service the environment selects. *)
Definition completion_url (env : environment) : str :=
  if ToBoolean (env_value (OPENAI_API_KEY env)) then OPENAI_CHAT_URL
  else ANTHROPIC_API_URL.

(** No request, or one POST to [url]. *)
Definition at_most_one_post (url : str) (calls : list request) : Prop :=
  calls = [] \/ exists headers body, calls = [POST url headers body].

(** ** Words for the completion call *)

(** A POST request whose body is an object with the non-empty string
    [task]. *)
Definition valid_post (req : Req.t) (task : str) : Prop :=
  Req.method req = lit "POST"
  /\ task <> []
  /\ exists props,
       Req.body req = Of (JObj props)
       /\ own props (lit "task") = Some (JStr task).

(** The research and the page fetches for [task] take the world from [w]
    to [w'] and give [pages]. *)
Definition researched (f : source_file) (env : environment) (task : str)
           (w : world) (pages : list Page.t) (w' : world) : Prop :=
  exists results w1,
    webSearch f env task w = (Ok results, w1)
    /\ match results with [] => ret [] | _ => fetchPages results end w1
       = (Ok pages, w').

(** [err.message || "Internal error"] *)
Definition message_or_default (e : exn) : str :=
  match message e with
  | [] => lit "Internal error"
  | m => m
  end.

(** An environment without any credential. *)
Definition no_credentials : environment :=
  {| SERPAPI_API_KEY := None;
     OPENAI_API_KEY := None;
     ANTHROPIC_API_KEY := None |}.

(** How the error message of the completion service the environment
    selects begins. *)
Definition completion_error (env : environment) : str :=
  if ToBoolean (env_value (OPENAI_API_KEY env)) then lit "OpenAI error: "
  else lit "Anthropic error: ".

(** The network is down, but for the completion service, which refuses
    the call. *)
Definition a_refused_completion : world :=
  {| answers := [None; Some {| status := 401; body := lit "invalid x-api-key" |}];
     log := [] |}.

(** ** Words for the fallback *)

(** A result as the fallback makes it: the title is a string, the link
    is an address of the encyclopedia without any space, and the snippet
    is a sanitized string. *)
Definition wikipedia_result (r : SearchResult.t) : Prop :=
  exists title name snippet,
    SearchResult.title r = Of (JStr title)
    /\ SearchResult.link r
       = Of (JStr (lit "https://en.wikipedia.org/wiki/" ++ name))
    /\ ~ In 32%N name
    /\ SearchResult.snippet r = Of (JStr snippet)
    /\ has_match re_tag snippet = false
    /\ has_ws_run snippet = false.

(** The encyclopedia answers with two hits; the second has no title. *)
Definition a_hit_without_title : world :=
  {| answers :=
       [Some (wikipedia_reply
                [hit "Party" "a";
                 lit "{" ++ quoted "snippet" ++ lit ":" ++ quoted "b" ++ lit "}"])];
     log := [] |}.

(** ** Words for the priorities *)

(** The three priorities. *)
Definition priorities : list str := [lit "high"; lit "medium"; lit "low"].

(** A raw entry whose text is blank and whose priority is unknown. *)
Definition a_blank_entry : json :=
  JObj [(lit "text", JStr (lit "  ")); (lit "priority", JStr (lit "HIGH"))].

(** ** Words for the extraction *)

(** A text with a fenced block: [pre], the opening marker with [label]
    for the language, [t], the closing marker, [post]. *)
Definition fenced (pre label t post : str) : str :=
  pre ++ lit "```" ++ label ++ t ++ lit "```" ++ post.

(** A text with braces: [pre], an opening brace, [mid], a closing brace,
    [post]. *)
Definition braced (pre mid post : str) : str :=
  pre ++ [123%N] ++ mid ++ [125%N] ++ post.

(** ** Words for the answers *)

(** What [x || ""] can be: a truthy value or the empty string. *)
Definition truthy_or_empty (v : value) : Prop :=
  ToBoolean v = true \/ v = Of (JStr []).

(** An environment with a credential for OpenAI only. *)
Definition an_openai_environment : environment :=
  {| SERPAPI_API_KEY := None;
     OPENAI_API_KEY := Some (lit "sk-openai");
     ANTHROPIC_API_KEY := None |}.

(** A successful answer whose body is the JSON text [{}]. *)
Definition an_empty_object : response := {| status := 200; body := lit "{}" |}.

(** ** Words for the errors of a query *)

(** The world after the request of the encoded query [q]. *)
Definition after_query (apiKey q : str) (w : world) : world :=
  {| answers := tl (answers w);
     log := log w ++ [GET (serpapi_url q (lit "3") apiKey)] |}.

(** In the world [w] the next query raises [e]: the network fails, or
    the answer is a success whose body is not JSON, or is JSON of which
    [organic_results] cannot be read or mapped. *)
Definition raises (w : world) (e : exn) : Prop :=
  (e = TypeError (lit "fetch failed")
   /\ forall r rest, answers w <> Some r :: rest)
  \/ (exists r rest,
        answers w = Some r :: rest
        /\ ok r = true
        /\ (JSON_parse (body r) = Throw e
            \/ exists data,
                 JSON_parse (body r) = Ok data
                 /\ (Get (Of data) (lit "organic_results") = Throw e
                     \/ exists found,
                          Get (Of data) (lit "organic_results") = Ok found
                          /\ array_map organic_result
                                (or_else found (Of (JArr []))) = Throw e))).

(** The first query is answered with one result; the second finds the
    network down. *)
Definition after_the_first_query : world :=
  {| answers := [None; None];
     log := [GET (serpapi_url (lit "plan%20step%20by%20step%20guide%202024")
                              (lit "3") (lit "serp-key"))] |}.

(** ** Words for the blocks *)

(** The opening of a fenced block: the marker and the label [json], the
    letters in either case. *)
Definition opens_fence (o : str) : Prop := map upper o = lit "```JSON".

(** The text [s] holds a fenced block after [pre]: the opening [o],
    [inner], the closing marker, then [post]. *)
Definition fence_at (s pre o inner post : str) : Prop :=
  s = pre ++ o ++ inner ++ lit "```" ++ post /\ opens_fence o.

(** The fenced block of [s] that starts first and, of those, ends
    first. *)
Definition first_fence (s pre o inner post : str) : Prop :=
  fence_at s pre o inner post
  /\ forall pre' o' inner' post' : str,
       fence_at s pre' o' inner' post' ->
       List.length pre < List.length pre'
       \/ (List.length pre = List.length pre'
           /\ List.length inner <= List.length inner').

(** The text holds no fenced block. *)
Definition no_fence (s : str) : Prop :=
  forall pre o inner post, ~ fence_at s pre o inner post.

(** The text [s] from its first opening brace, after [pre], to its last
    closing brace, before [post]. *)
Definition braces_at (s pre mid post : str) : Prop :=
  s = pre ++ [123%N] ++ mid ++ [125%N] ++ post
  /\ ~ In 123%N pre /\ ~ In 125%N post.

(** The text holds no opening brace with a closing brace after it. *)
Definition no_braces (s : str) : Prop :=
  forall pre mid post, s <> pre ++ [123%N] ++ mid ++ [125%N] ++ post.

(** [markers_deleted s out]: [out] is [s] without the markers [```json]
    and [```], found from left to right, the longer one first, a marker
    never overlapping the one before it. *)
Inductive markers_deleted : str -> str -> Prop :=
| deleted_nil : markers_deleted [] []
| deleted_long s out :
    markers_deleted s out ->
    markers_deleted (lit "```json" ++ s) out
| deleted_short s out :
    (forall t, s <> lit "json" ++ t) ->
    markers_deleted s out ->
    markers_deleted (lit "```" ++ s) out
| deleted_keep c s out :
    (forall t, c :: s <> lit "```" ++ t) ->
    markers_deleted s out ->
    markers_deleted (c :: s) (c :: out).

(** A reply whose only braces hold a string made of a marker. *)
Definition a_marker_in_braces : str :=
  lit "x {" ++ quoted "a" ++ lit ": " ++ quoted "```" ++ lit "} y".

(** The closing marker of [t] followed by a marker is the first marker
    there. *)
Definition closes_first (t : str) : Prop :=
  forall x y : str,
    t ++ lit "```" = x ++ lit "```" ++ y -> List.length t <= List.length x.

(** ** Words for the successful reply *)








(* ================================================================== *)
(** * Properties                                                       *)
(* ================================================================== *)

(** ** Strings *)

Lemma char_eqb_eq (a b : char) : char_eqb a b = true <-> a = b.
Proof. apply N.eqb_eq. Qed.

Lemma str_eqb_eq (a b : str) : str_eqb a b = true <-> a = b.
Proof.
  revert b; induction a as [|x a IH]; intros [|y b]; simpl; split;
    try congruence; try reflexivity.
  - intros H. apply andb_true_iff in H as [H1 H2].
    apply char_eqb_eq in H1. apply IH in H2. congruence.
  - intros H. injection H as -> ->. apply andb_true_iff. split.
    + now apply char_eqb_eq.
    + now apply IH.
Qed.

Lemma str_eqb_refl (a : str) : str_eqb a a = true.
Proof. now apply str_eqb_eq. Qed.

(** *** Matchers and global replacement *)

Section Matchers.

Variable m : str -> option str.
Variable rep : str.

Lemma has_match_false_cons c r :
  has_match m (c :: r) = false <-> m (c :: r) = None /\ has_match m r = false.
Proof.
  simpl. destruct (m (c :: r)); split; intros H; try easy; now destruct H.
Qed.

Lemma has_match_false_here s : has_match m s = false -> m s = None.
Proof. destruct s; simpl; now destruct (m _). Qed.

Lemma has_match_false_tail c r :
  has_match m (c :: r) = false -> has_match m r = false.
Proof. intros H. now apply has_match_false_cons in H. Qed.

(** A weaker expression matches nowhere either. *)
Lemma has_match_false_impl (m' : str -> option str) s :
  (forall t, m t = None -> m' t = None) ->
  has_match m s = false -> has_match m' s = false.
Proof.
  intros Himp. induction s as [|c r IH]; intros H.
  - apply has_match_false_here in H. simpl. now rewrite (Himp _ H).
  - apply has_match_false_cons in H as [H1 H2]. simpl.
    rewrite (Himp _ H1). auto.
Qed.

Lemma has_match_false_trimStart s :
  has_match m s = false -> has_match m (trimStart s) = false.
Proof.
  induction s as [|c r IH]; simpl; auto.
  intros H. destruct (is_ws c); auto.
  apply IH. destruct (m (c :: r)); easy.
Qed.

(** Replacing where nothing matches changes nothing. *)
Lemma replace_from_no_match fuel s :
  has_match m s = false -> replace_from m rep fuel s = s.
Proof.
  revert s; induction fuel as [|fuel IH]; intros s H; simpl; auto.
  rewrite (has_match_false_here _ H).
  destruct s as [|c r]; auto.
  f_equal. apply IH. eapply has_match_false_tail; eauto.
Qed.

Lemma replace_all_no_match s :
  has_match m s = false -> replace_all m rep s = s.
Proof. apply replace_from_no_match. Qed.

End Matchers.

(** ** stripHtml *)

Lemma after_gt_None s : after_gt s = None <-> ~ In 62%N s.
Proof.
  induction s as [|c r IH]; simpl.
  - split; auto.
  - destruct (N.eqb_spec c 62).
    + split; [discriminate | intros H; exfalso; apply H; now left].
    + rewrite IH. split.
      * intros H [E|E]; [congruence | now apply H].
      * intros H E. apply H. now right.
Qed.

Lemma after_gt_length s rest :
  after_gt s = Some rest -> List.length rest < List.length s.
Proof.
  revert rest; induction s as [|c r IH]; simpl; intros rest H; [discriminate|].
  destruct (c =? 62)%N.
  - injection H as <-. lia.
  - apply IH in H. lia.
Qed.

(** When the tag expression does not match at a [<]. *)
Lemma re_tag_None c r :
  re_tag (c :: r) = None <->
  (c = 60%N -> r = [] \/ (exists r', r = 62%N :: r') \/ ~ In 62%N r).
Proof.
  unfold re_tag. destruct r as [|d r'].
  - split; auto.
  - destruct (N.eqb_spec c 60) as [->|Hc]; [|split; congruence].
    destruct (N.eqb_spec d 62) as [->|Hd].
    + split; auto. intros _ _. right. left. now exists r'.
    + rewrite after_gt_None. split.
      * intros H _. right. right. intros [E|E]; [congruence | auto].
      * intros H. destruct (H eq_refl) as [E|[(x & E)|E]];
          [discriminate | congruence | ].
        intros F. apply E. now right.
Qed.

Lemma re_tag_length t rest :
  re_tag t = Some rest -> List.length rest < List.length t.
Proof.
  unfold re_tag. destruct t as [|c [|d r]]; try discriminate.
  destruct (c =? 60)%N; [|discriminate].
  destruct (d =? 62)%N; [discriminate|].
  intros H. apply after_gt_length in H. simpl. lia.
Qed.

Lemma lit_space : lit " " = [32%N].
Proof. reflexivity. Qed.

Lemma no_gt_no_tag s : ~ In 62%N s -> has_match re_tag s = false.
Proof.
  induction s as [|c r IH]; intros H; [reflexivity|].
  apply has_match_false_cons. split.
  - apply re_tag_None. intros _. right. right. intros F. apply H. now right.
  - apply IH. intros F. apply H. now right.
Qed.

(** A [<] that starts no tag still starts none when what follows it is
    rewritten without touching a leading [>] or adding a [>]. *)
Lemma re_tag_None_preserved c r r' :
  (r = [] -> r' = []) ->
  (forall x, r = 62%N :: x -> exists y, r' = 62%N :: y) ->
  (In 62%N r' -> In 62%N r) ->
  re_tag (c :: r) = None -> re_tag (c :: r') = None.
Proof.
  intros Hnil Hgt Hin H. rewrite re_tag_None in *. intros E.
  destruct (H E) as [E1|[(x & E1)|E1]].
  - left. auto.
  - right. left. eauto.
  - right. right. auto.
Qed.

(** After the tags are replaced, the tag expression matches nowhere. *)
Lemma replace_tags_no_tag fuel s :
  List.length s < fuel ->
  has_match re_tag (replace_from re_tag [32%N] fuel s) = false.
Proof.
  revert s; induction fuel as [|fuel IH]; intros s Hlen; [lia|].
  simpl. destruct (re_tag s) as [rest|] eqn:Hm.
  - apply re_tag_length in Hm as Hl.
    change ([32%N] ++ ?x) with (32%N :: x).
    apply has_match_false_cons. split.
    + apply re_tag_None. discriminate.
    + apply IH. lia.
  - destruct s as [|c r]; [reflexivity|]. simpl in Hlen.
    apply has_match_false_cons. split; [|apply IH; lia].
    rewrite re_tag_None in *. intros E. specialize (Hm E).
    destruct Hm as [->|[(x & ->)|Hm]].
    + left. destruct fuel; reflexivity.
    + right. left. destruct fuel as [|fuel']; [simpl in Hlen; lia|].
      destruct x; simpl; eauto.
    + rewrite replace_from_no_match by now apply no_gt_no_tag. auto.
Qed.

Lemma trimStart_head s :
  match trimStart s with [] => True | d :: _ => is_ws d = false end.
Proof.
  induction s as [|c r IH]; simpl; auto.
  destruct (is_ws c) eqn:E; auto.
Qed.

Lemma trimStart_fix s :
  match s with [] => True | d :: _ => is_ws d = false end -> trimStart s = s.
Proof. destruct s as [|c r]; simpl; auto. now intros ->. Qed.

Lemma trimStart_length s : List.length (trimStart s) <= List.length s.
Proof.
  induction s as [|c r IH]; simpl; auto.
  destruct (is_ws c); simpl; lia.
Qed.

Lemma trimStart_In x s : In x (trimStart s) -> In x s.
Proof.
  induction s as [|c r IH]; simpl; auto.
  destruct (is_ws c); simpl; auto.
Qed.

Lemma re_spaces_Some t rest :
  re_spaces t = Some rest ->
  exists c r, t = c :: r /\ is_ws c = true /\ rest = trimStart r.
Proof.
  destruct t as [|c r]; simpl; [discriminate|].
  destruct (is_ws c) eqn:E; [|discriminate].
  intros [= <-]. eauto.
Qed.

Lemma re_spaces_None c r : re_spaces (c :: r) = None <-> is_ws c = false.
Proof. simpl. destruct (is_ws c); split; congruence. Qed.

Lemma replace_spaces_head fuel s :
  List.length s < fuel ->
  match s with [] => True | d :: _ => is_ws d = false end ->
  match replace_from re_spaces [32%N] fuel s with
  | [] => s = []
  | d :: _ => exists r, s = d :: r
  end.
Proof.
  destruct fuel as [|fuel]; [lia|]. intros _.
  destruct s as [|c r]; simpl; auto.
  intros ->. eauto.
Qed.

(** After the runs of white space are replaced, the string is normal. *)
Lemma replace_spaces_normal fuel s :
  List.length s < fuel ->
  ws_normal (replace_from re_spaces [32%N] fuel s).
Proof.
  revert s; induction fuel as [|fuel IH]; intros s Hlen; [lia|].
  simpl. destruct (re_spaces s) as [rest|] eqn:Hm.
  - apply re_spaces_Some in Hm as (c & r & -> & Hc & ->).
    simpl in Hlen. pose proof (trimStart_length r).
    change ([32%N] ++ ?x) with (32%N :: x). simpl. split.
    + intros _. split; auto.
      pose proof (replace_spaces_head fuel (trimStart r)) as Hh.
      specialize (Hh ltac:(lia) (trimStart_head r)).
      destruct (replace_from re_spaces [32%N] fuel (trimStart r)); auto.
      destruct Hh as (r' & Hh). pose proof (trimStart_head r) as Ht.
      now rewrite Hh in Ht.
    + apply IH. lia.
  - destruct s as [|c r]; simpl; auto.
    apply re_spaces_None in Hm. simpl in Hlen. split.
    + congruence.
    + apply IH. lia.
Qed.

Lemma replace_spaces_fix fuel s :
  ws_normal s -> replace_from re_spaces [32%N] fuel s = s.
Proof.
  revert s; induction fuel as [|fuel IH]; intros s H; simpl; auto.
  destruct s as [|c r]; auto. simpl in H. destruct H as [Hc Hr].
  simpl. destruct (is_ws c) eqn:E.
  - destruct (Hc eq_refl) as [-> Hd].
    rewrite (trimStart_fix r Hd). simpl. f_equal. auto.
  - f_equal. auto.
Qed.

Lemma replace_spaces_In_gt fuel s :
  In 62%N (replace_from re_spaces [32%N] fuel s) -> In 62%N s.
Proof.
  revert s; induction fuel as [|fuel IH]; intros s; simpl; auto.
  destruct (re_spaces s) as [rest|] eqn:Hm.
  - apply re_spaces_Some in Hm as (c & r & -> & Hc & ->).
    intros [E|E]; [discriminate|].
    right. apply trimStart_In. now apply IH.
  - destruct s as [|c r]; auto.
    intros [E|E]; [now left | right; now apply IH].
Qed.

(** Replacing white space creates no tag. *)
Lemma replace_spaces_no_tag fuel s :
  List.length s < fuel ->
  has_match re_tag s = false ->
  has_match re_tag (replace_from re_spaces [32%N] fuel s) = false.
Proof.
  revert s; induction fuel as [|fuel IH]; intros s Hlen H; [lia|].
  simpl. destruct (re_spaces s) as [rest|] eqn:Hm.
  - apply re_spaces_Some in Hm as (c & r & -> & Hc & ->).
    simpl in Hlen. pose proof (trimStart_length r).
    change ([32%N] ++ ?x) with (32%N :: x).
    apply has_match_false_cons. split.
    + apply re_tag_None. discriminate.
    + apply IH; [lia|]. apply has_match_false_trimStart.
      eapply has_match_false_tail; eauto.
  - destruct s as [|c r]; [reflexivity|]. simpl in Hlen.
    apply has_match_false_cons in H as [H1 H2].
    apply has_match_false_cons. split; [|apply IH; auto; lia].
    revert H1. apply re_tag_None_preserved.
    + intros ->. destruct fuel; reflexivity.
    + intros x ->. destruct fuel as [|fuel']; [simpl in Hlen; lia|].
      simpl. eauto.
    + apply replace_spaces_In_gt.
Qed.

(** *** Trimming *)

Lemma trimEnd_cons c r :
  trimEnd (c :: r) = [] \/ exists t, trimEnd (c :: r) = c :: t.
Proof. simpl. destruct (trimEnd r); [destruct (is_ws c)|]; eauto. Qed.

Lemma trimEnd_keeps_head c r :
  is_ws c = false -> exists t, trimEnd (c :: r) = c :: t.
Proof. intros H. simpl. rewrite H. destruct (trimEnd r); eauto. Qed.

Lemma trimEnd_In x s : In x (trimEnd s) -> In x s.
Proof.
  induction s as [|c r IH]; simpl; auto.
  destruct (trimEnd r) as [|d t].
  - destruct (is_ws c); simpl; tauto.
  - intros [E|E]; auto.
Qed.

Lemma trimEnd_no_tag s :
  has_match re_tag s = false -> has_match re_tag (trimEnd s) = false.
Proof.
  induction s as [|c r IH]; intros H; [reflexivity|].
  apply has_match_false_cons in H as [H1 H2]. specialize (IH H2).
  assert (Hc : has_match re_tag (c :: trimEnd r) = false).
  { apply has_match_false_cons. split; auto.
    revert H1. apply re_tag_None_preserved.
    - now intros ->.
    - intros x ->. apply trimEnd_keeps_head. reflexivity.
    - apply trimEnd_In. }
  simpl. destruct (trimEnd r) as [|d t] eqn:E; auto.
  destruct (is_ws c); auto.
Qed.

Lemma ws_normal_trimStart s : ws_normal s -> ws_normal (trimStart s).
Proof.
  induction s as [|c r IH]; simpl; auto.
  intros [H1 H2]. destruct (is_ws c) eqn:E; [now apply IH|].
  simpl. split; [congruence | auto].
Qed.

Lemma trimEnd_normal s : ws_normal s -> ws_normal (trimEnd s).
Proof.
  induction s as [|c r IH]; simpl; auto.
  intros [H1 H2]. specialize (IH H2).
  destruct (trimEnd r) as [|d t] eqn:E.
  - destruct (is_ws c) eqn:Ec; simpl; auto. split; auto. congruence.
  - simpl. split; auto. intros Hc. destruct (H1 Hc) as [-> Hd]. split; auto.
    destruct r as [|d' r']; [discriminate|].
    destruct (trimEnd_cons d' r') as [E'|(t' & E')]; rewrite E' in E;
      congruence.
Qed.

Lemma trimEnd_idempotent s : trimEnd (trimEnd s) = trimEnd s.
Proof.
  induction s as [|c r IH]; simpl; auto.
  destruct (trimEnd r) as [|d t] eqn:E.
  - destruct (is_ws c) eqn:Ec; simpl; auto. now rewrite Ec.
  - change (trimEnd (c :: d :: t)) with
      (match trimEnd (d :: t) with
       | [] => if is_ws c then [] else [c]
       | r' => c :: r'
       end).
    now rewrite IH.
Qed.

Lemma trimEnd_head s :
  match s with [] => True | d :: _ => is_ws d = false end ->
  match trimEnd s with [] => True | d :: _ => is_ws d = false end.
Proof.
  destruct s as [|c r]; auto. intros H.
  destruct (trimEnd_keeps_head c r H) as (t & ->). auto.
Qed.

Lemma trim_idempotent s : trim (trim s) = trim s.
Proof.
  unfold trim.
  rewrite (trimStart_fix (trimEnd (trimStart s))).
  - apply trimEnd_idempotent.
  - apply trimEnd_head, trimStart_head.
Qed.

Lemma trim_no_tag s :
  has_match re_tag s = false -> has_match re_tag (trim s) = false.
Proof. intros H. now apply trimEnd_no_tag, has_match_false_trimStart. Qed.

Lemma trim_normal s : ws_normal s -> ws_normal (trim s).
Proof. intros H. now apply trimEnd_normal, ws_normal_trimStart. Qed.

(** *** Script and style blocks are tags *)

Lemma upper_other (k y : char) :
  (k < 65 \/ 90 < k)%N -> upper y = k -> y = k.
Proof.
  unfold upper. intros Hk.
  destruct ((97 <=? y) && (y <=? 122))%N eqn:E; auto.
  apply andb_true_iff in E as [E1 E2].
  apply N.leb_le in E1, E2. lia.
Qed.

Lemma prefix_ci_In p s r x : prefix_ci p s = Some r -> In x r -> In x s.
Proof.
  revert s; induction p as [|a p IH]; intros s; simpl.
  - now intros [= ->].
  - destruct s as [|b s]; [discriminate|].
    destruct (char_eqb (upper a) (upper b)); [|discriminate].
    intros H Hx. right. eauto.
Qed.

Lemma prefix_ci_gt p s r : prefix_ci p s = Some r -> In 62%N p -> In 62%N s.
Proof.
  revert s; induction p as [|a p IH]; intros s; simpl; [tauto|].
  destruct s as [|b s]; [discriminate|].
  destruct (char_eqb (upper a) (upper b)) eqn:E; [|discriminate].
  intros H [->|Hin].
  - left. apply char_eqb_eq in E. symmetry in E.
    apply upper_other in E; [auto | left; reflexivity].
  - right. eauto.
Qed.

Lemma find_ci_gt p s r : find_ci p s = Some r -> In 62%N p -> In 62%N s.
Proof.
  induction s as [|b s IH]; simpl.
  - destruct (prefix_ci p []) eqn:E; [|discriminate].
    intros _ Hp. eapply prefix_ci_gt in E; eauto.
  - destruct (prefix_ci p (b :: s)) eqn:E.
    + intros _ Hp. eapply prefix_ci_gt in E; eauto.
    + intros H Hp. right. auto.
Qed.

(** A block that opens with [<] and a letter and closes with a [>] is
    matched by the tag expression as well. *)
Lemma block_is_tag (c1 : char) (opening closing : str) (t : str) :
  upper c1 <> 62%N -> In 62%N closing ->
  re_tag t = None ->
  match prefix_ci (60%N :: c1 :: opening) t with
  | Some r => find_ci closing r
  | None => None
  end = None.
Proof.
  intros Hc1 Hclose Ht.
  destruct (prefix_ci (60%N :: c1 :: opening) t) as [r|] eqn:E; auto.
  destruct (find_ci closing r) as [rest|] eqn:F; auto. exfalso.
  apply find_ci_gt in F; auto.
  destruct t as [|b0 [|b1 u]]; cbn [prefix_ci] in E; try discriminate.
  - destruct (char_eqb (upper 60%N) (upper b0)); discriminate.
  - destruct (char_eqb (upper 60%N) (upper b0)) eqn:E0; [|discriminate].
    destruct (char_eqb (upper c1) (upper b1)) eqn:E1; [|discriminate].
    apply char_eqb_eq in E0, E1. symmetry in E0.
    apply upper_other in E0; [|left; reflexivity]. subst b0.
    apply re_tag_None in Ht; [|reflexivity]. destruct Ht as [H|[(x & H)|H]].
    + discriminate.
    + injection H as -> _. apply Hc1. rewrite E1. reflexivity.
    + apply H. right. eapply prefix_ci_In; eauto.
Qed.

Lemma no_tag_no_script s :
  has_match re_tag s = false -> has_match re_script s = false.
Proof.
  apply has_match_false_impl. intros t.
  apply (@block_is_tag 115%N (lit "cript") (lit "</script>")).
  - discriminate.
  - vm_compute. tauto.
Qed.

Lemma no_tag_no_style s :
  has_match re_tag s = false -> has_match re_style s = false.
Proof.
  apply has_match_false_impl. intros t.
  apply (@block_is_tag 115%N (lit "tyle") (lit "</style>")).
  - discriminate.
  - vm_compute. tauto.
Qed.

(** *** The sanitizer's output *)

Lemma ws_normal_no_run s : ws_normal s -> has_ws_run s = false.
Proof.
  induction s as [|c r IH]; simpl; auto.
  intros [H1 H2]. destruct r as [|d r']; auto.
  rewrite (IH H2), orb_false_r.
  destruct (is_ws c); auto. now destruct (H1 eq_refl) as [_ ->].
Qed.

Lemma stripHtml_string s :
  stripHtml (Of (JStr s)) = Ok (match s with [] => [] | _ => stripped s end).
Proof. destruct s; reflexivity. Qed.

Lemma stripped_no_tag s : has_match re_tag (stripped s) = false.
Proof.
  unfold stripped, replace_all. rewrite lit_space.
  apply trim_no_tag, replace_spaces_no_tag; [lia|].
  apply replace_tags_no_tag. lia.
Qed.

Lemma stripped_normal s : ws_normal (stripped s).
Proof.
  unfold stripped, replace_all. rewrite lit_space.
  apply trim_normal, replace_spaces_normal. lia.
Qed.

Lemma stripped_trimmed s : trim (stripped s) = stripped s.
Proof. unfold stripped. apply trim_idempotent. Qed.

Lemma stripped_idempotent s : stripped (stripped s) = stripped s.
Proof.
  unfold stripped at 1.
  rewrite (replace_all_no_match re_script)
    by apply no_tag_no_script, stripped_no_tag.
  rewrite (replace_all_no_match re_style)
    by apply no_tag_no_style, stripped_no_tag.
  rewrite (replace_all_no_match re_tag) by apply stripped_no_tag.
  unfold replace_all at 1. rewrite lit_space.
  rewrite replace_spaces_fix by apply stripped_normal.
  apply stripped_trimmed.
Qed.

(** A string without tag, with normal white space and trimmed is left
    as it is. *)
Lemma stripped_fixed s :
  has_match re_tag s = false -> ws_normal s -> trim s = s -> stripped s = s.
Proof.
  intros Htag Hws Htrim. unfold stripped.
  rewrite (replace_all_no_match re_script) by now apply no_tag_no_script.
  rewrite (replace_all_no_match re_style) by now apply no_tag_no_style.
  rewrite (replace_all_no_match re_tag) by exact Htag.
  unfold replace_all. rewrite lit_space.
  now rewrite replace_spaces_fix.
Qed.

(** ** Numbers *)

Lemma of_Z_10 : of_Z 10 = S754_finite false 5629499534213120 (-49).
Proof. reflexivity. Qed.

Lemma of_Z_180 : of_Z 180 = S754_finite false 6333186975989760 (-45).
Proof. reflexivity. Qed.

Lemma compare_cont_antisym (p q : positive) :
  PosDef.Pos.compare_cont Eq p q = CompOpp (PosDef.Pos.compare_cont Eq q p).
Proof. exact (Pos.compare_antisym q p). Qed.

Lemma SFcompare_antisym (x y : number) :
  SFcompare x y = option_map CompOpp (SFcompare y x).
Proof.
  destruct x as [sx|sx| |sx mx ex], y as [sy|sy| |sy my ey]; simpl;
    try destruct sx; try destruct sy; try reflexivity;
    rewrite (Z.compare_antisym ex ey); destruct (ex ?= ey)%Z; simpl;
    try reflexivity;
    rewrite (compare_cont_antisym mx my);
    destruct (PosDef.Pos.compare_cont Eq my mx); reflexivity.
Qed.

Lemma SFcompare_None (x y : number) :
  SFcompare x y = None -> is_nan x || is_nan y = true.
Proof.
  destruct x as [sx|sx| |sx mx ex], y as [sy|sy| |sy my ey]; simpl;
    try destruct sx; try destruct sy; congruence.
Qed.

(** The expression of the handler, case by case. *)
Lemma estimatedTime_cases (n : number) :
  Math_max (of_Z 10) (Math_min (of_Z 180) (number_or n (of_Z 30)))
  = if is_nan n || is_zero n then of_Z 30 else clamp n.
Proof.
  unfold number_or, ToBoolean.
  destruct n as [s|s| |s m e]; try reflexivity.
  - destruct s; reflexivity.
  - cbn [is_nan is_zero orb negb]. unfold clamp.
    rewrite of_Z_10, of_Z_180.
    unfold Math_max, Math_min, num_ltb, SFltb, SFcompare.
    destruct s; [reflexivity|].
    rewrite (Z.compare_antisym (-49) e).
    rewrite (compare_cont_antisym m 5629499534213120).
    destruct (Z.compare_spec (-45) e) as [<-|He|He].
    + destruct (PosDef.Pos.compare_cont Eq 6333186975989760 m) eqn:P;
        try reflexivity.
      apply Pos.compare_eq in P. now subst.
    + assert (H49 : (-49 ?= e)%Z = Lt) by (apply Z.compare_lt_iff; lia).
      rewrite H49. reflexivity.
    + destruct (Z.compare_spec (-49) e) as [<-|H49|H49]; try reflexivity.
      cbn [CompOpp].
      destruct (PosDef.Pos.compare_cont Eq 5629499534213120 m) eqn:P;
        try reflexivity.
      apply Pos.compare_eq in P. now subst.
Qed.

Lemma clamp_bounds n :
  is_nan n = false ->
  num_leb (of_Z 10) (clamp n) = true /\ num_leb (clamp n) (of_Z 180) = true.
Proof.
  intros Hn. unfold clamp, num_ltb, num_leb, SFltb, SFleb.
  destruct (SFcompare n (of_Z 10)) as [[| |]|] eqn:C10;
    try (split; reflexivity);
    (destruct (SFcompare (of_Z 180) n) as [[| |]|] eqn:C180;
     try (split; reflexivity));
    rewrite (SFcompare_antisym (of_Z 10) n), (SFcompare_antisym n (of_Z 180)),
      C10, C180; try (split; reflexivity);
    try (apply SFcompare_None in C10; rewrite Hn in C10; discriminate);
    try (apply SFcompare_None in C180; rewrite Hn in C180; discriminate).
Qed.

(** Whatever the raw value, the estimate lies in [10, 180]. *)
Lemma estimatedTime_bounds (n : number) :
  let e := Math_max (of_Z 10) (Math_min (of_Z 180) (number_or n (of_Z 30))) in
  num_leb (of_Z 10) e = true /\ num_leb e (of_Z 180) = true.
Proof.
  cbv zeta. rewrite estimatedTime_cases.
  destruct (is_nan n) eqn:E; [split; reflexivity|].
  destruct (is_zero n); [split; reflexivity|].
  now apply clamp_bounds.
Qed.

(** ** The sanitizer (claims C8 and C10) *)




(** C10: sanitizing the sanitizer's output changes nothing. *)
Theorem stripHtml_idempotent :
  forall s : str, exists out : str,
    stripHtml (Of (JStr s)) = Ok out
    /\ stripHtml (Of (JStr out)) = Ok out.
Proof.
  intros s. rewrite stripHtml_string. eexists. split; [reflexivity|].
  rewrite stripHtml_string. destruct s as [|c r]; [reflexivity|].
  destruct (stripped (c :: r)) as [|d t] eqn:E; [reflexivity|].
  rewrite <- E. now rewrite stripped_idempotent.
Qed.

(** ** Normalization (claims C2, C3 and C6) *)

Lemma Get_not_null (t : json) (k : str) :
  t <> JNull -> Get (Of t) k = Ok (GetOpt (Of t) k).
Proof.
  intros H. unfold GetOpt. destruct t; try congruence; simpl;
    repeat match goal with
           | |- context [match ?x with _ => _ end] => destruct x
           end; reflexivity.
Qed.

Lemma coercible_ToNumber v : coercible v -> exists n, ToNumber v = Ok n.
Proof.
  intros (s & H). destruct v as [|j|o n]; simpl; eauto.
  destruct j; simpl in *; eauto; rewrite H; simpl; eauto.
Qed.

Lemma coercible_or_else v (d : str) :
  coercible v -> coercible (or_else v (Of (JStr d))).
Proof.
  intros H. unfold or_else. destruct (ToBoolean v); auto.
  exists d. reflexivity.
Qed.

Lemma normalize_entry_ok idx t text n :
  t <> JNull ->
  ToString (or_else (field t "text") (Of (jstr "Untitled task"))) = Ok text ->
  ToNumber (field t "estimatedTimeMinutes") = Ok n ->
  normalize_entry idx t = Ok (normalized_entry idx t text n).
Proof.
  intros Ht Htext Hn. unfold normalize_entry, field in *.
  rewrite !Get_not_null by assumption. cbn [rbind].
  rewrite Htext. cbn [rbind]. rewrite Hn. reflexivity.
Qed.

Lemma priority_enumerated t text n idx :
  In (MicroTask.priority (normalized_entry idx t text n))
     [lit "high"; lit "medium"; lit "low"].
Proof.
  simpl MicroTask.priority.
  destruct (field t "priority") as [|[]|]; try (right; left; reflexivity).
  unfold is_priority. cbn [existsb strict_equals jstr].
  destruct (str_eqb (lit "high") s) eqn:E1.
  { apply str_eqb_eq in E1. subst. left. reflexivity. }
  destruct (str_eqb (lit "medium") s) eqn:E2.
  { apply str_eqb_eq in E2. subst. right. left. reflexivity. }
  destruct (str_eqb (lit "low") s) eqn:E3.
  { apply str_eqb_eq in E3. subst. right. right. left. reflexivity. }
  right. left. reflexivity.
Qed.

(** C2, as stated, fails: a [null] entry makes the normalizer throw, and
    a text of blanks is normalized to the empty string. *)
Lemma normalize_entry_null_and_blank :
  normalize_entry 0 JNull
  = Throw (TypeError (lit "Cannot read properties of null (reading 'text')"))
  /\ JSON_parse (lit "{" ++ quoted "text" ++ lit ":" ++ quoted "   " ++ lit "}")
     = Ok (JObj [(lit "text", JStr (lit "   "))])
  /\ option_map MicroTask.text
       (match normalize_entry 0 (JObj [(lit "text", JStr (lit "   "))]) with
        | Ok out => Some out
        | Throw _ => None
        end) = Some [].
Proof. by_evaluation. Qed.

(** C2, amended: for every raw entry other than [null] whose [text] and
    [estimatedTimeMinutes] fields can be converted to a string, the
    normalizer returns an entry with [id] the 1-based position, [text] a
    trimmed string (the placeholder when the raw text is missing or
    falsy), [estimatedTime] a number within [10, 180], [priority] one of
    the three levels and [dependsOn] the raw array, or the empty one. *)
Theorem normalize_entry_total (idx : nat) (t : json) :
  t <> JNull ->
  coercible (field t "text") ->
  coercible (field t "estimatedTimeMinutes") ->
  exists out : MicroTask.t,
    normalize_entry idx t = Ok out
    /\ MicroTask.id out = idx + 1
    /\ trim (MicroTask.text out) = MicroTask.text out
    /\ (ToBoolean (field t "text") = false ->
        MicroTask.text out = lit "Untitled task")
    /\ num_leb (of_Z 10) (MicroTask.estimatedTime out) = true
    /\ num_leb (MicroTask.estimatedTime out) (of_Z 180) = true
    /\ In (MicroTask.priority out) [lit "high"; lit "medium"; lit "low"]
    /\ MicroTask.dependsOn out
       = match field t "dependsOn" with
         | Of (JArr items) => items
         | _ => []
         end.
Proof.
  intros Ht Htext Hmin.
  destruct (coercible_or_else _ (lit "Untitled task") Htext) as (text & Hs).
  destruct (coercible_ToNumber _ Hmin) as (n & Hn).
  exists (normalized_entry idx t text n).
  split; [now apply normalize_entry_ok|].
  split; [reflexivity|].
  split; [apply trim_idempotent|].
  split.
  { intros Hf. unfold or_else in Hs. rewrite Hf in Hs.
    injection Hs as <-. reflexivity. }
  split; [apply estimatedTime_bounds|].
  split; [apply estimatedTime_bounds|].
  split; [apply priority_enumerated | reflexivity].
Qed.

(** An instance: a number as text, at position 4. *)
Lemma normalize_entry_total_witness :
  exists out : MicroTask.t,
    normalize_entry 4 (JObj [(lit "text", JNum (of_Z 7))]) = Ok out
    /\ MicroTask.id out = 5
    /\ MicroTask.text out = lit "7".
Proof.
  destruct (normalize_entry_total 4 (JObj [(lit "text", JNum (of_Z 7))]))
    as (out & H & Hid & _).
  - discriminate.
  - exists (lit "7"). reflexivity.
  - exists (lit "undefined"). reflexivity.
  - exists out. split; [exact H|]. split; [exact Hid|].
    vm_compute in H. injection H as <-. reflexivity.
Defined.

(** C3, as stated, fails: a raw duration of 0 is numeric and lies
    outside [10, 180], yet the estimate is 30 and not the bound 10. *)
Lemma estimate_of_zero_is_30 :
  JSON_parse (lit "{" ++ quoted "estimatedTimeMinutes" ++ lit ":0}")
  = Ok a_zero_estimate
  /\ ToNumber (field a_zero_estimate "estimatedTimeMinutes")
     = Ok (S754_zero false)
  /\ clamp (S754_zero false) = of_Z 10
  /\ option_map MicroTask.estimatedTime
       (match normalize_entry 0 a_zero_estimate with
        | Ok out => Some out
        | Throw _ => None
        end) = Some (of_Z 30)
  /\ of_Z 30 <> of_Z 10.
Proof. by_evaluation. Qed.

(** C3, amended: the estimate is [Number(estimatedTimeMinutes)] brought
    into [10, 180] when that number is neither NaN nor zero, and 30 when
    it is NaN or zero. *)
Theorem normalize_entry_estimate (idx : nat) (t : json) :
  t <> JNull ->
  coercible (field t "text") ->
  coercible (field t "estimatedTimeMinutes") ->
  exists (out : MicroTask.t) (n : number),
    normalize_entry idx t = Ok out
    /\ ToNumber (field t "estimatedTimeMinutes") = Ok n
    /\ MicroTask.estimatedTime out
       = if is_nan n || is_zero n then of_Z 30
         else if num_ltb n (of_Z 10) then of_Z 10
         else if num_ltb (of_Z 180) n then of_Z 180
         else n.
Proof.
  intros Ht Htext Hmin.
  destruct (coercible_or_else _ (lit "Untitled task") Htext) as (text & Hs).
  destruct (coercible_ToNumber _ Hmin) as (n & Hn).
  exists (normalized_entry idx t text n), n.
  split; [now apply normalize_entry_ok|].
  split; [exact Hn|].
  apply estimatedTime_cases.
Qed.

(** An instance: 999 minutes, as a string. *)
Lemma normalize_entry_estimate_witness :
  exists out : MicroTask.t,
    normalize_entry 0 (JObj [(lit "estimatedTimeMinutes", JStr (lit "999"))])
    = Ok out
    /\ MicroTask.estimatedTime out = of_Z 180.
Proof.
  destruct (normalize_entry_estimate 0
              (JObj [(lit "estimatedTimeMinutes", JStr (lit "999"))]))
    as (out & n & H & Hn & He).
  - discriminate.
  - exists (lit "undefined"). reflexivity.
  - exists (lit "999"). reflexivity.
  - exists out. split; [exact H|].
    vm_compute in Hn. injection Hn as <-. exact He.
Defined.

(** *** The length of the normalized list (claim C6) *)

Lemma sequence_length {A} (l : list (result A)) (out : list A) :
  sequence l = Ok out -> List.length out = List.length l.
Proof.
  revert out; induction l as [|r l IH]; simpl; intros out H.
  - now injection H as <-.
  - destruct r as [a|e]; [|discriminate]. simpl in H.
    destruct (sequence l) as [l'|e]; [|discriminate]. simpl in H.
    injection H as <-. simpl. f_equal. now apply IH.
Qed.

Lemma map_from_length {A B} (g : nat -> A -> B) i l :
  List.length (map_from g i l) = List.length l.
Proof. revert i; induction l; simpl; auto. Qed.

Lemma sequence_map_from_total (i : nat) (l : list json) :
  Forall normalizable l ->
  exists out, sequence (map_from normalize_entry i l) = Ok out.
Proof.
  intros H. revert i. induction H as [|t l (Ht & Hx & Hn) _ IH]; intros i.
  - exists []. reflexivity.
  - destruct (coercible_or_else _ (lit "Untitled task") Hx) as (text & Hs).
    destruct (coercible_ToNumber _ Hn) as (n & Hnum).
    destruct (IH (S i)) as (out & Hout).
    exists (normalized_entry i t text n :: out). simpl.
    rewrite (normalize_entry_ok i t text n Ht Hs Hnum). simpl.
    now rewrite Hout.
Qed.

Lemma normalize_entry_id idx t out :
  normalize_entry idx t = Ok out -> MicroTask.id out = idx + 1.
Proof.
  unfold normalize_entry. intros H.
  repeat match type of H with
         | rbind ?r _ = Ok _ =>
           destruct r eqn:?; cbn [rbind] in H; [|discriminate]
         end.
  now injection H as <-.
Qed.

Lemma sequence_map_from_ids i l out :
  sequence (map_from normalize_entry i l) = Ok out ->
  forall k o, nth_error out k = Some o -> MicroTask.id o = i + k + 1.
Proof.
  revert i out; induction l as [|t l IH]; intros i out H k o Hk; simpl in H.
  - injection H as <-. destruct k; discriminate.
  - destruct (normalize_entry i t) as [o1|] eqn:E; [|discriminate].
    cbn [rbind] in H.
    destruct (sequence (map_from normalize_entry (S i) l)) as [rest|] eqn:R;
      [|discriminate].
    cbn [rbind] in H. injection H as <-.
    destruct k as [|k]; simpl in Hk.
    + injection Hk as <-. apply normalize_entry_id in E. lia.
    + rewrite (IH (S i) rest R k o Hk). lia.
Qed.

(** In the normalized list, [id] is the position, counted from 1. *)
Lemma normalize_ids parsed out :
  normalize parsed = Ok out ->
  forall k o, nth_error out k = Some o -> MicroTask.id o = k + 1.
Proof.
  unfold normalize, map_indexed. intros H k o Hk.
  now rewrite (sequence_map_from_ids 0 _ out H k o Hk).
Qed.

(** When no entry among the first 20 makes the normalizer throw, the
    normalized list has the length of the raw array, cut at 20. *)
Lemma normalize_length (parsed : value) :
  Forall normalizable (firstn 20 (microTasks_of parsed)) ->
  exists out,
    normalize parsed = Ok out
    /\ List.length out = Nat.min 20 (List.length (microTasks_of parsed)).
Proof.
  intros H. unfold normalize. fold (microTasks_of parsed).
  destruct (sequence_map_from_total 0 _ H) as (out & Hout).
  exists out. split; [exact Hout|].
  apply sequence_length in Hout. rewrite Hout.
  unfold map_indexed. rewrite map_from_length. apply length_firstn.
Qed.

(** C6 fails on the code: the model answers [{"microTasks":[null]}], an
    array of length 1; the normalizer throws on the [null] entry and the
    request ends in a 500 instead of a list of length 1. *)
Theorem normalize_throws_on_null_entry :
  JSON_parse a_null_entry = Ok (JObj [(lit "microTasks", JArr [JNull])])
  /\ List.length (microTasks_of (Of (JObj [(lit "microTasks", JArr [JNull])])))
     = 1
  /\ normalize (Of (JObj [(lit "microTasks", JArr [JNull])]))
     = Throw (TypeError (lit "Cannot read properties of null (reading 'text')"))
  /\ fst (handler api_research_breakdown an_environment (a_post "plan a party")
            {| answers := [None; Some (anthropic_reply a_null_entry)];
               log := [] |})
     = Ok (Reply 500
             (ErrorBody (lit "Cannot read properties of null (reading 'text')"))).
Proof. by_evaluation. Qed.

(** ** Validation (claim C1) *)

Lemma task_lookup (b : value) :
  ~ has_task b ->
  exists v, Get (or_else b (Of (JObj []))) (lit "task") = Ok v
            /\ forall c s, v <> Of (JStr (c :: s)).
Proof.
  intros H. destruct b as [|j|o n].
  - exists Undefined. split; [reflexivity | discriminate].
  - destruct j as [|b|x|s|items|props].
    + exists Undefined. split; [reflexivity | discriminate].
    + exists Undefined. split; [now destruct b | discriminate].
    + exists Undefined. split; [|discriminate].
      unfold or_else. now destruct (ToBoolean (Of (JNum x))).
    + exists Undefined. split; [now destruct s | discriminate].
    + exists Undefined. split; [reflexivity | discriminate].
    + unfold or_else. cbn [ToBoolean Get].
      destruct (own props (lit "task")) as [x|] eqn:E.
      * exists (Of x). split; [reflexivity|].
        intros c s [= ->]. apply H. exists props, (c :: s). now repeat split.
      * exists Undefined. split; [reflexivity | discriminate].
  - exists Undefined. split; [reflexivity | discriminate].
Qed.

(** C1: a method other than POST is answered 405, a POST without a
    non-empty string [task] is answered 400, and in both cases nothing
    is fetched: the world is left as it was. *)
Theorem handler_rejects (f : source_file) (env : environment) (req : Req.t)
        (w : world) :
  (Req.method req <> lit "POST" ->
   handler f env req w
   = (Ok (Reply 405 (ErrorBody (lit "Method not allowed"))), w))
  /\ (Req.method req = lit "POST" -> ~ has_task (Req.body req) ->
      handler f env req w
      = (Ok (Reply 400 (ErrorBody (lit "Missing 'task' in request body"))), w)).
Proof.
  unfold handler. split.
  - intros H. destruct (str_eqb (Req.method req) (lit "POST")) eqn:E.
    + apply str_eqb_eq in E. contradiction.
    + reflexivity.
  - intros Hm Hb. rewrite Hm, str_eqb_refl. cbn [negb].
    destruct (task_lookup _ Hb) as (v & Hv & Hne).
    unfold try_catch, bind, lift. rewrite Hv.
    destruct v as [|[| | |[|c s]| |]|]; try reflexivity.
    now destruct (Hne c s).
Qed.

(** An instance: a GET, and a POST with an empty object. *)
Lemma handler_rejects_witness :
  handler api_research_breakdown an_environment
          {| Req.method := lit "GET"; Req.body := Undefined |}
          {| answers := []; log := [] |}
  = (Ok (Reply 405 (ErrorBody (lit "Method not allowed"))),
     {| answers := []; log := [] |})
  /\ handler api_research_breakdown an_environment
             {| Req.method := lit "POST"; Req.body := Of (JObj []) |}
             {| answers := []; log := [] |}
     = (Ok (Reply 400 (ErrorBody (lit "Missing 'task' in request body"))),
        {| answers := []; log := [] |}).
Proof.
  split.
  - apply (proj1 (handler_rejects _ _ _ _)). discriminate.
  - apply (proj2 (handler_rejects _ _ _ _)); [reflexivity|].
    intros (props & s & H & Hown & _). injection H as <-. discriminate.
Defined.

(** ** Extraction of the JSON (claim C4) *)

(** C4, as stated, fails: when the fenced block is found and does not
    parse, the brace-delimited substring is not tried. *)
Lemma safeParseJson_stops_at_fence :
  match_first re_fence fenced_then_braces = Some (lit "```json
not json
```")
  /\ block_strategy re_braces fenced_then_braces
     = Some (JObj [(lit "microTasks", JArr [JObj []])])
  /\ extraction_as_specified fenced_then_braces
     = Of (JObj [(lit "microTasks", JArr [JObj []])])
  /\ safeParseJson (Of (JStr fenced_then_braces)) = Ok (Of JNull).
Proof. by_evaluation. Qed.

(** ** Running asynchronous code *)

Lemma bind_Ok {A B} (m : M A) (k : A -> M B) (w w' : world) (b : B) :
  bind m k w = (Ok b, w') ->
  exists a w1, m w = (Ok a, w1) /\ k a w1 = (Ok b, w').
Proof.
  unfold bind. destruct (m w) as [[a|e] w1]; [eauto | discriminate].
Qed.

Lemma lift_Ok {A} (r : result A) (w w' : world) (a : A) :
  lift r w = (Ok a, w') -> r = Ok a /\ w' = w.
Proof. unfold lift. now intros [= -> ->]. Qed.

Lemma ret_Ok {A} (x a : A) (w w' : world) :
  ret x w = (Ok a, w') -> a = x /\ w' = w.
Proof. unfold ret. now intros [= -> ->]. Qed.

Lemma join_first (sep b : str) (bs : list str) :
  exists rest, join sep (b :: bs) = b ++ rest.
Proof.
  destruct bs as [|b' bs]; simpl.
  - exists []. now rewrite app_nil_r.
  - eauto.
Qed.

(** ** The research provider (claims C5 and C7) *)

Lemma firstn_length_le {A} (n : nat) (l : list A) :
  List.length (firstn n l) <= n.
Proof. rewrite length_firstn. lia. Qed.

(** What the first [try] block returns has at most 8 entries. *)
Lemma serpapi_search_bound f apiKey task w results w1 :
  serpapi_search f apiKey task w = (Ok (Some results), w1) ->
  List.length results <= 8.
Proof.
  destruct f; unfold serpapi_search; intros H.
  - apply bind_Ok in H as (allResults & w0 & _ & H).
    destruct (uniqueResults allResults) as [|r l] eqn:E.
    + apply ret_Ok in H as [H _]. discriminate.
    + apply ret_Ok in H as [H _]. injection H as ->.
      exact (firstn_length_le 8 (r :: l)).
  - apply bind_Ok in H as (q & w0 & _ & H).
    apply bind_Ok in H as (res & w2 & _ & H).
    destruct (ok res).
    + apply bind_Ok in H as (data & w3 & _ & H).
      apply bind_Ok in H as (found & w4 & _ & H).
      apply bind_Ok in H as (rs & w5 & Hrs & H).
      apply lift_Ok in Hrs as [Hrs _].
      destruct rs as [|r rs']; apply ret_Ok in H as [H _]; [discriminate|].
      injection H as ->.
      destruct (or_else found (Of (JArr []))) as [|[| | | |items|]|];
        try discriminate.
      apply sequence_length in Hrs. rewrite Hrs, length_map.
      pose proof (firstn_length_le 5 items). lia.
    + apply ret_Ok in H as [H _]. discriminate.
Qed.

(** What the second [try] block returns has at most 3 entries. *)
Lemma wikipedia_search_bound task w results w1 :
  wikipedia_search task w = (Ok results, w1) -> List.length results <= 3.
Proof.
  unfold wikipedia_search. intros H.
  apply bind_Ok in H as (q & w0 & _ & H).
  apply bind_Ok in H as (res & w2 & _ & H).
  destruct (negb (ok res)).
  - apply ret_Ok in H as [-> _]. simpl. lia.
  - apply bind_Ok in H as (data & w3 & _ & H).
    apply bind_Ok in H as (query & w4 & _ & H).
    apply bind_Ok in H as (pages & w5 & _ & H).
    apply ret_Ok in H as [-> _]. apply firstn_length_le.
Qed.

Lemma fallback_total task w :
  exists results w', fallback task w = (Ok results, w')
                     /\ List.length results <= 3.
Proof.
  unfold fallback, try_catch.
  destruct (wikipedia_search task w) as [[results|e] w'] eqn:E.
  - exists results, w'. split; auto. eapply wikipedia_search_bound; eauto.
  - exists [], w'. split; [reflexivity | simpl; lia].
Qed.

(** [webSearch] never throws, and returns at most 8 results. *)
Lemma webSearch_total f env task w :
  exists results w',
    webSearch f env task w = (Ok results, w') /\ List.length results <= 8.
Proof.
  unfold webSearch. fold (fallback task).
  assert (Hprimary : forall (m : M (option (list SearchResult.t))) p w1,
             m w = (Ok p, w1) ->
             (forall r, p = Some r -> List.length r <= 8) ->
             exists results w',
               bind m (fun primary =>
                         match primary with
                         | Some results => ret results
                         | None => fallback task
                         end) w = (Ok results, w')
               /\ List.length results <= 8).
  { intros m p w1 Hm Hp. unfold bind. rewrite Hm. destruct p as [r|].
    - exists r, w1. split; [reflexivity | now apply Hp].
    - destruct (fallback_total task w1) as (results & w' & Hf & Hl).
      exists results, w'. split; [exact Hf | lia]. }
  destruct (SERPAPI_API_KEY env) as [apiKey|].
  - destruct (ToBoolean (Of (JStr apiKey))).
    + unfold try_catch at 1.
      destruct (serpapi_search f apiKey task w) as [[p|e] w1] eqn:E.
      * eapply Hprimary.
        -- unfold try_catch. rewrite E. reflexivity.
        -- intros r ->. eapply serpapi_search_bound; eauto.
      * eapply Hprimary.
        -- unfold try_catch. rewrite E. reflexivity.
        -- discriminate.
    + eapply Hprimary; [reflexivity | discriminate].
  - eapply Hprimary; [reflexivity | discriminate].
Qed.

(** A query answered with a status outside 200..299 adds nothing, and
    the loop goes on with the results it has. *)
Lemma search_each_skips_failed_status apiKey query more allResults q r rest lg :
  encodeURIComponent query = Ok q ->
  ok r = false ->
  search_each apiKey (query :: more) allResults
              {| answers := Some r :: rest; log := lg |}
  = search_each apiKey more allResults
                {| answers := rest;
                   log := lg ++ [GET (serpapi_url q (lit "3") apiKey)] |}.
Proof.
  intros Hq Hok. cbn [search_each]. unfold bind at 1, lift. rewrite Hq.
  unfold bind at 1, fetch. cbn [answers log tl]. now rewrite Hok.
Qed.

(** The three ways out of the multi-query phase. *)
Lemma webSearch_after_queries env task w apiKey :
  SERPAPI_API_KEY env = Some apiKey -> apiKey <> [] ->
  match search_each apiKey (searchQueries task) [] w with
  | (Throw _, w1) =>
    webSearch api_research_breakdown env task w = fallback task w1
  | (Ok allResults, w1) =>
    match uniqueResults allResults with
    | [] => webSearch api_research_breakdown env task w = fallback task w1
    | unique =>
      webSearch api_research_breakdown env task w = (Ok (firstn 8 unique), w1)
    end
  end.
Proof.
  intros Hkey Hne. unfold webSearch. fold (fallback task). rewrite Hkey.
  destruct apiKey as [|c k]; [congruence|]. cbn [ToBoolean].
  unfold serpapi_search, bind, try_catch.
  destruct (search_each (c :: k) (searchQueries task) [] w) as [[all|e] w1].
  - destruct (uniqueResults all); reflexivity.
  - reflexivity.
Qed.

Lemma webSearch_unconfigured f env task w :
  SERPAPI_API_KEY env = None \/ SERPAPI_API_KEY env = Some [] ->
  webSearch f env task w = fallback task w.
Proof.
  intros [H|H]; unfold webSearch; fold (fallback task); now rewrite H.
Qed.

(** *** Deduplication *)

Lemma uniqueResults_filter allResults :
  uniqueResults allResults = filter_from (is_first allResults) 0 allResults.
Proof. reflexivity. Qed.

Lemma findIndex_from_le {A} (p : nat -> A -> bool) s l i a :
  nth_error l i = Some a -> p (s + i) a = true ->
  exists k, findIndex_from p s l = Some k /\ k <= s + i.
Proof.
  revert s i; induction l as [|x l IH]; intros s i Hn Hp.
  - destruct i; discriminate.
  - simpl. destruct (p s x) eqn:E.
    + exists s. split; [reflexivity | lia].
    + destruct i as [|i].
      * simpl in Hn. injection Hn as ->.
        rewrite Nat.add_0_r in Hp. congruence.
      * simpl in Hn. destruct (IH (S s) i Hn) as (k & Hk & Hle).
        { now replace (S s + i) with (s + S i) by lia. }
        exists k. split; [exact Hk | lia].
Qed.

Lemma Forall_filter_from {A} (p : nat -> A -> bool) (Q : A -> Prop) s l :
  (forall j b, nth_error l j = Some b -> p (s + j) b = true -> Q b) ->
  Forall Q (filter_from p s l).
Proof.
  revert s; induction l as [|x l IH]; intros s H; simpl; [constructor|].
  assert (Hl : Forall Q (filter_from p (S s) l)).
  { apply IH. intros j b Hj Hp. apply (H (S j) b Hj).
    now replace (s + S j) with (S s + j) by lia. }
  destruct (p s x) eqn:E; auto.
  constructor; auto. apply (H 0 x eq_refl). now rewrite Nat.add_0_r.
Qed.

(** An entry after one with the same link is not the first with it. *)
Lemma is_first_excludes allResults i j a b :
  i < j ->
  nth_error allResults i = Some a ->
  same_link a b = true ->
  is_first allResults j b = false.
Proof.
  intros Hij Ha Hab. unfold is_first, findIndex.
  destruct (findIndex_from_le
              (fun j0 r => strict_equals (j0 =? j)%nat
                             (SearchResult.link r) (SearchResult.link b))
              0 allResults i a Ha) as (k & -> & Hk).
  - simpl. replace (i =? j)%nat with false; [exact Hab|].
    symmetry. apply Nat.eqb_neq. lia.
  - apply Nat.eqb_neq. simpl in Hk. lia.
Qed.

Lemma filter_from_distinct allResults pre l :
  allResults = pre ++ l ->
  distinct_links (filter_from (is_first allResults) (List.length pre) l).
Proof.
  revert pre; induction l as [|a r IH]; intros pre Hall; simpl; auto.
  assert (Hr : distinct_links
                 (filter_from (is_first allResults) (S (List.length pre)) r)).
  { replace (S (List.length pre)) with (List.length (pre ++ [a]))
      by (rewrite length_app; simpl; lia).
    apply IH. now rewrite <- app_assoc. }
  destruct (is_first allResults (List.length pre) a); auto.
  split; auto.
  apply Forall_filter_from. intros j b Hj Hp.
  destruct (same_link a b) eqn:E; auto.
  rewrite (is_first_excludes allResults (List.length pre)
             (S (List.length pre) + j) a b) in Hp; try discriminate; auto.
  - lia.
  - subst allResults. rewrite nth_error_app2 by lia.
    now rewrite Nat.sub_diag.
Qed.

(** The deduplicated results have distinct links. *)
Lemma uniqueResults_distinct allResults :
  distinct_links (uniqueResults allResults).
Proof.
  rewrite uniqueResults_filter.
  exact (filter_from_distinct allResults [] allResults eq_refl).
Qed.

Lemma Forall_firstn_of {A} (Q : A -> Prop) n l :
  Forall Q l -> Forall Q (firstn n l).
Proof.
  revert n; induction l as [|x l IH]; intros n H; destruct n; simpl;
    try constructor.
  - now inversion H.
  - apply IH. now inversion H.
Qed.

Lemma distinct_links_firstn n l :
  distinct_links l -> distinct_links (firstn n l).
Proof.
  revert n; induction l as [|x l IH]; intros n H; destruct n; simpl; auto.
  destruct H as [H1 H2]. split; auto. now apply Forall_firstn_of.
Qed.

Lemma findIndex_from_app {A} (p : nat -> A -> bool) s l1 l2 :
  findIndex_from p s (l1 ++ l2)
  = match findIndex_from p s l1 with
    | Some k => Some k
    | None => findIndex_from p (s + List.length l1) l2
    end.
Proof.
  revert s; induction l1 as [|x l1 IH]; intros s; simpl.
  - now rewrite Nat.add_0_r.
  - destruct (p s x); auto. rewrite IH.
    now replace (S s + List.length l1) with (s + S (List.length l1)) by lia.
Qed.

Lemma findIndex_from_range {A} (p : nat -> A -> bool) s l k :
  findIndex_from p s l = Some k -> s <= k < s + List.length l.
Proof.
  revert s; induction l as [|x l IH]; intros s; simpl; [discriminate|].
  destruct (p s x).
  - intros [= <-]. lia.
  - intros H. apply IH in H. lia.
Qed.

Lemma findIndex_from_existsb {A} (p : nat -> A -> bool) (q : A -> bool) s l :
  (forall j x, nth_error l j = Some x -> p (s + j) x = q x) ->
  existsb q l = match findIndex_from p s l with Some _ => true | None => false end.
Proof.
  revert s; induction l as [|x l IH]; intros s H; simpl; auto.
  rewrite <- (H 0 x eq_refl), Nat.add_0_r.
  destruct (p s x); auto. simpl. apply IH.
  intros j y Hj. rewrite <- (H (S j) y Hj). f_equal. lia.
Qed.

Lemma filter_from_app {A} (p : nat -> A -> bool) s l1 l2 :
  filter_from p s (l1 ++ l2)
  = filter_from p s l1 ++ filter_from p (s + List.length l1) l2.
Proof.
  revert s; induction l1 as [|x l1 IH]; intros s; simpl.
  - now rewrite Nat.add_0_r.
  - rewrite IH.
    replace (S s + List.length l1) with (s + S (List.length l1)) by lia.
    now destruct (p s x).
Qed.

Lemma filter_from_ext {A} (p p' : nat -> A -> bool) s l :
  (forall j x, nth_error l j = Some x -> p (s + j) x = p' (s + j) x) ->
  filter_from p s l = filter_from p' s l.
Proof.
  revert s; induction l as [|x l IH]; intros s H; simpl; auto.
  rewrite <- (IH (S s)).
  - specialize (H 0 x eq_refl). rewrite Nat.add_0_r in H. now rewrite H.
  - intros j y Hj. specialize (H (S j) y Hj).
    now replace (s + S j) with (S s + j) in H by lia.
Qed.

(** Appending a result leaves the earlier decisions as they were. *)
Lemma is_first_before allResults r j b :
  j < List.length allResults ->
  is_first (allResults ++ [r]) j b = is_first allResults j b.
Proof.
  intros Hj. unfold is_first, findIndex. rewrite findIndex_from_app.
  destruct (findIndex_from _ 0 allResults) as [k|]; auto.
  simpl. destruct (strict_equals _ _ _); auto.
  apply Nat.eqb_neq. lia.
Qed.

(** The appended result is kept when no earlier one has its link. *)
Lemma is_first_last allResults r :
  is_first (allResults ++ [r]) (List.length allResults) r
  = if existsb (fun r' => same_link r' r) allResults then false
    else strict_equals true (SearchResult.link r) (SearchResult.link r).
Proof.
  unfold is_first, findIndex. rewrite findIndex_from_app.
  rewrite (findIndex_from_existsb
             (fun j r' => strict_equals (j =? List.length allResults)%nat
                            (SearchResult.link r') (SearchResult.link r))
             (fun r' => same_link r' r) 0 allResults).
  - destruct (findIndex_from _ 0 allResults) as [k|] eqn:E.
    + apply findIndex_from_range in E. apply Nat.eqb_neq. lia.
    + simpl. rewrite Nat.eqb_refl.
      destruct (strict_equals true _ _); auto. apply Nat.eqb_refl.
  - intros j x Hj. unfold same_link.
    replace (0 + j =? List.length allResults)%nat with false; auto.
    symmetry. apply Nat.eqb_neq.
    assert (j < List.length allResults) by (apply nth_error_Some; congruence).
    lia.
Qed.

(** First occurrence wins: going through the results in order, a result
    is kept exactly when no result before it has the same link. *)
Lemma uniqueResults_snoc allResults r :
  uniqueResults (allResults ++ [r])
  = uniqueResults allResults
    ++ (if existsb (fun r' => same_link r' r) allResults then []
        else if strict_equals true (SearchResult.link r) (SearchResult.link r)
             then [r] else []).
Proof.
  rewrite !uniqueResults_filter, filter_from_app. f_equal.
  - apply filter_from_ext. intros j x Hj. apply is_first_before.
    apply nth_error_Some. simpl. congruence.
  - simpl. rewrite is_first_last.
    destruct (existsb _ allResults); auto.
Qed.

Lemma Bool_eqb_sym (a b : bool) : Bool.eqb a b = Bool.eqb b a.
Proof. now destruct a, b. Qed.

Lemma str_eqb_sym (a b : str) : str_eqb a b = str_eqb b a.
Proof.
  revert b; induction a as [|x a IH]; intros [|y b]; simpl; auto.
  unfold char_eqb. now rewrite N.eqb_sym, IH.
Qed.

Lemma num_eqb_sym (x y : number) : num_eqb x y = num_eqb y x.
Proof.
  unfold num_eqb, SFeqb. rewrite (SFcompare_antisym x y).
  now destruct (SFcompare y x) as [[]|].
Qed.

Lemma strict_equals_sym same (a b : value) :
  strict_equals same a b = strict_equals same b a.
Proof.
  destruct a as [|[]|], b as [|[]|]; simpl; auto.
  - apply Bool_eqb_sym.
  - apply num_eqb_sym.
  - apply str_eqb_sym.
  - now rewrite (String.eqb_sym owner), (String.eqb_sym name).
Qed.

Lemma same_link_sym a b : same_link a b = same_link b a.
Proof. apply strict_equals_sym. Qed.

Lemma distinct_links_nth l :
  distinct_links l ->
  forall i j a b,
    i <> j -> nth_error l i = Some a -> nth_error l j = Some b ->
    same_link a b = false.
Proof.
  induction l as [|x l IH].
  - intros _ i j a b _ Ha. destruct i; discriminate.
  - intros [H1 H2] i j a b Hij Ha Hb. rewrite Forall_forall in H1.
    destruct i as [|i], j as [|j]; simpl in Ha, Hb.
    + congruence.
    + injection Ha as <-. apply H1. eapply nth_error_In; eauto.
    + injection Hb as <-. rewrite same_link_sym. apply H1.
      eapply nth_error_In; eauto.
    + apply (IH H2 i j); auto.
Qed.

(** *** The error policy and the results *)

(** C5, as stated, fails: the first query succeeds with one result, the
    second one meets a network failure; the three remaining queries are
    never issued, the result of the first is dropped, and the fallback is
    taken (here it fails as well). *)
Lemma webSearch_gives_up_on_first_error :
  fst (search_each (lit "serp-key") [lit "plan step by step guide 2024"] []
                   a_failure_after_a_result)
  = Ok [result_of "Guide" "https://example.org/guide" empty]
  /\ fst (webSearch api_research_breakdown a_configured_environment
                    (lit "plan") a_failure_after_a_result)
     = Ok []
  /\ log (snd (webSearch api_research_breakdown a_configured_environment
                         (lit "plan") a_failure_after_a_result))
     = [GET (serpapi_url (lit "plan%20step%20by%20step%20guide%202024")
                         (lit "3") (lit "serp-key"));
        GET (serpapi_url (lit "plan%20best%20practices%20tutorial")
                         (lit "3") (lit "serp-key"));
        GET (wikipedia_url (lit "plan"))].
Proof. by_evaluation. Qed.

(** C7, as stated, fails: the results of the fallback are not
    deduplicated, and neither are those of the single query of the
    earlier copy. *)
Lemma webSearch_returns_duplicate_links :
  fst (webSearch api_research_breakdown an_environment (lit "party")
         {| answers := [Some (wikipedia_reply [hit "Party" "a"; hit "Party" "b"])];
            log := [] |})
  = Ok [result_of "Party" "https://en.wikipedia.org/wiki/Party" "a";
        result_of "Party" "https://en.wikipedia.org/wiki/Party" "b"]
  /\ same_link (result_of "Party" "https://en.wikipedia.org/wiki/Party" "a")
               (result_of "Party" "https://en.wikipedia.org/wiki/Party" "b")
     = true
  /\ fst (webSearch unnamed_part_000 a_configured_environment (lit "party")
            {| answers := [Some (serpapi_reply [organic "One" "https://example.org/";
                                                organic "Two" "https://example.org/"])];
               log := [] |})
     = Ok [result_of "One" "https://example.org/" empty;
           result_of "Two" "https://example.org/" empty].
Proof. by_evaluation. Qed.

(** C7, amended: the provider returns, without throwing, at most 8
    results.  In [api/research-breakdown.js], when they come from the
    search provider they are the first 8 deduplicated results: no two of
    them have [===] links, and going through the raw results in the
    order the queries were issued, a result is kept exactly when no
    earlier one has its link. *)
Theorem webSearch_results (env : environment) (task : str) (w : world) :
  (forall f, exists results w',
      webSearch f env task w = (Ok results, w')
      /\ List.length results <= 8)
  /\ (forall apiKey allResults w1,
        SERPAPI_API_KEY env = Some apiKey -> apiKey <> [] ->
        search_each apiKey (searchQueries task) [] w = (Ok allResults, w1) ->
        uniqueResults allResults <> [] ->
        webSearch api_research_breakdown env task w
        = (Ok (firstn 8 (uniqueResults allResults)), w1)
        /\ forall i j a b,
             i <> j ->
             nth_error (firstn 8 (uniqueResults allResults)) i = Some a ->
             nth_error (firstn 8 (uniqueResults allResults)) j = Some b ->
             same_link a b = false)
  /\ (forall allResults r,
        uniqueResults (allResults ++ [r])
        = uniqueResults allResults
          ++ (if existsb (fun r' => same_link r' r) allResults then []
              else if strict_equals true (SearchResult.link r)
                                    (SearchResult.link r)
                   then [r] else [])).
Proof.
  split; [|split].
  - intros f. apply webSearch_total.
  - intros apiKey allResults w1 Hkey Hne Hall Hu. split.
    + pose proof (webSearch_after_queries env task w apiKey Hkey Hne) as H.
      rewrite Hall in H. destruct (uniqueResults allResults); congruence.
    + apply distinct_links_nth, distinct_links_firstn, uniqueResults_distinct.
  - apply uniqueResults_snoc.
Qed.

(** An instance: of two results with the same link, the first stays. *)
Lemma webSearch_results_witness :
  fst (webSearch api_research_breakdown a_configured_environment (lit "plan")
         repeated_links)
  = Ok [result_of "A" "https://a.example/" empty;
        result_of "B" "https://b.example/" empty;
        result_of "C" "https://c.example/" empty].
Proof.
  destruct (proj1 (proj2 (webSearch_results a_configured_environment
                            (lit "plan") repeated_links))
              (lit "serp-key")
              [result_of "A" "https://a.example/" empty;
               result_of "B" "https://b.example/" empty;
               result_of "A again" "https://a.example/" empty;
               result_of "C" "https://c.example/" empty;
               result_of "B again" "https://b.example/" empty]
              (snd (search_each (lit "serp-key") (searchQueries (lit "plan"))
                                [] repeated_links)))
    as [H _].
  - reflexivity.
  - discriminate.
  - vm_compute. reflexivity.
  - vm_compute. discriminate.
  - rewrite H. vm_compute. reflexivity.
Defined.

(** *** A request that succeeds *)

Lemma a_successful_run_reply :
  fst a_successful_run = Ok (Reply 200 the_breakdown).
Proof. by_evaluation. Qed.

(** The request fails when the model's server does, with its status in
    the message; it succeeds without sources when only the research
    fails. *)
Example completion_failure_is_fatal :
  fst (handler api_research_breakdown an_environment (a_post "plan a party")
         {| answers := [None; Some server_error]; log := [] |})
  = Ok (Reply 500 (ErrorBody (lit "Anthropic error: 500 oops"))).
Proof. by_evaluation. Qed.

Example research_failure_is_not :
  fst (handler api_research_breakdown an_environment (a_post "plan a party")
         {| answers := [None;
                        Some (anthropic_reply
                                (lit "{" ++ quoted "microTasks" ++ lit ":[]}"))];
            log := [] |})
  = Ok (Reply 200 (Breakdown [] [] false)).
Proof. by_evaluation. Qed.

(** ** The page fetcher *)

Lemma In_of_firstn {A} (x : A) n l : In x (firstn n l) -> In x l.
Proof.
  revert l; induction n as [|n IH]; intros [|a l]; simpl; try tauto.
  intros [E|E]; auto.
Qed.

(** A prefix of a text without tag has no tag. *)
Lemma firstn_no_tag n s :
  has_match re_tag s = false -> has_match re_tag (firstn n s) = false.
Proof.
  revert s; induction n as [|n IH]; intros s H; [reflexivity|].
  destruct s as [|c r]; [reflexivity|].
  apply has_match_false_cons in H as [H1 H2].
  change (firstn (S n) (c :: r)) with (c :: firstn n r).
  apply has_match_false_cons. split; [|now apply IH].
  destruct n as [|n]; [reflexivity|].
  revert H1. apply re_tag_None_preserved.
  - now intros ->.
  - intros x ->. simpl. eauto.
  - apply In_of_firstn.
Qed.

(** A prefix of a text without run of white space has none. *)
Lemma has_ws_run_cons c d r :
  has_ws_run (c :: d :: r) = is_ws c && is_ws d || has_ws_run (d :: r).
Proof. reflexivity. Qed.

Lemma firstn_no_ws_run n s :
  has_ws_run s = false -> has_ws_run (firstn n s) = false.
Proof.
  revert s; induction n as [|n IH]; intros s H; [reflexivity|].
  destruct s as [|c r]; [reflexivity|].
  change (firstn (S n) (c :: r)) with (c :: firstn n r).
  destruct r as [|d r']; [now destruct n|].
  rewrite has_ws_run_cons in H. apply orb_false_iff in H as [H1 H2].
  specialize (IH _ H2).
  destruct n as [|n]; [reflexivity|].
  change (firstn (S n) (d :: r')) with (d :: firstn n r') in *.
  rewrite has_ws_run_cons. now rewrite H1, IH.
Qed.

Lemma stripped_sanitized n s :
  sanitized_within n (firstn n (match s with [] => [] | _ => stripped s end)).
Proof.
  split; [apply firstn_length_le|]. split.
  - apply firstn_no_tag. destruct s; [reflexivity | apply stripped_no_tag].
  - apply firstn_no_ws_run. destruct s; [reflexivity|].
    apply ws_normal_no_run, stripped_normal.
Qed.

(** One turn of the loop: one request, whatever its outcome, and no
    exception. *)
Lemma fetch_page_caught r w :
  exists page,
    try_catch (fetch_page r) (fun _ => ret None) w
    = (Ok page,
       {| answers := tl (answers w);
          log := log w ++ [GET_follow (SearchResult.link r)] |})
    /\ match page with
       | Some p => page_from r p /\ sanitized_within 10000 (Page.text p)
       | None => True
       end.
Proof.
  unfold try_catch, fetch_page, bind, fetch.
  destruct (answers w) as [|[resp|] rest]; cbn [tl].
  - now exists None.
  - destruct (ok resp); cbn [negb].
    + unfold text_of, lift, ret. rewrite stripHtml_string.
      exists (Some {| Page.title := SearchResult.title r;
                      Page.url := SearchResult.link r;
                      Page.text :=
                        firstn 10000 (match body resp with
                                      | [] => []
                                      | _ => stripped (body resp)
                                      end) |}).
      split; [reflexivity|]. split; [split; reflexivity|].
      cbn [Page.text]. apply stripped_sanitized.
    + now exists None.
  - now exists None.
Qed.

Lemma fetch_each_spec results : forall pages w,
  exists more,
    fetch_each results pages w
    = (Ok (pages ++ more),
       {| answers := skipn (List.length results) (answers w);
          log := log w ++ page_requests results |})
    /\ List.length more <= List.length results
    /\ Forall (fetched_from results) more.
Proof.
  induction results as [|r results IH]; intros pages w.
  - exists []. destruct w as [a l]. simpl. unfold ret.
    rewrite !app_nil_r. auto.
  - cbn [fetch_each]. unfold bind at 1.
    destruct (fetch_page_caught r w) as (page & -> & Hpage).
    assert (Hmono : forall p, fetched_from results p ->
                              fetched_from (r :: results) p).
    { intros p [(r' & Hin & Hp) Hs]. split; auto. exists r'. split; auto.
      now right. }
    destruct page as [p|].
    + destruct (IH (pages ++ [p])
                  {| answers := tl (answers w);
                     log := log w ++ [GET_follow (SearchResult.link r)] |})
        as (more & -> & Hlen & Hall).
      exists (p :: more). cbn [answers log]. split; [|split].
      * rewrite <- !app_assoc. simpl.
        destruct (answers w); simpl; [now rewrite skipn_nil | reflexivity].
      * simpl. lia.
      * constructor.
        -- destruct Hpage as [H1 H2]. split; auto.
           exists r. split; auto. now left.
        -- eapply Forall_impl; [apply Hmono | exact Hall].
    + destruct (IH pages
                  {| answers := tl (answers w);
                     log := log w ++ [GET_follow (SearchResult.link r)] |})
        as (more & -> & Hlen & Hall).
      exists more. cbn [answers log]. split; [|split].
      * rewrite <- !app_assoc. simpl.
        destruct (answers w); simpl; [now rewrite skipn_nil | reflexivity].
      * simpl. lia.
      * eapply Forall_impl; [apply Hmono | exact Hall].
Qed.

(** The pages found so far play no part in the rest of the loop. *)
Lemma fetch_each_acc results : forall pages w,
  fetch_each results pages w
  = (more <- fetch_each results [] ;; ret (pages ++ more)) w.
Proof.
  induction results as [|r results IH]; intros pages w.
  - unfold bind. simpl. unfold ret. now rewrite app_nil_r.
  - cbn [fetch_each]. unfold bind at 1 2 3.
    destruct (try_catch (fetch_page r) (fun _ => ret None) w)
      as [[[p|]|e] w1]; [| |reflexivity].
    + rewrite (IH (pages ++ [p]) w1), (IH ([] ++ [p]) w1).
      unfold bind. destruct (fetch_each results [] w1) as [[m|e] w2];
        [|reflexivity].
      unfold ret. now rewrite <- app_assoc.
    + rewrite (IH pages w1). reflexivity.
Qed.

Lemma fetch_each_app rs1 rs2 : forall pages w,
  fetch_each (rs1 ++ rs2) pages w
  = (found <- fetch_each rs1 pages ;; fetch_each rs2 found) w.
Proof.
  induction rs1 as [|r rs1 IH]; intros pages w; [reflexivity|].
  cbn [app fetch_each]. unfold bind at 1 2 3.
  destruct (try_catch (fetch_page r) (fun _ => ret None) w) as [[[p|]|e] w1];
    try reflexivity; apply IH.
Qed.


(** X2. Every page [fetchPages] returns carries the title and the link
    of one of the results, and its text is sanitized and cut: at most
    10000 code units, no tag, no run of white space. *)
Theorem fetchPages_pages (results : list SearchResult.t) (w : world) :
  exists pages w',
    fetchPages results w = (Ok pages, w')
    /\ Forall (fetched_from results) pages.
Proof.
  unfold fetchPages.
  destruct (fetch_each_spec results [] w) as (more & E & _ & Hall).
  exists more. eexists. split; [exact E | exact Hall].
Qed.

(** X3. The results are handled one after the other and independently:
    fetching the pages of [rs1 ++ rs2] is fetching those of [rs1], then
    those of [rs2] in the world this leaves, and the pages come in the
    order of the results.  A result whose request fails costs its own
    page only. *)
Theorem fetchPages_app (rs1 rs2 : list SearchResult.t) (w : world) :
  fetchPages (rs1 ++ rs2) w
  = (pages1 <- fetchPages rs1 ;;
     pages2 <- fetchPages rs2 ;;
     ret (pages1 ++ pages2)) w.
Proof.
  unfold fetchPages. rewrite fetch_each_app.
  unfold bind at 1 2.
  destruct (fetch_each rs1 [] w) as [[pages1|e] w1]; [|reflexivity].
  apply fetch_each_acc.
Qed.

(** ** The prompt *)

Lemma source_block_clipped i p : source_block i (clipped p) = source_block i p.
Proof.
  unfold source_block, clipped. cbn [Page.title Page.url Page.text].
  now rewrite firstn_firstn, Nat.min_id.
Qed.

Lemma map_from_clipped i l :
  map_from source_block i (map clipped l) = map_from source_block i l.
Proof.
  revert i; induction l as [|p l IH]; intros i; [reflexivity|].
  cbn [map map_from]. now rewrite source_block_clipped, IH.
Qed.

Lemma source_block_printable i p :
  (exists b, source_block i p = Ok b) <-> printable p.
Proof.
  unfold source_block, printable, coercible.
  destruct (ToString (Page.title p)) as [t|e]; cbn [rbind].
  - destruct (ToString (Page.url p)) as [u|e]; cbn [rbind].
    + split; eauto.
    + split; [intros (b & H) | intros (_ & b & H)]; discriminate.
  - split; [intros (b & H) | intros ((b & H) & _)]; discriminate.
Qed.

Lemma sequence_Ok {A} (l : list (result A)) :
  (exists out, sequence l = Ok out) <-> Forall (fun r => exists a, r = Ok a) l.
Proof.
  induction l as [|r l IH]; cbn [sequence].
  - split; eauto.
  - split.
    + intros (out & H). destruct r as [a|e]; [|discriminate].
      cbn [rbind] in H.
      destruct (sequence l) as [l'|e]; [|discriminate].
      constructor; [eauto | apply IH; eauto].
    + intros H. inversion H as [|? ? (a & ->) Hl]; subst.
      apply IH in Hl as (out & ->). cbn [rbind]. eauto.
Qed.

Lemma blocks_printable i l :
  (exists bs, sequence (map_from source_block i l) = Ok bs)
  <-> Forall printable l.
Proof.
  rewrite sequence_Ok. revert i; induction l as [|p l IH]; intros i.
  - cbn [map_from]. split; constructor.
  - cbn [map_from]. split; intros H; inversion H; subst; constructor.
    + now apply (source_block_printable i).
    + now apply (IH (S i)).
    + now apply source_block_printable.
    + now apply IH.
Qed.

Lemma Ok_inj {A} (a b : A) : Ok a = Ok b -> a = b.
Proof. now intros [=]. Qed.

Lemma first_block i p l bs :
  sequence (map_from source_block i (p :: l)) = Ok bs ->
  exists rest,
    join [10%N; 10%N] bs = lit "Source " ++ Z_digits (Z.of_nat i + 1) ++ rest.
Proof.
  cbn [map_from sequence]. unfold source_block at 1.
  destruct (ToString (Page.title p)) as [t|]; [|discriminate].
  destruct (ToString (Page.url p)) as [u|]; [|discriminate].
  cbn [rbind].
  destruct (sequence (map_from source_block (S i) l)) as [bs'|];
    [|discriminate].
  cbn [rbind]. intros H. apply Ok_inj in H. subst bs.
  match goal with |- context [join ?sep (?b :: bs')] =>
    destruct (join_first sep b bs') as (rest & ->) end.
  rewrite <- !app_assoc. eauto.
Qed.

(** X4. The prompt depends on the pages through the first three only,
    and on their texts through the first 2500 code units only. *)
Theorem buildPrompt_uses (f : source_file) (task : str) (pages : list Page.t) :
  buildPrompt f task pages
  = buildPrompt f task (map clipped (firstn 3 pages)).
Proof.
  unfold buildPrompt. f_equal.
  destruct pages as [|p pages]; [reflexivity|].
  assert (E : forall q l,
             prompt_context (q :: l)
             = rbind (sequence (map_from source_block 0 (firstn 3 (q :: l))))
                     (fun blocks => Ok (join [10%N; 10%N] blocks)))
    by reflexivity.
  rewrite E.
  assert (F : map clipped (firstn 3 (p :: pages))
              = clipped p :: map clipped (firstn 2 pages)) by reflexivity.
  rewrite F, E, <- F.
  now rewrite firstn_map, firstn_firstn, Nat.min_id, map_from_clipped.
Qed.

(** X5. A prompt is the fixed opening, the task as it was received, the
    fixed middle part, the context and the fixed closing part.  The
    context is the placeholder when there is no page, and starts with
    the first page's block otherwise. *)
Theorem buildPrompt_shape (f : source_file) (task : str)
        (pages : list Page.t) (prompt : str) :
  buildPrompt f task pages = Ok prompt ->
  exists context,
    prompt = prompt_head f ++ task ++ prompt_middle f ++ context
             ++ prompt_tail f
    /\ match pages with
       | [] => context = lit "(no web context provided)"
       | _ => exists rest, context = lit "Source 1" ++ rest
       end.
Proof.
  unfold buildPrompt. destruct pages as [|p pages].
  - cbn [prompt_context rbind]. intros H. apply Ok_inj in H. subst prompt.
    exists no_context. now split.
  - unfold prompt_context, map_indexed.
    destruct (sequence (map_from source_block 0 (firstn 3 (p :: pages))))
      as [bs|] eqn:E; [|discriminate].
    change (firstn 3 (p :: pages)) with (p :: firstn 2 pages) in E.
    apply first_block in E as (rest & E).
    cbn [rbind]. rewrite E.
    change (lit "Source " ++ Z_digits (Z.of_nat 0 + 1) ++ rest)
      with (83%N :: lit "ource 1" ++ rest).
    intros H. apply Ok_inj in H. subst prompt.
    eexists. split; [reflexivity|].
    exists rest. reflexivity.
Qed.

Lemma buildPrompt_shape_witness :
  exists context,
    buildPrompt api_research_breakdown (lit "plan a party") []
    = Ok (prompt_head api_research_breakdown ++ lit "plan a party"
          ++ prompt_middle api_research_breakdown ++ context
          ++ prompt_tail api_research_breakdown)
    /\ context = lit "(no web context provided)".
Proof.
  destruct (buildPrompt_shape api_research_breakdown (lit "plan a party") []
              _ eq_refl) as (context & H1 & H2).
  exists context. split; [|exact H2].
  rewrite <- H1. reflexivity.
Defined.

(** Pages that can be printed give a prompt. *)
Lemma prompt_of_printable f task pages :
  Forall printable (firstn 3 pages) ->
  exists prompt, buildPrompt f task pages = Ok prompt.
Proof.
  intros H. unfold buildPrompt. destruct pages as [|p pages].
  - cbn [prompt_context rbind]. eauto.
  - unfold prompt_context, map_indexed.
    apply (blocks_printable 0) in H as (bs & ->). cbn [rbind]. eauto.
Qed.

(** X6. [buildPrompt] returns, and does not throw, exactly when the title
    and the url of each of the first three pages can be converted to a
    string. *)
Theorem buildPrompt_returns (f : source_file) (task : str)
        (pages : list Page.t) :
  (exists prompt, buildPrompt f task pages = Ok prompt)
  <-> Forall printable (firstn 3 pages).
Proof.
  unfold buildPrompt. destruct pages as [|p pages].
  - cbn [prompt_context rbind firstn]. split; eauto.
  - unfold prompt_context, map_indexed.
    rewrite <- (blocks_printable 0).
    destruct (sequence (map_from source_block 0 (firstn 3 (p :: pages))))
      as [bs|e]; cbn [rbind].
    + split; eauto.
    + split; intros (x & H); discriminate.
Qed.

(** ** The requests of one invocation *)

Section Reads.

Context {A B : Type}.

Lemma reads_ret (a : A) : reads_at_most 0 (ret a).
Proof. intros w. exists []. now rewrite app_nil_r. Qed.

Lemma reads_lift (r : result A) : reads_at_most 0 (lift r).
Proof. intros w. exists []. now rewrite app_nil_r. Qed.

Lemma reads_le (n p : nat) (m : M A) :
  n <= p -> reads_at_most n m -> reads_at_most p m.
Proof.
  intros Hle H w. destruct (H w) as (extra & E & Hlen & Hget).
  exists extra. repeat split; auto. lia.
Qed.

Lemma reads_bind (n p : nat) (m : M A) (k : A -> M B) :
  reads_at_most n m -> (forall a, reads_at_most p (k a)) ->
  reads_at_most (n + p) (bind m k).
Proof.
  intros Hm Hk w. unfold bind.
  destruct (Hm w) as (e1 & E1 & L1 & G1).
  destruct (m w) as [[a|e] w1]; cbn [snd] in E1.
  - destruct (Hk a w1) as (e2 & E2 & L2 & G2).
    exists (e1 ++ e2). rewrite E2, E1, <- app_assoc, length_app, forallb_app.
    repeat split; auto; [lia | now rewrite G1, G2].
  - exists e1. cbn [snd]. repeat split; auto. lia.
Qed.

Lemma reads_try_catch (n p : nat) (m : M A) (h : exn -> M A) :
  reads_at_most n m -> (forall e, reads_at_most p (h e)) ->
  reads_at_most (n + p) (try_catch m h).
Proof.
  intros Hm Hh w. unfold try_catch.
  destruct (Hm w) as (e1 & E1 & L1 & G1).
  destruct (m w) as [[a|e] w1]; cbn [snd] in E1.
  - exists e1. cbn [snd]. repeat split; auto. lia.
  - destruct (Hh e w1) as (e2 & E2 & L2 & G2).
    exists (e1 ++ e2). rewrite E2, E1, <- app_assoc, length_app, forallb_app.
    repeat split; auto; [lia | now rewrite G1, G2].
Qed.

End Reads.

Lemma reads_fetch (rq : request) :
  is_get rq = true -> reads_at_most 1 (fetch rq).
Proof.
  intros Hrq w. exists [rq]. unfold fetch.
  destruct (answers w) as [|[r|] rest]; cbn [snd log forallb];
    rewrite Hrq; auto.
Qed.

(** The loop over the queries makes at most one request per query. *)
Lemma reads_search_each apiKey queries : forall allResults,
  reads_at_most (List.length queries) (search_each apiKey queries allResults).
Proof.
  induction queries as [|query more IH]; intros allResults.
  - apply reads_ret.
  - cbn [search_each List.length].
    apply (reads_bind 0 (S (List.length more))); [apply reads_lift|].
    intros q.
    apply (reads_bind 1 (List.length more)); [now apply reads_fetch|].
    intros res. destruct (ok res); [|apply IH].
    apply (reads_bind 0 (List.length more)); [apply reads_lift|]. intros data.
    apply (reads_bind 0 (List.length more)); [apply reads_lift|]. intros found.
    apply (reads_bind 0 (List.length more)); [apply reads_lift|]. intros rs.
    apply IH.
Qed.

Lemma reads_serpapi_search f apiKey task :
  reads_at_most (match f with
                 | api_research_breakdown => 5
                 | unnamed_part_000 => 1
                 end)
                (serpapi_search f apiKey task).
Proof.
  destruct f; unfold serpapi_search.
  - apply (reads_bind 5 0); [apply (reads_search_each apiKey (searchQueries task))|].
    intros allResults. destruct (uniqueResults allResults); apply reads_ret.
  - apply (reads_bind 0 1); [apply reads_lift|]. intros q.
    apply (reads_bind 1 0); [now apply reads_fetch|]. intros res.
    destruct (ok res); [|apply reads_ret].
    apply (reads_bind 0 0); [apply reads_lift|]. intros data.
    apply (reads_bind 0 0); [apply reads_lift|]. intros found.
    apply (reads_bind 0 0); [apply reads_lift|]. intros rs.
    destruct rs; apply reads_ret.
Qed.

Lemma reads_fallback task : reads_at_most 1 (fallback task).
Proof.
  unfold fallback.
  apply (reads_try_catch 1 0); [|intros e; apply reads_ret].
  unfold wikipedia_search.
  apply (reads_bind 0 1); [apply reads_lift|]. intros q.
  apply (reads_bind 1 0); [now apply reads_fetch|]. intros res.
  destruct (negb (ok res)); [apply reads_ret|].
  apply (reads_bind 0 0); [apply reads_lift|]. intros data.
  apply (reads_bind 0 0); [apply reads_lift|]. intros query.
  apply (reads_bind 0 0); [apply reads_lift|]. intros pages.
  apply reads_ret.
Qed.

(** What the first [try] block returns, by file. *)
Lemma serpapi_search_most f apiKey task w results w1 :
  serpapi_search f apiKey task w = (Ok (Some results), w1) ->
  List.length results <= most_results f.
Proof.
  destruct f; [apply serpapi_search_bound|].
  unfold serpapi_search; intros H.
  apply bind_Ok in H as (q & w0 & _ & H).
  apply bind_Ok in H as (res & w2 & _ & H).
  destruct (ok res).
  - apply bind_Ok in H as (data & w3 & _ & H).
    apply bind_Ok in H as (found & w4 & _ & H).
    apply bind_Ok in H as (rs & w5 & Hrs & H).
    apply lift_Ok in Hrs as [Hrs _].
    destruct rs as [|r rs']; apply ret_Ok in H as [H _]; [discriminate|].
    injection H as ->.
    destruct (or_else found (Of (JArr []))) as [|[| | | |items|]|];
      try discriminate.
    apply sequence_length in Hrs. rewrite Hrs, length_map.
    apply firstn_length_le.
  - apply ret_Ok in H as [H _]. discriminate.
Qed.

(** The research in numbers: the more requests, the fewer results. *)
Lemma webSearch_cost f env task w :
  exists results w' extra,
    webSearch f env task w = (Ok results, w')
    /\ log w' = log w ++ extra
    /\ forallb is_get extra = true
    /\ List.length extra + List.length results <= most_reads f.
Proof.
  assert (Hfb : forall w0 e0,
             log w0 = log w ++ e0 -> forallb is_get e0 = true ->
             List.length e0 + 4 <= most_reads f ->
             exists results w' extra,
               fallback task w0 = (Ok results, w')
               /\ log w' = log w ++ extra
               /\ forallb is_get extra = true
               /\ List.length extra + List.length results <= most_reads f).
  { intros w0 e0 E0 G0 L0.
    destruct (fallback_total task w0) as (results & w' & E & Hlen).
    destruct (reads_fallback task w0) as (e1 & E1 & L1 & G1).
    rewrite E in E1. cbn [snd] in E1.
    exists results, w', (e0 ++ e1).
    rewrite E1, E0, <- app_assoc, forallb_app, length_app, G0, G1.
    repeat split; auto. lia. }
  assert (Hnone : exists results w' extra,
             fallback task w = (Ok results, w')
             /\ log w' = log w ++ extra
             /\ forallb is_get extra = true
             /\ List.length extra + List.length results <= most_reads f).
  { apply (Hfb w []); [now rewrite app_nil_r | reflexivity |].
    destruct f; simpl; lia. }
  unfold webSearch, bind.
  destruct (SERPAPI_API_KEY env) as [[|c apiKey]|]; cbn [ToBoolean];
    try exact Hnone.
  unfold try_catch.
  destruct (reads_serpapi_search f (c :: apiKey) task w) as (e0 & E0 & L0 & G0).
  destruct (serpapi_search f (c :: apiKey) task w) as [[[results|]|e] w0] eqn:S;
    cbn [snd] in E0; unfold ret.
  - exists results, w0, e0. repeat split; auto.
    apply serpapi_search_most in S. clear Hfb Hnone.
    destruct f; cbn [most_reads most_results] in *; lia.
  - apply (Hfb w0 e0); auto. clear Hfb Hnone S.
    destruct f; cbn [most_reads] in *; lia.
  - apply (Hfb w0 e0); auto. clear Hfb Hnone S.
    destruct f; cbn [most_reads] in *; lia.
Qed.

(** A completion call is at most one request: a POST to its service. *)
Lemma completion_calls env prompt w :
  exists calls,
    log (snd ((if ToBoolean (env_value (OPENAI_API_KEY env))
               then callOpenAI env prompt
               else callAnthropic env prompt) w))
    = log w ++ calls
    /\ at_most_one_post (completion_url env) calls.
Proof.
  unfold completion_url.
  destruct (ToBoolean (env_value (OPENAI_API_KEY env))).
  - unfold callOpenAI.
    destruct (OPENAI_API_KEY env) as [[|c apiKey]|];
      try (exists []; split; [now rewrite app_nil_r | now left]).
    eexists. split; [|right; eauto].
    unfold bind, fetch.
    destruct (answers w) as [|[res|] rest]; try reflexivity.
    destruct (negb (ok res)); [reflexivity|].
    unfold json_of, lift. destruct (JSON_parse (body res)); [|reflexivity].
    destruct (Get _ _); reflexivity.
  - unfold callAnthropic.
    destruct (ANTHROPIC_API_KEY env) as [[|c apiKey]|];
      try (exists []; split; [now rewrite app_nil_r | now left]).
    eexists. split; [|right; eauto].
    unfold bind, fetch.
    destruct (answers w) as [|[res|] rest]; try reflexivity.
    destruct (negb (ok res)); [reflexivity|].
    unfold json_of, lift. destruct (JSON_parse (body res)); [|reflexivity].
    destruct (Get _ _) as [content|]; [|reflexivity].
    destruct (if ToBoolean content then _ else _) as [first|]; [|reflexivity].
    destruct (if ToBoolean first then _ else _); reflexivity.
Qed.

(** The pages are asked for, one request per result. *)
Lemma pages_step results w :
  exists pages w',
    match results with [] => ret [] | _ => fetchPages results end w
    = (Ok pages, w')
    /\ log w' = log w ++ page_requests results.
Proof.
  destruct results as [|r results].
  - exists [], w. split; [reflexivity | now rewrite app_nil_r].
  - destruct (fetch_each_spec (r :: results) [] w) as (pages & E & _).
    unfold fetchPages. rewrite E. eexists _, _. split; reflexivity.
Qed.

Lemma page_requests_read results : forallb is_get (page_requests results) = true.
Proof. induction results; simpl; auto. Qed.

Lemma research_and_plan_requests f env task w :
  exists reads calls,
    log (snd (research_and_plan f env task w)) = log w ++ reads ++ calls
    /\ forallb is_get reads = true
    /\ List.length reads <= most_reads f
    /\ at_most_one_post (completion_url env) calls.
Proof.
  unfold research_and_plan. unfold bind at 1.
  destruct (webSearch_cost f env task w)
    as (results & w1 & extra & -> & E1 & G1 & L1).
  unfold bind at 1.
  destruct (pages_step results w1) as (pages & w2 & -> & E2).
  exists (extra ++ page_requests results).
  assert (Hreads : forallb is_get (extra ++ page_requests results) = true
                   /\ List.length (extra ++ page_requests results)
                      <= most_reads f).
  { rewrite forallb_app, G1, page_requests_read, length_app.
    unfold page_requests. rewrite length_map. auto. }
  destruct Hreads as [G L].
  unfold bind at 1, lift at 1.
  destruct (buildPrompt f task pages) as [prompt|e].
  - unfold bind at 1.
    destruct (completion_calls env prompt w2) as (calls & Ec & Hc).
    exists calls.
    destruct ((if ToBoolean (env_value (OPENAI_API_KEY env))
               then callOpenAI env prompt
               else callAnthropic env prompt) w2) as [[raw|e] w3];
      cbn [snd] in Ec.
    + assert (Hw : snd ((parsed <- lift (safeParseJson raw) ;;
                         normalized <- lift (normalize parsed) ;;
                         ret (Reply 200
                                (Breakdown normalized (map source_of results)
                                   (match pages with
                                    | [] => false
                                    | _ => true
                                    end)))) w3) = w3).
      { unfold bind, lift, ret. destruct (safeParseJson raw); [|reflexivity].
        destruct (normalize _); reflexivity. }
      rewrite Hw, Ec, E2, E1, <- !app_assoc. auto.
    + cbn [snd]. rewrite Ec, E2, E1, <- !app_assoc. auto.
  - exists []. cbn [snd]. rewrite app_nil_r, E2, E1, <- !app_assoc.
    repeat split; auto. now left.
Qed.



(** X8. One invocation makes at most 14 requests (7 in the earlier copy
    of the file): first at most 13 (6) requests that only read, for the
    research and the pages, then at most one POST, to the completion
    service the environment selects (OpenAI's when [OPENAI_API_KEY] is
    set and not empty, Anthropic's otherwise).  Nothing else is sent. *)
Theorem handler_requests (f : source_file) (env : environment) (req : Req.t)
        (w : world) :
  exists reads calls,
    log (snd (handler f env req w)) = log w ++ reads ++ calls
    /\ forallb is_get reads = true
    /\ List.length reads <= most_reads f
    /\ at_most_one_post (completion_url env) calls.
Proof.
  assert (Hnone : forall w', log w' = log w ->
             exists reads calls,
               log w' = log w ++ reads ++ calls
               /\ forallb is_get reads = true
               /\ List.length reads <= most_reads f
               /\ at_most_one_post (completion_url env) calls).
  { intros w' ->. exists [], []. rewrite app_nil_r.
    repeat split; [simpl; lia | now left]. }
  unfold handler.
  destruct (negb (str_eqb (Req.method req) (lit "POST")));
    [now apply Hnone|].
  assert (Hcatch : forall (m : M reply) h,
             (forall e w0, snd (h e w0) = w0) ->
             log (snd (try_catch m h w)) = log (snd (m w))).
  { intros m h Hh. unfold try_catch.
    destruct (m w) as [[r|e] w0]; [reflexivity|]. now rewrite Hh. }
  rewrite Hcatch by reflexivity.
  unfold bind at 1, lift at 1.
  destruct (Get _ _) as [v|e]; [|now apply Hnone].
  destruct v as [|[| | |[|c task]| |]|]; try (now apply Hnone).
  apply research_and_plan_requests.
Qed.

(** ** Failures of the completion call *)

Lemma message_or_default_cons c m x :
  message_or_default (Error ((c :: m) ++ x)) = (c :: m) ++ x.
Proof. reflexivity. Qed.

Lemma handler_valid_post f env req task w :
  valid_post req task ->
  handler f env req w
  = try_catch (research_and_plan f env task)
              (fun err => ret (Reply 500 (ErrorBody (message_or_default err))))
              w.
Proof.
  intros (Hm & Ht & props & Hb & Hown).
  unfold handler. rewrite Hm, str_eqb_refl. cbn [negb].
  unfold try_catch, bind, lift. rewrite Hb.
  cbn [or_else ToBoolean Get]. rewrite Hown.
  destruct task as [|c task]; [contradiction | reflexivity].
Qed.

Lemma researched_total f env task w :
  exists pages w', researched f env task w pages w'.
Proof.
  destruct (webSearch_total f env task w) as (results & w1 & E & _).
  destruct (pages_step results w1) as (pages & w2 & E2 & _).
  exists pages, w2, results, w1. now split.
Qed.

Lemma research_and_plan_researched f env task w pages w' :
  researched f env task w pages w' ->
  research_and_plan f env task w
  = (prompt <- lift (buildPrompt f task pages) ;;
     raw <- (if ToBoolean (env_value (OPENAI_API_KEY env))
             then callOpenAI env prompt
             else callAnthropic env prompt) ;;
     parsed <- lift (safeParseJson raw) ;;
     normalized <- lift (normalize parsed) ;;
     ret (Reply 200 (Breakdown normalized
                       (map source_of
                            (match fst (webSearch f env task w) with
                             | Ok results => results
                             | Throw _ => []
                             end))
                       (match pages with [] => false | _ => true end)))) w'.
Proof.
  intros (results & w1 & E1 & E2).
  unfold research_and_plan. unfold bind at 1. rewrite E1.
  unfold bind at 1. rewrite E2. reflexivity.
Qed.

(** X9. Without a credential for any completion service, a valid request
    is researched all the same (the search and the page fetches are
    made), and then answered 500: with the message
    [Missing ANTHROPIC_API_KEY env var], unless building the prompt has
    failed before.  No completion call is made. *)
Theorem handler_without_credentials (f : source_file) (env : environment)
        (req : Req.t) (task : str) (w : world) :
  valid_post req task ->
  ToBoolean (env_value (OPENAI_API_KEY env)) = false ->
  ToBoolean (env_value (ANTHROPIC_API_KEY env)) = false ->
  exists pages w',
    researched f env task w pages w'
    /\ handler f env req w
       = (Ok (Reply 500
                (ErrorBody
                   (match buildPrompt f task pages with
                    | Ok _ => lit "Missing ANTHROPIC_API_KEY env var"
                    | Throw e => message_or_default e
                    end))),
          w').
Proof.
  intros Hreq Ho Ha.
  destruct (researched_total f env task w) as (pages & w' & R).
  exists pages, w'. split; [exact R|].
  rewrite (handler_valid_post f env req task w Hreq).
  unfold try_catch. rewrite (research_and_plan_researched _ _ _ _ _ _ R).
  unfold bind at 1, lift at 1.
  destruct (buildPrompt f task pages) as [prompt|e]; [|reflexivity].
  unfold bind at 1. rewrite Ho. unfold callAnthropic.
  assert (E : message_or_default (Error (lit "Missing ANTHROPIC_API_KEY env var"))
              = lit "Missing ANTHROPIC_API_KEY env var")
    by exact (message_or_default_cons 77%N (lit "issing ANTHROPIC_API_KEY env var") []).
  destruct (ANTHROPIC_API_KEY env) as [[|c k]|]; try discriminate;
    unfold throw, ret; now rewrite E.
Qed.

Lemma handler_without_credentials_witness :
  fst (handler api_research_breakdown no_credentials (a_post "plan a party")
         {| answers := []; log := [] |})
  = Ok (Reply 500 (ErrorBody (lit "Missing ANTHROPIC_API_KEY env var"))).
Proof.
  assert (V : valid_post (a_post "plan a party") (lit "plan a party")).
  { split; [reflexivity|]. split; [discriminate|].
    eexists. split; reflexivity. }
  destruct (handler_without_credentials api_research_breakdown no_credentials
              (a_post "plan a party") (lit "plan a party")
              {| answers := []; log := [] |} V eq_refl eq_refl)
    as (pages & w' & (results & w1 & E1 & E2) & H).
  rewrite H. cbn [fst].
  vm_compute in E1. injection E1 as <- <-.
  vm_compute in E2. injection E2 as <- <-.
  reflexivity.
Defined.

(** X10. When the completion service answers a valid request with a
    status outside 200-299, the reply is 500 and its message gives the
    service's name, the status and the body of the service's answer as
    it came. *)
Theorem handler_reports_completion_error (f : source_file)
        (env : environment) (req : Req.t) (task : str) (w w' : world)
        (pages : list Page.t) (prompt : str) (r : response)
        (rest : list (option response)) :
  valid_post req task ->
  researched f env task w pages w' ->
  buildPrompt f task pages = Ok prompt ->
  ToBoolean (env_value (OPENAI_API_KEY env)) = true
  \/ ToBoolean (env_value (ANTHROPIC_API_KEY env)) = true ->
  answers w' = Some r :: rest ->
  ok r = false ->
  fst (handler f env req w)
  = Ok (Reply 500
          (ErrorBody (completion_error env ++ Z_digits (Z.of_N (status r))
                      ++ lit " " ++ body r))).
Proof.
  intros Hreq R Hp Hkey Hw Hr.
  rewrite (handler_valid_post f env req task w Hreq).
  unfold try_catch. rewrite (research_and_plan_researched _ _ _ _ _ _ R).
  unfold bind at 1, lift at 1. rewrite Hp.
  unfold bind at 1. unfold completion_error.
  destruct (ToBoolean (env_value (OPENAI_API_KEY env))) eqn:Ho.
  - unfold callOpenAI.
    destruct (OPENAI_API_KEY env) as [[|c k]|]; try discriminate.
    unfold bind, fetch. rewrite Hw, Hr. cbn [negb].
    unfold text_of, ret, throw. cbn [fst].
    change (lit "OpenAI error: ") with (79%N :: lit "penAI error: ").
    now rewrite message_or_default_cons.
  - destruct Hkey as [Hkey|Hkey]; [discriminate|].
    unfold callAnthropic.
    destruct (ANTHROPIC_API_KEY env) as [[|c k]|]; try discriminate.
    unfold bind, fetch. rewrite Hw, Hr. cbn [negb].
    unfold text_of, ret, throw. cbn [fst].
    change (lit "Anthropic error: ") with (65%N :: lit "nthropic error: ").
    now rewrite message_or_default_cons.
Qed.

Lemma handler_reports_completion_error_witness :
  fst (handler api_research_breakdown an_environment (a_post "plan a party")
         a_refused_completion)
  = Ok (Reply 500 (ErrorBody (lit "Anthropic error: 401 invalid x-api-key"))).
Proof.
  assert (V : valid_post (a_post "plan a party") (lit "plan a party")).
  { split; [reflexivity|]. split; [discriminate|].
    eexists. split; reflexivity. }
  assert (R : researched api_research_breakdown an_environment
                (lit "plan a party") a_refused_completion []
                {| answers := [Some {| status := 401;
                                       body := lit "invalid x-api-key" |}];
                   log := [GET (wikipedia_url (lit "plan%20a%20party"))] |}).
  { exists [], {| answers := [Some {| status := 401;
                                      body := lit "invalid x-api-key" |}];
                  log := [GET (wikipedia_url (lit "plan%20a%20party"))] |}.
    split; vm_compute; reflexivity. }
  rewrite (handler_reports_completion_error api_research_breakdown
             an_environment (a_post "plan a party") (lit "plan a party")
             a_refused_completion _ [] _
             {| status := 401; body := lit "invalid x-api-key" |} []
             V R eq_refl (or_intror eq_refl) eq_refl eq_refl).
  reflexivity.
Defined.

(** ** The encyclopedia fallback *)

Lemma hex_digit_no_space d x : ~ In 32%N x -> ~ In 32%N (hex_digit d :: x).
Proof.
  intros Hx [E|E]; [|auto]. revert E. unfold hex_digit.
  destruct (d <? 10)%N; lia.
Qed.

Lemma percent_no_space b x : ~ In 32%N x -> ~ In 32%N (percent b ++ x).
Proof.
  intros Hx. unfold percent. cbn [app].
  intros [E|E]; [discriminate|]. revert E.
  now apply hex_digit_no_space, hex_digit_no_space.
Qed.

Lemma utf8_escape_no_space cp x :
  ~ In 32%N x -> ~ In 32%N (utf8_escape cp ++ x).
Proof.
  intros Hx. unfold utf8_escape.
  destruct (cp <? 128)%N; [now apply percent_no_space|].
  destruct (cp <? 2048)%N;
    [rewrite <- app_assoc; now apply percent_no_space, percent_no_space|].
  destruct (cp <? 65536)%N; rewrite <- !app_assoc;
    repeat apply percent_no_space; exact Hx.
Qed.

(** What [encodeURIComponent] returns holds no space. *)
Lemma encodeURIComponent_no_space n : forall s out,
  List.length s <= n ->
  encodeURIComponent s = Ok out -> ~ In 32%N out.
Proof.
  induction n as [|n IH]; intros s out Hlen.
  - destruct s; [|simpl in Hlen; lia]. intros [= <-] [].
  - destruct s as [|c r]; [intros [= <-] []|].
    cbn [encodeURIComponent].
    simpl in Hlen.
    destruct (unreserved c) eqn:U.
    { destruct (encodeURIComponent r) as [t|] eqn:E; [|discriminate].
      cbn [rbind]. intros H. apply Ok_inj in H. subst out.
      intros [->|Hin]; [discriminate|].
      revert Hin. apply (IH r t); [lia | exact E]. }
    destruct (is_low_surrogate c) eqn:L; [discriminate|].
    destruct (is_high_surrogate c) eqn:Hi.
    + destruct r as [|d r']; [discriminate|].
      destruct (is_low_surrogate d) eqn:Ld; [|discriminate].
      destruct (encodeURIComponent r') as [t|] eqn:E; [|discriminate].
      cbn [rbind]. intros H. apply Ok_inj in H. subst out.
      simpl in Hlen.
      apply utf8_escape_no_space, (IH r' t); [lia | exact E].
    + destruct (encodeURIComponent r) as [t|] eqn:E; [|discriminate].
      cbn [rbind]. intros H. apply Ok_inj in H. subst out.
      apply utf8_escape_no_space, (IH r t); [lia | exact E].
Qed.

(** Whatever it is given, [stripHtml] returns a sanitized text when it
    returns. *)
Lemma stripHtml_Ok v out :
  stripHtml v = Ok out ->
  has_match re_tag out = false /\ has_ws_run out = false.
Proof.
  unfold stripHtml. destruct (negb (ToBoolean v)).
  - intros [= <-]. now split.
  - destruct v as [|[| | |s| |]|]; try discriminate.
    intros H. apply Ok_inj in H. subst out. split.
    + apply stripped_no_tag.
    + apply ws_normal_no_run, stripped_normal.
Qed.

Lemma wikipedia_hit_Ok p r : wikipedia_hit p = Ok r -> wikipedia_result r.
Proof.
  unfold wikipedia_hit.
  destruct (Get (Of p) (lit "title")) as [title|]; [|discriminate].
  cbn [rbind].
  destruct title as [|[| | |s| |]|]; try discriminate.
  cbn [rbind].
  destruct (encodeURIComponent _) as [name|] eqn:E; [|discriminate].
  cbn [rbind].
  destruct (Get (Of p) (lit "snippet")) as [snippet|]; [|discriminate].
  cbn [rbind].
  destruct (stripHtml snippet) as [stripped|] eqn:S; [|discriminate].
  cbn [rbind]. intros H. apply Ok_inj in H. subst r.
  apply (encodeURIComponent_no_space _ _ _ (le_n _)) in E.
  apply stripHtml_Ok in S as [S1 S2].
  exists s, name, stripped. repeat split; auto.
Qed.

Lemma sequence_Forall {A B} (g : A -> result B) (P : B -> Prop) l out :
  (forall x y, g x = Ok y -> P y) ->
  sequence (map g l) = Ok out -> Forall P out.
Proof.
  intros Hg. revert out; induction l as [|x l IH]; intros out.
  - intros [= <-]. constructor.
  - cbn [map sequence]. destruct (g x) as [y|] eqn:E; [|discriminate].
    cbn [rbind]. destruct (sequence (map g l)) as [ys|]; [|discriminate].
    cbn [rbind]. intros H. apply Ok_inj in H. subst out.
    constructor; eauto.
Qed.

Lemma sequence_Throw {A B} (g : A -> result B) l x e :
  In x l -> g x = Throw e -> exists e', sequence (map g l) = Throw e'.
Proof.
  intros Hin Hx. induction l as [|y l IH]; [contradiction|].
  cbn [map sequence]. destruct Hin as [->|Hin].
  - rewrite Hx. cbn [rbind]. eauto.
  - destruct (g y); cbn [rbind]; [|eauto].
    destruct (IH Hin) as (e' & ->). cbn [rbind]. eauto.
Qed.

Lemma wikipedia_search_results task w results w' :
  wikipedia_search task w = (Ok results, w') ->
  Forall wikipedia_result results.
Proof.
  unfold wikipedia_search. intros H.
  apply bind_Ok in H as (q & w0 & _ & H).
  apply bind_Ok in H as (res & w2 & _ & H).
  destruct (negb (ok res)).
  - apply ret_Ok in H as [-> _]. constructor.
  - apply bind_Ok in H as (data & w3 & _ & H).
    apply bind_Ok in H as (query & w4 & _ & H).
    apply bind_Ok in H as (pages & w5 & Hp & H).
    apply ret_Ok in H as [-> _]. apply lift_Ok in Hp as [Hp _].
    apply Forall_firstn_of.
    unfold array_map in Hp.
    destruct (or_else _ _) as [|[| | | |items|]|]; try discriminate.
    eapply sequence_Forall; [|exact Hp]. apply wikipedia_hit_Ok.
Qed.

(** X11. Without a search credential ([SERPAPI_API_KEY] unset or empty)
    the research is the encyclopedia search alone: at most 3 results,
    each with a string for title, for link an address that starts with
    [https://en.wikipedia.org/wiki/] and holds no space, and for snippet
    a sanitized string. *)
Theorem webSearch_fallback_results (f : source_file) (env : environment)
        (task : str) (w : world) :
  ToBoolean (env_value (SERPAPI_API_KEY env)) = false ->
  exists results w',
    webSearch f env task w = (Ok results, w')
    /\ List.length results <= 3
    /\ Forall wikipedia_result results.
Proof.
  intros Hkey.
  assert (E : webSearch f env task w = fallback task w).
  { apply webSearch_unconfigured.
    destruct (SERPAPI_API_KEY env) as [[|c k]|]; auto; discriminate. }
  rewrite E. destruct (fallback_total task w) as (results & w' & Hf & Hlen).
  exists results, w'. repeat split; auto.
  unfold fallback, try_catch in Hf.
  destruct (wikipedia_search task w) as [[rs|e] w1] eqn:S.
  - injection Hf as <- <-. eapply wikipedia_search_results; eauto.
  - apply ret_Ok in Hf as [-> _]. constructor.
Qed.

Lemma webSearch_fallback_results_witness :
  exists results,
    fst (webSearch api_research_breakdown an_environment (lit "party")
           {| answers := [Some (wikipedia_reply [hit "Birthday party" "<b>a</b>"])];
              log := [] |})
    = Ok results
    /\ map SearchResult.link results
       = [Of (jstr "https://en.wikipedia.org/wiki/Birthday_party")]
    /\ Forall wikipedia_result results.
Proof.
  destruct (webSearch_fallback_results api_research_breakdown an_environment
              (lit "party")
              {| answers := [Some (wikipedia_reply [hit "Birthday party" "<b>a</b>"])];
                 log := [] |} eq_refl)
    as (results & w' & E & _ & H).
  exists results. rewrite E. split; [reflexivity|]. split; [|exact H].
  vm_compute in E. injection E as <- _. reflexivity.
Defined.

(** X12. The hits of the encyclopedia are converted together, inside
    the [try] block: when one of them cannot be converted (its title is
    not a string, or its snippet is neither a string nor falsy), the
    fallback returns no result at all. *)
Theorem fallback_all_or_nothing (f : source_file) (env : environment)
        (task : str) (w : world) (r : response)
        (rest : list (option response)) (data : json) (query : value)
        (hits : list json) (h : json) (e : exn) :
  ToBoolean (env_value (SERPAPI_API_KEY env)) = false ->
  answers w = Some r :: rest ->
  ok r = true ->
  JSON_parse (body r) = Ok data ->
  Get (Of data) (lit "query") = Ok query ->
  or_else (GetOpt query (lit "search")) (Of (JArr [])) = Of (JArr hits) ->
  In h hits ->
  wikipedia_hit h = Throw e ->
  fst (webSearch f env task w) = Ok [].
Proof.
  intros Hkey Hw Hr Hdata Hquery Hhits Hin Hh.
  assert (E : webSearch f env task w = fallback task w).
  { apply webSearch_unconfigured.
    destruct (SERPAPI_API_KEY env) as [[|c k]|]; auto; discriminate. }
  rewrite E. unfold fallback, try_catch, wikipedia_search.
  unfold bind at 1, lift at 1.
  destruct (encodeURIComponent task) as [q|]; [|reflexivity].
  unfold bind at 1, fetch. rewrite Hw, Hr. cbn [negb].
  unfold bind at 1, json_of, lift at 1. rewrite Hdata.
  unfold bind at 1, lift at 1. rewrite Hquery.
  unfold bind at 1, lift at 1. rewrite Hhits. unfold array_map.
  destruct (sequence_Throw wikipedia_hit hits h e Hin Hh) as (e' & ->).
  reflexivity.
Qed.

Lemma fallback_all_or_nothing_witness :
  fst (webSearch api_research_breakdown an_environment (lit "party")
         a_hit_without_title)
  = Ok [].
Proof.
  eapply (fallback_all_or_nothing api_research_breakdown an_environment
            (lit "party") a_hit_without_title _ []
            (JObj [(lit "query",
                    JObj [(lit "search",
                           JArr [JObj [(lit "title", jstr "Party");
                                       (lit "snippet", jstr "a")];
                                 JObj [(lit "snippet", jstr "b")]])])])
            _ _ (JObj [(lit "snippet", jstr "b")]));
    try (vm_compute; reflexivity).
  vm_compute. tauto.
Defined.

(** ** More on the sanitizer *)

Section Shrinking.

(** An expression whose matches are not empty, and a replacement of one
    code unit. *)
Variable m : str -> option str.
Variable c : char.
Hypothesis m_rest :
  forall t rest, m t = Some rest ->
    List.length rest < List.length t /\ forall x, In x rest -> In x t.

Lemma replace_from_length fuel : forall s,
  List.length (replace_from m [c] fuel s) <= List.length s.
Proof.
  induction fuel as [|fuel IH]; intros s; [reflexivity|].
  cbn [replace_from]. destruct (m s) as [rest|] eqn:E.
  - apply m_rest in E as [E _]. specialize (IH rest). simpl. lia.
  - destruct s as [|d s']; [reflexivity|]. specialize (IH s'). simpl. lia.
Qed.

Lemma replace_from_In fuel x : forall s,
  In x (replace_from m [c] fuel s) -> x = c \/ In x s.
Proof.
  induction fuel as [|fuel IH]; intros s; [now right|].
  cbn [replace_from]. destruct (m s) as [rest|] eqn:E.
  - apply m_rest in E as [_ E]. intros [H|H]; [now left|].
    destruct (IH _ H); auto.
  - destruct s as [|d s']; [intros []|].
    intros [H|H]; [right; now left|].
    destruct (IH _ H); auto. right. now right.
Qed.

End Shrinking.

Lemma prefix_ci_length p s r :
  prefix_ci p s = Some r -> List.length r + List.length p = List.length s.
Proof.
  revert s; induction p as [|a p IH]; intros s; simpl.
  - intros [= ->]. lia.
  - destruct s as [|b s]; [discriminate|].
    destruct (char_eqb (upper a) (upper b)); [|discriminate].
    intros H. apply IH in H. simpl. lia.
Qed.

Lemma find_ci_rest p s r :
  find_ci p s = Some r ->
  List.length r <= List.length s /\ forall x, In x r -> In x s.
Proof.
  induction s as [|b s IH]; simpl.
  - destruct (prefix_ci p []) eqn:E; [|discriminate].
    intros [= <-]. apply prefix_ci_length in E as L. split; [simpl in *; lia|].
    intros x Hx. exact (prefix_ci_In p _ _ x E Hx).
  - destruct (prefix_ci p (b :: s)) eqn:E.
    + intros [= <-]. apply prefix_ci_length in E as L.
      split; [simpl in *; lia|]. intros x Hx. exact (prefix_ci_In p _ _ x E Hx).
    + intros H. apply IH in H as [H1 H2]. split; [lia|].
      intros x Hx. right. auto.
Qed.

(** What is left after a block that opens with [opening]. *)
Lemma block_rest (opening closing t rest : str) :
  opening <> [] ->
  match prefix_ci opening t with
  | Some r => find_ci closing r
  | None => None
  end = Some rest ->
  List.length rest < List.length t /\ forall x, In x rest -> In x t.
Proof.
  intros Hne. destruct (prefix_ci opening t) as [r|] eqn:E; [|discriminate].
  intros H. apply find_ci_rest in H as [H1 H2].
  apply prefix_ci_length in E as L. split.
  - destruct opening; [contradiction|]. simpl in L. lia.
  - intros x Hx. eapply prefix_ci_In; eauto.
Qed.

Lemma after_gt_In s rest x : after_gt s = Some rest -> In x rest -> In x s.
Proof.
  revert rest; induction s as [|d r IH]; simpl; intros rest; [discriminate|].
  destruct (d =? 62)%N.
  - intros [= <-]. now right.
  - intros H Hx. right. eauto.
Qed.

Lemma re_tag_rest t rest :
  re_tag t = Some rest ->
  List.length rest < List.length t /\ forall x, In x rest -> In x t.
Proof.
  intros H. split; [now apply re_tag_length|].
  revert H. unfold re_tag. destruct t as [|a [|d r]]; try discriminate.
  destruct (a =? 60)%N; [|discriminate].
  destruct (d =? 62)%N; [discriminate|].
  intros H x Hx. right. right. eapply after_gt_In; eauto.
Qed.

Lemma re_spaces_rest t rest :
  re_spaces t = Some rest ->
  List.length rest < List.length t /\ forall x, In x rest -> In x t.
Proof.
  intros H. apply re_spaces_Some in H as (a & r & -> & _ & ->). split.
  - pose proof (trimStart_length r). simpl. lia.
  - intros x Hx. right. now apply trimStart_In.
Qed.

Lemma trimEnd_length s : List.length (trimEnd s) <= List.length s.
Proof.
  induction s as [|a r IH]; simpl; auto.
  destruct (trimEnd r); [destruct (is_ws a)|]; simpl in *; lia.
Qed.

Lemma stripped_length s : List.length (stripped s) <= List.length s.
Proof.
  unfold stripped, trim, replace_all. rewrite lit_space.
  etransitivity; [apply trimEnd_length|].
  etransitivity; [apply trimStart_length|].
  etransitivity; [apply (replace_from_length _ _ re_spaces_rest)|].
  etransitivity; [apply (replace_from_length _ _ re_tag_rest)|].
  etransitivity; [apply replace_from_length|].
  { intros t rest. apply block_rest. discriminate. }
  apply replace_from_length.
  intros t rest. apply block_rest. discriminate.
Qed.

Lemma stripped_In s x : In x (stripped s) -> x = 32%N \/ In x s.
Proof.
  unfold stripped, trim, replace_all. rewrite lit_space. intros H.
  apply trimEnd_In, trimStart_In in H.
  apply (replace_from_In _ _ re_spaces_rest) in H as [H|H]; auto.
  apply (replace_from_In _ _ re_tag_rest) in H as [H|H]; auto.
  apply replace_from_In in H as [H|H]; auto.
  - apply replace_from_In in H as [H|H]; auto.
    intros t rest. apply block_rest. discriminate.
  - intros t rest. apply block_rest. discriminate.
Qed.

(** X13. The strings [stripHtml] returns unchanged are exactly those
    that hold no tag, whose white space is single U+0020 characters
    between other characters, and that neither begin nor end with white
    space. *)
Theorem stripHtml_fixed_points (s : str) :
  stripHtml (Of (JStr s)) = Ok s
  <-> has_match re_tag s = false /\ ws_normal s /\ trim s = s.
Proof.
  rewrite stripHtml_string. split.
  - intros H. apply Ok_inj in H. destruct s as [|a r]; [now repeat split|].
    rewrite <- H. repeat split.
    + apply stripped_no_tag.
    + apply stripped_normal.
    + apply stripped_trimmed.
  - intros (Htag & Hws & Htrim). destruct s as [|a r]; [reflexivity|].
    f_equal. now apply stripped_fixed.
Qed.

(** X14. [stripHtml] only removes, and writes spaces: what it returns
    for a string is not longer than the string, and each of its code
    units is a space (U+0020) or occurs in the string. *)
Theorem stripHtml_shrinks (s : str) :
  exists out,
    stripHtml (Of (JStr s)) = Ok out
    /\ List.length out <= List.length s
    /\ forall x, In x out -> x = 32%N \/ In x s.
Proof.
  rewrite stripHtml_string. eexists. split; [reflexivity|].
  destruct s as [|a r]; [split; [reflexivity | intros x []]|].
  split; [apply stripped_length | apply stripped_In].
Qed.

(** ** More on normalization *)

(** Whatever [normalize_entry] returns is an entry built from the
    conversions of the raw text and of the raw duration. *)
Lemma normalize_entry_inv idx t out :
  normalize_entry idx t = Ok out ->
  exists text n,
    ToString (or_else (field t "text") (Of (jstr "Untitled task"))) = Ok text
    /\ out = normalized_entry idx t text n.
Proof.
  intros H. assert (Ht : t <> JNull) by (intros ->; discriminate).
  revert H. unfold normalize_entry.
  rewrite !Get_not_null by assumption. cbn [rbind].
  fold (field t "text").
  destruct (ToString (or_else (field t "text") (Of (jstr "Untitled task"))))
    as [text|]; [|discriminate].
  cbn [rbind]. destruct (ToNumber _) as [n|]; [|discriminate].
  cbn [rbind]. intros H. apply Ok_inj in H. subst out.
  exists text, n. split; reflexivity.
Qed.

Lemma is_priority_string p :
  is_priority (Of (JStr p)) = true <-> In p priorities.
Proof.
  unfold is_priority, priorities. cbn [existsb strict_equals jstr In].
  rewrite !orb_true_iff, !str_eqb_eq. intuition discriminate.
Qed.

Lemma trimStart_all_ws s : trimStart s = [] <-> forallb is_ws s = true.
Proof.
  induction s as [|c r IH]; simpl; [tauto|].
  destruct (is_ws c); simpl; [exact IH | split; discriminate].
Qed.

Lemma trimEnd_all_ws s : trimEnd s = [] <-> forallb is_ws s = true.
Proof.
  induction s as [|c r IH]; simpl; [tauto|].
  destruct (trimEnd r) as [|d t].
  - destruct IH as [IH _]. rewrite (IH eq_refl), andb_true_r.
    destruct (is_ws c); split; auto; discriminate.
  - split; [discriminate|]. intros H. apply andb_true_iff in H as [_ H].
    apply IH in H. discriminate.
Qed.

(** Trimming gives the empty string exactly on blank strings. *)
Lemma trim_all_ws s : trim s = [] <-> forallb is_ws s = true.
Proof.
  unfold trim. rewrite trimEnd_all_ws, <- (trimStart_all_ws s).
  pose proof (trimStart_head s) as H.
  destruct (trimStart s) as [|d t]; [split; reflexivity|].
  simpl. rewrite H. simpl. split; discriminate.
Qed.

(** X15. The priority of a normalized entry is the raw priority when
    that is one of the strings [high], [medium] and [low], exactly, and
    [medium] for every other raw value. *)
Theorem normalize_entry_priority (idx : nat) (t : json) (out : MicroTask.t) :
  normalize_entry idx t = Ok out ->
  (forall p, In p priorities -> field t "priority" = Of (JStr p) ->
             MicroTask.priority out = p)
  /\ ((forall p, In p priorities -> field t "priority" <> Of (JStr p)) ->
      MicroTask.priority out = lit "medium").
Proof.
  intros H. apply normalize_entry_inv in H as (text & n & _ & ->).
  cbn [MicroTask.priority normalized_entry]. split.
  - intros p Hp ->. apply is_priority_string in Hp. now rewrite Hp.
  - intros Hnot. destruct (field t "priority") as [|[]|]; try reflexivity.
    destruct (is_priority (Of (JStr s))) eqn:E; [|reflexivity].
    apply is_priority_string in E. now destruct (Hnot s E).
Qed.

Lemma normalize_entry_priority_witness :
  exists out,
    normalize_entry 0 a_blank_entry = Ok out
    /\ MicroTask.priority out = lit "medium".
Proof.
  eexists. split; [reflexivity|].
  apply (normalize_entry_priority 0 a_blank_entry _ eq_refl).
  intros p Hp. vm_compute. intros [= <-].
  vm_compute in Hp. intuition discriminate.
Defined.

(** X16. When the raw text is a non-empty string, the text of the
    normalized entry is that string trimmed; it is empty exactly when
    the raw text is made of white space only. *)
Theorem normalize_entry_text (idx : nat) (t : json) (out : MicroTask.t)
        (s : str) :
  normalize_entry idx t = Ok out ->
  field t "text" = Of (JStr s) ->
  s <> [] ->
  MicroTask.text out = trim s
  /\ (MicroTask.text out = [] <-> forallb is_ws s = true).
Proof.
  intros H Hs Hne. apply normalize_entry_inv in H as (text & n & Ht & ->).
  cbn [MicroTask.text normalized_entry].
  rewrite Hs in Ht. destruct s as [|c r]; [contradiction|].
  cbn in Ht. apply Ok_inj in Ht. subst text.
  split; [reflexivity | apply trim_all_ws].
Qed.

Lemma normalize_entry_text_witness :
  exists out,
    normalize_entry 0 a_blank_entry = Ok out
    /\ MicroTask.text out = [].
Proof.
  eexists. split; [reflexivity|].
  apply (normalize_entry_text 0 a_blank_entry _ (lit "  ") eq_refl eq_refl).
  - discriminate.
  - reflexivity.
Defined.

(** ** More on the extraction of JSON *)

Section Skipping.

(** An expression [m] whose matches start with the code unit [k]. *)
Variable m : str -> option str.
Variable k : char.
Hypothesis m_nil : m [] = None.
Hypothesis m_head : forall c x, c <> k -> m (c :: x) = None.

Lemma match_first_skip pre s :
  ~ In k pre -> match_first m (pre ++ s) = match_first m s.
Proof.
  induction pre as [|c pre IH]; intros H; [reflexivity|].
  cbn [app match_first]. rewrite m_head by (intros ->; apply H; now left).
  apply IH. intros F. apply H. now right.
Qed.

Lemma match_first_absent s : ~ In k s -> match_first m s = None.
Proof.
  intros H. rewrite <- (app_nil_r s), match_first_skip by exact H.
  simpl. now rewrite m_nil.
Qed.

Lemma has_match_absent s : ~ In k s -> has_match m s = false.
Proof.
  induction s as [|c s IH]; intros H; simpl.
  - now rewrite m_nil.
  - rewrite m_head by (intros ->; apply H; now left).
    apply IH. intros F. apply H. now right.
Qed.

Lemma replace_from_skip rep t x : forall fuel,
  ~ In k t -> List.length t <= fuel ->
  replace_from m rep fuel (t ++ x)
  = t ++ replace_from m rep (fuel - List.length t) x.
Proof.
  induction t as [|c t IH]; intros fuel H Hlen.
  - simpl. now rewrite Nat.sub_0_r.
  - destruct fuel as [|fuel]; [simpl in Hlen; lia|].
    cbn [app replace_from List.length Nat.sub].
    rewrite m_head by (intros ->; apply H; now left).
    f_equal. apply IH; [|simpl in Hlen; lia].
    intros F. apply H. now right.
Qed.

End Skipping.

Lemma match_first_found m s rest :
  m s = Some rest ->
  match_first m s = Some (firstn (List.length s - List.length rest) s).
Proof. destruct s; simpl; now intros ->. Qed.

Lemma firstn_matched {A} (a post : list A) :
  firstn (List.length (a ++ post) - List.length post) (a ++ post) = a.
Proof.
  rewrite length_app, Nat.add_sub, firstn_app, Nat.sub_diag, firstn_all.
  simpl. apply app_nil_r.
Qed.

Lemma upper_backtick c : upper c = 96%N -> c = 96%N.
Proof. apply upper_other. right. reflexivity. Qed.

Lemma prefix_ci_backtick p c x :
  c <> 96%N -> prefix_ci (96%N :: p) (c :: x) = None.
Proof.
  intros H. cbn [prefix_ci].
  destruct (char_eqb (upper 96%N) (upper c)) eqn:E; [|reflexivity].
  apply char_eqb_eq in E. symmetry in E. now apply upper_backtick in E.
Qed.

Lemma prefix_backtick p c x :
  c <> 96%N -> prefix (96%N :: p) (c :: x) = None.
Proof.
  intros H. cbn [prefix].
  destruct (char_eqb 96%N c) eqn:E; [|reflexivity].
  apply char_eqb_eq in E. congruence.
Qed.

Lemma re_fence_head c x : c <> 96%N -> re_fence (c :: x) = None.
Proof.
  intros H. unfold re_fence.
  change (lit "```json") with (96%N :: lit "``json").
  now rewrite prefix_ci_backtick.
Qed.

Lemma re_fence_marker_head c x : c <> 96%N -> re_fence_marker (c :: x) = None.
Proof.
  intros H. unfold re_fence_marker.
  change (lit "```json") with (96%N :: lit "``json").
  change (lit "```") with (96%N :: lit "``").
  now rewrite !prefix_backtick.
Qed.

Lemma re_braces_head c x : c <> 123%N -> re_braces (c :: x) = None.
Proof.
  intros H. unfold re_braces. destruct (N.eqb_spec c 123); congruence.
Qed.

Lemma find_ci_skip p t y :
  ~ In 96%N t -> find_ci (96%N :: p) (t ++ y) = find_ci (96%N :: p) y.
Proof.
  induction t as [|c t IH]; intros H; [reflexivity|].
  cbn [app find_ci].
  rewrite prefix_ci_backtick by (intros ->; apply H; now left).
  apply IH. intros F. apply H. now right.
Qed.

Lemma find_ci_here p y : find_ci p (p ++ y) = Some y.
Proof.
  assert (E : prefix_ci p (p ++ y) = Some y).
  { induction p as [|a p IH]; [reflexivity|].
    cbn [app prefix_ci]. unfold char_eqb. now rewrite N.eqb_refl. }
  destruct (p ++ y) as [|c x]; simpl in *; now rewrite E.
Qed.

(** The four letters of a label the fence expression accepts. *)
Lemma label_letters label :
  map upper label = lit "JSON" ->
  exists a b c d,
    label = [a; b; c; d]
    /\ (a = 74 \/ a = 106)%N /\ (b = 83 \/ b = 115)%N
    /\ (c = 79 \/ c = 111)%N /\ (d = 78 \/ d = 110)%N.
Proof.
  assert (U : forall y K, (65 <= K <= 90)%N -> upper y = K ->
                          y = K \/ y = (K + 32)%N).
  { intros y K HK. unfold upper.
    destruct ((97 <=? y) && (y <=? 122))%N eqn:E; [|now left].
    apply andb_true_iff in E as [E1 E2]. apply N.leb_le in E1, E2.
    intros H. right. lia. }
  destruct label as [|a [|b [|c [|d [|]]]]]; try discriminate.
  change (lit "JSON") with [74; 83; 79; 78]%N. cbn [map].
  intros [= Ha Hb Hc Hd]. exists a, b, c, d. split; [reflexivity|].
  repeat split; apply U; auto; lia.
Qed.

(** The fence expression finds the block, whatever the case of the
    label. *)
Lemma match_first_fenced pre label t post :
  ~ In 96%N pre -> ~ In 96%N t -> map upper label = lit "JSON" ->
  match_first re_fence (fenced pre label t post)
  = Some (lit "```" ++ label ++ t ++ lit "```").
Proof.
  intros Hpre Ht Hl. unfold fenced.
  rewrite (match_first_skip re_fence 96%N re_fence_head) by exact Hpre.
  assert (E : re_fence (lit "```" ++ label ++ t ++ lit "```" ++ post)
              = Some post).
  { unfold re_fence.
    destruct (label_letters label Hl) as (a & b & c & d & -> & Ha & Hb & Hc & Hd).
    assert (P : prefix_ci (lit "```json")
                  (lit "```" ++ [a; b; c; d] ++ t ++ lit "```" ++ post)
                = Some (t ++ lit "```" ++ post)).
    { destruct Ha as [-> | ->], Hb as [-> | ->], Hc as [-> | ->],
               Hd as [-> | ->]; reflexivity. }
    rewrite P. change (lit "```") with [96; 96; 96]%N.
    rewrite find_ci_skip by exact Ht. apply find_ci_here. }
  etransitivity; [apply (match_first_found _ _ _ E)|]. f_equal.
  replace (lit "```" ++ label ++ t ++ lit "```" ++ post)
    with ((lit "```" ++ label ++ t ++ lit "```") ++ post)
    by now rewrite <- !app_assoc.
  apply firstn_matched.
Qed.

(** Removing the markers of a block whose text holds no backtick. *)
Lemma replace_markers_tail (t : str) (fuel : nat) :
  ~ In 96%N t -> List.length t < fuel ->
  replace_from re_fence_marker [] fuel (t ++ lit "```") = t.
Proof.
  intros Ht Hlen.
  rewrite (replace_from_skip re_fence_marker 96%N re_fence_marker_head)
    by first [exact Ht | lia].
  destruct (fuel - List.length t) as [|n] eqn:E; [lia|].
  change (lit "```") with [96; 96; 96]%N. cbn [replace_from].
  change (re_fence_marker [96; 96; 96]%N) with (Some (@nil char)).
  cbn [app]. destruct n; simpl; now rewrite app_nil_r.
Qed.

Lemma replace_from_match m rep fuel s rest :
  m s = Some rest ->
  replace_from m rep (S fuel) s = rep ++ replace_from m rep fuel rest.
Proof. intros H. cbn [replace_from]. now rewrite H. Qed.

Lemma prefix_here p y : prefix p (p ++ y) = Some y.
Proof.
  induction p as [|a p IH]; [reflexivity|].
  cbn [app prefix]. unfold char_eqb. now rewrite N.eqb_refl.
Qed.

Lemma without_markers_json (t : str) :
  ~ In 96%N t -> without_markers (lit "```json" ++ t ++ lit "```") = t.
Proof.
  intros Ht. unfold without_markers, replace_all.
  rewrite (replace_from_match re_fence_marker [] _ _ (t ++ lit "```")).
  - cbn [app]. apply replace_markers_tail; [exact Ht|].
    rewrite !length_app. change (List.length (lit "```")) with 3. lia.
  - unfold re_fence_marker. now rewrite prefix_here.
Qed.

Lemma without_markers_other (a b c d : char) (t : str) :
  [a; b; c; d] <> lit "json" ->
  (a = 74 \/ a = 106)%N -> (b = 83 \/ b = 115)%N ->
  (c = 79 \/ c = 111)%N -> (d = 78 \/ d = 110)%N ->
  ~ In 96%N t ->
  without_markers (lit "```" ++ [a; b; c; d] ++ t ++ lit "```")
  = [a; b; c; d] ++ t.
Proof.
  intros Hne Ha Hb Hc Hd Ht. unfold without_markers, replace_all.
  rewrite (replace_from_match re_fence_marker [] _ _
             (([a; b; c; d] ++ t) ++ lit "```")).
  - cbn [app]. apply (replace_markers_tail (a :: b :: c :: d :: t)).
    + intros [F|[F|[F|[F|F]]]]; [| | | |now apply Ht];
        destruct Ha as [-> | ->], Hb as [-> | ->], Hc as [-> | ->],
                 Hd as [-> | ->]; discriminate.
    + simpl. rewrite ?length_app. simpl. lia.
  - destruct Ha as [-> | ->], Hb as [-> | ->], Hc as [-> | ->],
             Hd as [-> | ->]; try reflexivity.
    now destruct Hne.
Qed.

(** No JSON text starts with the letter J, in either case. *)
Lemma JSON_parse_letter a rest :
  (a = 74 \/ a = 106)%N -> exists e, JSON_parse (a :: rest) = Throw e.
Proof.
  intros [-> | ->]; unfold JSON_parse;
    change (2 * List.length (?x :: rest) + 2)
      with (S (List.length rest + (S (List.length rest) + 0) + 2));
    cbn; eauto.
Qed.

Lemma parse_or_null_letter a rest :
  (a = 74 \/ a = 106)%N -> parse_or_null (a :: rest) = Of JNull.
Proof.
  intros H. unfold parse_or_null.
  now destruct (JSON_parse_letter a rest H) as (e & ->).
Qed.

Lemma safeParseJson_block s e block :
  JSON_parse s = Throw e ->
  match match_first re_fence s with
  | Some found => Some found
  | None => match_first re_braces s
  end = Some block ->
  safeParseJson (Of (JStr s)) = Ok (parse_or_null (without_markers block)).
Proof.
  unfold safeParseJson, parse_or_null, without_markers.
  cbn [ToString json_ToString rbind].
  intros -> ->. now destruct (JSON_parse _).
Qed.

(** X17. A text that is not JSON itself and holds a block fenced by
    [```json] and [```], with no backtick before the block nor inside
    it, gives the value of the inside of the block, or [null] when the
    inside is not JSON. *)
Theorem safeParseJson_fenced (pre t post : str) (e : exn) :
  JSON_parse (fenced pre (lit "json") t post) = Throw e ->
  ~ In 96%N pre -> ~ In 96%N t ->
  safeParseJson (Of (JStr (fenced pre (lit "json") t post)))
  = Ok (parse_or_null t).
Proof.
  intros He Hpre Ht.
  rewrite (safeParseJson_block _ e (lit "```" ++ lit "json" ++ t ++ lit "```")
             He).
  - change (lit "```" ++ lit "json" ++ t ++ lit "```")
      with (lit "```json" ++ t ++ lit "```").
    now rewrite without_markers_json.
  - now rewrite match_first_fenced.
Qed.

Lemma safeParseJson_fenced_witness :
  safeParseJson
    (Of (JStr (fenced (lit "Here: ") (lit "json") (lit "[true]") (lit " Done."))))
  = Ok (Of (JArr [JBool true])).
Proof.
  rewrite (safeParseJson_fenced (lit "Here: ") (lit "[true]") (lit " Done.")
             (SyntaxError (lit "Unexpected token in JSON"))).
  - reflexivity.
  - vm_compute. reflexivity.
  - vm_compute. intuition discriminate.
  - vm_compute. intuition discriminate.
Defined.

(** X18. The expression that finds the fenced block ignores case, the
    one that removes the markers does not: when the label of the block
    is [json] in another case ([JSON], [Json], ...), the block is
    found, the label stays in front of its inside, and the result is
    [null], whatever the inside, the brace-delimited substring not
    being tried. *)
Theorem safeParseJson_label_case (pre label t post : str) (e : exn) :
  JSON_parse (fenced pre label t post) = Throw e ->
  ~ In 96%N pre -> ~ In 96%N t ->
  map upper label = lit "JSON" -> label <> lit "json" ->
  safeParseJson (Of (JStr (fenced pre label t post))) = Ok (Of JNull).
Proof.
  intros He Hpre Ht Hl Hne.
  rewrite (safeParseJson_block _ e (lit "```" ++ label ++ t ++ lit "```") He)
    by now rewrite match_first_fenced.
  destruct (label_letters label Hl) as (a & b & c & d & -> & Ha & Hb & Hc & Hd).
  rewrite without_markers_other by assumption.
  exact (f_equal Ok (parse_or_null_letter a (b :: c :: d :: t) Ha)).
Qed.

Lemma safeParseJson_label_case_witness :
  safeParseJson
    (Of (JStr (fenced [] (lit "JSON") (lit "{}") [])))
  = Ok (Of JNull)
  /\ JSON_parse (lit "{}") = Ok (JObj []).
Proof.
  split; [|reflexivity].
  apply (safeParseJson_label_case [] (lit "JSON") (lit "{}") []
           (SyntaxError (lit "Unexpected token in JSON"))).
  - vm_compute. reflexivity.
  - intros [].
  - vm_compute. intuition discriminate.
  - reflexivity.
  - discriminate.
Defined.

Lemma after_last_brace_absent s : ~ In 125%N s -> after_last_brace s = None.
Proof.
  induction s as [|c r IH]; intros H; [reflexivity|].
  cbn [after_last_brace]. rewrite IH by (intros F; apply H; now right).
  destruct (N.eqb_spec c 125); [|reflexivity].
  subst. destruct H. now left.
Qed.

Lemma after_last_brace_last x post :
  ~ In 125%N post -> after_last_brace (x ++ 125%N :: post) = Some post.
Proof.
  intros H. induction x as [|c x IH].
  - cbn [app after_last_brace]. now rewrite after_last_brace_absent.
  - cbn [app after_last_brace]. now rewrite IH.
Qed.

(** X19. In a text that is not JSON itself and holds no backtick, the
    block that is parsed goes from the first opening brace to the last
    closing brace of the text: what lies between two objects is part of
    it. *)
Theorem safeParseJson_braces (pre mid post : str) (e : exn) :
  JSON_parse (braced pre mid post) = Throw e ->
  ~ In 96%N (braced pre mid post) ->
  ~ In 123%N pre -> ~ In 125%N post ->
  safeParseJson (Of (JStr (braced pre mid post)))
  = Ok (parse_or_null ([123%N] ++ mid ++ [125%N])).
Proof.
  intros He Hb Hpre Hpost.
  assert (Hblock : ~ In 96%N ([123%N] ++ mid ++ [125%N])).
  { intros F. apply Hb. unfold braced. rewrite !in_app_iff in *. tauto. }
  rewrite (safeParseJson_block _ e ([123%N] ++ mid ++ [125%N]) He).
  - unfold without_markers.
    rewrite replace_all_no_match; [reflexivity|].
    now apply (has_match_absent re_fence_marker 96%N eq_refl
                 re_fence_marker_head).
  - rewrite (match_first_absent re_fence 96%N eq_refl re_fence_head)
      by exact Hb.
    unfold braced.
    rewrite (match_first_skip re_braces 123%N re_braces_head) by exact Hpre.
    assert (E : re_braces ([123%N] ++ mid ++ [125%N] ++ post) = Some post).
    { cbn [app re_braces]. rewrite N.eqb_refl.
      now apply after_last_brace_last. }
    etransitivity; [apply (match_first_found _ _ _ E)|]. f_equal.
    replace ([123%N] ++ mid ++ [125%N] ++ post)
      with (([123%N] ++ mid ++ [125%N]) ++ post)
      by (rewrite <- !app_assoc; reflexivity).
    apply firstn_matched.
Qed.

Lemma safeParseJson_braces_witness :
  safeParseJson (Of (JStr (braced (lit "One: ") (lit "} and {") (lit "."))))
  = Ok (Of JNull)
  /\ JSON_parse (lit "{}") = Ok (JObj []).
Proof.
  split; [|reflexivity].
  rewrite (safeParseJson_braces (lit "One: ") (lit "} and {") (lit ".")
             (SyntaxError (lit "Unexpected token in JSON"))).
  - reflexivity.
  - vm_compute. reflexivity.
  - vm_compute. intuition discriminate.
  - vm_compute. intuition discriminate.
  - vm_compute. intuition discriminate.
Defined.

(** ** Answers of the completion service *)

Lemma or_else_empty v : truthy_or_empty (or_else v (Of (JStr []))).
Proof.
  unfold or_else, truthy_or_empty. destruct (ToBoolean v) eqn:E; auto.
Qed.

(** Reading a property of a truthy value does not throw. *)
Lemma Get_truthy v k : ToBoolean v = true -> Get v k = Ok (GetOpt v k).
Proof.
  intros H. destruct v as [|j|]; try discriminate.
  - apply Get_not_null. intros ->. discriminate.
  - reflexivity.
Qed.

(** X20. A completion call that is answered with success and a body
    that is a JSON text other than [null] returns, whatever the shape
    of the JSON value: a truthy value (the text of the first content
    block for Anthropic, the content of the first choice's message for
    OpenAI) or the empty string. *)
Theorem completion_returns (env : environment) (prompt : str) (w : world)
        (r : response) (rest : list (option response)) (data : json) :
  answers w = Some r :: rest ->
  ok r = true ->
  JSON_parse (body r) = Ok data ->
  data <> JNull ->
  (ToBoolean (env_value (ANTHROPIC_API_KEY env)) = true ->
   exists raw, fst (callAnthropic env prompt w) = Ok raw
               /\ truthy_or_empty raw)
  /\ (ToBoolean (env_value (OPENAI_API_KEY env)) = true ->
      exists raw, fst (callOpenAI env prompt w) = Ok raw
                  /\ truthy_or_empty raw).
Proof.
  intros Hw Hr Hdata Hnull. split; intros Hkey.
  - unfold callAnthropic.
    destruct (ANTHROPIC_API_KEY env) as [[|c k]|]; try discriminate.
    unfold bind at 1, fetch. rewrite Hw, Hr. cbn [negb].
    unfold bind at 1, json_of, lift at 1. rewrite Hdata.
    unfold bind at 1, lift at 1. rewrite (Get_not_null data _ Hnull).
    set (content := GetOpt (Of data) (lit "content")).
    unfold bind at 1, lift at 1.
    assert (Hfirst : exists first,
               (if ToBoolean content then Get content (lit "0") else Ok content)
               = Ok first).
    { destruct (ToBoolean content) eqn:E; [|eauto].
      rewrite (Get_truthy _ _ E). eauto. }
    destruct Hfirst as (first & ->).
    unfold bind at 1, lift at 1.
    assert (Htext : exists text,
               (if ToBoolean first then Get first (lit "text") else Ok first)
               = Ok text).
    { destruct (ToBoolean first) eqn:E; [|eauto].
      rewrite (Get_truthy _ _ E). eauto. }
    destruct Htext as (text & ->).
    eexists. split; [reflexivity | apply or_else_empty].
  - unfold callOpenAI.
    destruct (OPENAI_API_KEY env) as [[|c k]|]; try discriminate.
    unfold bind at 1, fetch. rewrite Hw, Hr. cbn [negb].
    unfold bind at 1, json_of, lift at 1. rewrite Hdata.
    unfold bind at 1, lift at 1. rewrite (Get_not_null data _ Hnull).
    eexists. split; [reflexivity | apply or_else_empty].
Qed.

Lemma completion_returns_witness :
  fst (callOpenAI an_openai_environment (lit "plan")
         {| answers := [Some an_empty_object]; log := [] |})
  = Ok (Of (JStr [])).
Proof.
  destruct (proj2 (completion_returns an_openai_environment (lit "plan")
                     {| answers := [Some an_empty_object]; log := [] |}
                     an_empty_object [] (JObj [])
                     eq_refl eq_refl eq_refl ltac:(discriminate))
              eq_refl) as (raw & E & _).
  rewrite E. vm_compute in E. injection E as <-. reflexivity.
Defined.

(** ** From the fallback to the prompt *)

Lemma wikipedia_result_printable results pages :
  Forall wikipedia_result results ->
  Forall (fetched_from results) pages ->
  Forall printable pages.
Proof.
  intros Hr Hp. eapply Forall_impl; [|exact Hp].
  intros p [(r & Hin & Ht & Hu) _].
  rewrite Forall_forall in Hr.
  destruct (Hr r Hin) as (title & name & snippet & E1 & E2 & _).
  split; unfold coercible.
  - rewrite Ht, E1. simpl. eauto.
  - rewrite Hu, E2. simpl. eauto.
Qed.

(** X21. Without a search credential, building the prompt cannot fail:
    the titles and the links of the fallback are strings, the pages
    carry them, and the prompt prints them.  The steps of a valid
    request that can fail are then the completion call, the extraction
    and the normalization. *)
Theorem prompt_of_fallback (f : source_file) (env : environment) (task : str)
        (w w' : world) (pages : list Page.t) :
  ToBoolean (env_value (SERPAPI_API_KEY env)) = false ->
  researched f env task w pages w' ->
  exists prompt, buildPrompt f task pages = Ok prompt.
Proof.
  intros Hkey (results & w1 & E1 & E2).
  assert (Hr : Forall wikipedia_result results).
  { rewrite webSearch_unconfigured in E1
      by (destruct (SERPAPI_API_KEY env) as [[|c k]|]; auto; discriminate).
    unfold fallback, try_catch in E1.
    destruct (wikipedia_search task w) as [[rs|e] w0] eqn:S.
    - injection E1 as <- <-. eapply wikipedia_search_results; eauto.
    - apply ret_Ok in E1 as [-> _]. constructor. }
  assert (Hp : Forall (fetched_from results) pages).
  { destruct results as [|r results].
    - apply ret_Ok in E2 as [-> _]. constructor.
    - unfold fetchPages in E2.
      destruct (fetch_each_spec (r :: results) [] w1) as (more & E & _ & H).
      rewrite E in E2. injection E2 as <- _. exact H. }
  apply prompt_of_printable. apply Forall_firstn_of.
  eapply wikipedia_result_printable; eauto.
Qed.

Lemma prompt_of_fallback_witness :
  exists prompt,
    buildPrompt api_research_breakdown (lit "party")
      [{| Page.title := Of (jstr "Party");
          Page.url := Of (jstr "https://en.wikipedia.org/wiki/Party");
          Page.text := lit "Hello world" |}]
    = Ok prompt.
Proof.
  apply (prompt_of_fallback api_research_breakdown an_environment (lit "party")
           {| answers := [Some (wikipedia_reply [hit "Party" "a"]);
                          Some (a_page "<p>Hello   world</p>")];
              log := [] |}
           {| answers := [];
              log := [GET (wikipedia_url (lit "party"));
                      GET_follow (Of (jstr "https://en.wikipedia.org/wiki/Party"))] |}).
  - reflexivity.
  - exists [result_of "Party" "https://en.wikipedia.org/wiki/Party" "a"],
           {| answers := [Some (a_page "<p>Hello   world</p>")];
              log := [GET (wikipedia_url (lit "party"))] |}.
    split; vm_compute; reflexivity.
Defined.

(** ** Errors in the multi-query phase (claim C5) *)

(** The loop over [qs1 ++ qs2] is the loop over [qs1], then the loop
    over [qs2] with the results so far, unless the first one throws. *)
Lemma search_each_app apiKey qs1 qs2 : forall allResults w,
  search_each apiKey (qs1 ++ qs2) allResults w
  = (found <- search_each apiKey qs1 allResults ;;
     search_each apiKey qs2 found) w.
Proof.
  induction qs1 as [|query qs1 IH]; intros allResults w; [reflexivity|].
  unfold bind in IH. cbn [app search_each]. unfold bind, json_of, lift, fetch.
  destruct (encodeURIComponent query) as [q|e]; [|reflexivity].
  destruct (answers w) as [|[res|] rest]; try reflexivity.
  destruct (ok res); [|apply IH].
  destruct (JSON_parse (body res)) as [data|e]; [|reflexivity].
  destruct (Get (Of data) (lit "organic_results")) as [found|e]; [|reflexivity].
  destruct (array_map organic_result (or_else found (Of (JArr []))))
    as [results|e]; [|reflexivity].
  apply IH.
Qed.

(** A query that raises an error ends the loop: what follows it is not
    issued. *)
Lemma search_each_raises apiKey query more allResults q w e :
  encodeURIComponent query = Ok q ->
  raises w e ->
  search_each apiKey (query :: more) allResults w
  = (Throw e, after_query apiKey q w).
Proof.
  intros Hq Hr. cbn [search_each]. unfold bind at 1, lift at 1. rewrite Hq.
  unfold bind at 1, fetch, after_query.
  destruct Hr as [[-> Hr] | (r & rest & Hw & Hok & Hbody)].
  - destruct (answers w) as [|[r|] rest]; try reflexivity.
    now destruct (Hr r rest).
  - rewrite Hw, Hok. cbn [tl]. unfold bind, json_of, lift.
    destruct Hbody as [-> | (data & -> & [-> | (found & -> & ->)])];
      reflexivity.
Qed.

(** C5, amended: no error of the research ever reaches the caller.  A
    query answered with a non-success status counts for zero results and
    the remaining queries are still issued, with the results so far.  A
    network or parse error raised by a query ends the multi-query phase
    at that query: the queries after it are not issued, the results of
    the queries before it are dropped, and the fallback is taken in the
    world that query left.  The fallback is taken exactly when the
    search provider is not configured, when a query raised an error, or
    when the queries gave no result. *)
Theorem webSearch_error_policy (env : environment) (task : str) (w : world) :
  (forall f, exists results w', webSearch f env task w = (Ok results, w'))
  /\ (forall apiKey query more allResults q r rest lg,
        encodeURIComponent query = Ok q ->
        ok r = false ->
        search_each apiKey (query :: more) allResults
                    {| answers := Some r :: rest; log := lg |}
        = search_each apiKey more allResults
                      {| answers := rest;
                         log := lg ++ [GET (serpapi_url q (lit "3") apiKey)] |})
  /\ (forall apiKey before query more allResults found w0 w1 q e,
        search_each apiKey before allResults w0 = (Ok found, w1) ->
        encodeURIComponent query = Ok q ->
        raises w1 e ->
        search_each apiKey (before ++ query :: more) allResults w0
        = (Throw e, after_query apiKey q w1))
  /\ (forall apiKey before query more found w1 q e,
        SERPAPI_API_KEY env = Some apiKey -> apiKey <> [] ->
        searchQueries task = before ++ query :: more ->
        search_each apiKey before [] w = (Ok found, w1) ->
        encodeURIComponent query = Ok q ->
        raises w1 e ->
        webSearch api_research_breakdown env task w
        = fallback task (after_query apiKey q w1))
  /\ (forall apiKey,
        SERPAPI_API_KEY env = Some apiKey -> apiKey <> [] ->
        match search_each apiKey (searchQueries task) [] w with
        | (Throw _, w1) =>
          webSearch api_research_breakdown env task w = fallback task w1
        | (Ok allResults, w1) =>
          match uniqueResults allResults with
          | [] => webSearch api_research_breakdown env task w = fallback task w1
          | unique =>
            webSearch api_research_breakdown env task w
            = (Ok (firstn 8 unique), w1)
          end
        end)
  /\ (SERPAPI_API_KEY env = None \/ SERPAPI_API_KEY env = Some [] ->
      webSearch api_research_breakdown env task w = fallback task w).
Proof.
  assert (Habort : forall apiKey before query more allResults found w0 w1 q e,
             search_each apiKey before allResults w0 = (Ok found, w1) ->
             encodeURIComponent query = Ok q ->
             raises w1 e ->
             search_each apiKey (before ++ query :: more) allResults w0
             = (Throw e, after_query apiKey q w1)).
  { intros apiKey before query more allResults found w0 w1 q e Hb Hq Hr.
    rewrite search_each_app. unfold bind. rewrite Hb.
    now apply search_each_raises. }
  split; [|split; [|split; [|split; [|split]]]].
  - intros f. destruct (webSearch_total f env task w) as (rs & w' & H & _).
    eauto.
  - intros. now apply search_each_skips_failed_status.
  - exact Habort.
  - intros apiKey before query more found w1 q e Hkey Hne Hqs Hb Hq Hr.
    pose proof (webSearch_after_queries env task w apiKey Hkey Hne) as H.
    rewrite Hqs in H.
    now rewrite (Habort apiKey before query more [] found w w1 q e Hb Hq Hr)
      in H.
  - intros. now apply webSearch_after_queries.
  - apply webSearch_unconfigured.
Qed.

(** An instance of the two policies: of five queries the one that is
    answered with success gives the result; and after a first query that
    is answered, a second one that finds the network down sends the
    research to the fallback, where the first query left it but for the
    failed request. *)
Lemma webSearch_error_policy_witness :
  fst (webSearch api_research_breakdown a_configured_environment (lit "plan")
         one_query_answered)
  = Ok [result_of "Guide" "https://example.org/guide" empty]
  /\ webSearch api_research_breakdown a_configured_environment (lit "plan")
       a_failure_after_a_result
     = fallback (lit "plan")
         (after_query (lit "serp-key") (lit "plan%20best%20practices%20tutorial")
            after_the_first_query).
Proof.
  split.
  - remember (webSearch api_research_breakdown a_configured_environment _ _)
      as run eqn:Erun.
    pose proof
      (proj1 (proj2 (proj2 (proj2 (proj2
         (webSearch_error_policy a_configured_environment (lit "plan")
            one_query_answered)))))
         (lit "serp-key") eq_refl ltac:(discriminate)) as H.
    rewrite <- Erun in H. vm_compute in H. rewrite H. reflexivity.
  - apply (proj1 (proj2 (proj2 (proj2
             (webSearch_error_policy a_configured_environment (lit "plan")
                a_failure_after_a_result))))
             (lit "serp-key")
             [lit "plan step by step guide 2024"]
             (lit "plan best practices tutorial")
             [lit "plan implementation checklist";
              lit "plan project requirements breakdown";
              lit "plan development roadmap"]
             [result_of "Guide" "https://example.org/guide" empty]
             after_the_first_query
             (lit "plan%20best%20practices%20tutorial")
             (TypeError (lit "fetch failed"))).
    + reflexivity.
    + discriminate.
    + vm_compute. reflexivity.
    + vm_compute. reflexivity.
    + vm_compute. reflexivity.
    + left. split; [reflexivity|]. intros r rest. discriminate.
Defined.

(** ** What the extraction finds (claim C4) *)

(** *** Lists cut at the same place *)

Lemma app_same_length {A} (a b x y : list A) :
  a ++ x = b ++ y -> List.length a = List.length b -> a = b /\ x = y.
Proof.
  revert b. induction a as [|c a IH]; intros [|d b] H L; try discriminate.
  - now split.
  - injection H as -> H. injection L as L.
    destruct (IH b H L) as [-> ->]. now split.
Qed.

Lemma app_eq_shorter {A} (c : A) (a b x y : list A) :
  a ++ c :: x = b ++ y -> List.length a < List.length b -> In c b.
Proof.
  revert b. induction a as [|d a IH]; intros [|e b] H L;
    try (simpl in L; lia).
  - injection H as -> _. now left.
  - injection H as _ H. right. apply (IH b H). simpl in L. lia.
Qed.

(** *** What the expressions match *)

Lemma prefix_ci_Some p : forall s r : str,
  prefix_ci p s = Some r
  <-> exists o, s = o ++ r /\ map upper o = map upper p.
Proof.
  induction p as [|x p IH]; intros s r; cbn [prefix_ci].
  - split.
    + intros [= ->]. now exists [].
    + intros (o & -> & H). destruct o; [reflexivity | discriminate].
  - destruct s as [|y s].
    + split; [discriminate|]. intros ([|c o] & H & Ho); discriminate.
    + unfold char_eqb. destruct (N.eqb_spec (upper x) (upper y)) as [E|E].
      * rewrite IH. split.
        -- intros (o & -> & Ho). exists (y :: o). split; [reflexivity|].
           cbn [map]. now rewrite E, Ho.
        -- intros ([|c o] & H & Ho); [discriminate|].
           injection H as -> ->. injection Ho as _ Ho. now exists o.
      * split; [discriminate|]. intros ([|c o] & H & Ho); [discriminate|].
        injection H as -> _. injection Ho as Ho _. congruence.
Qed.

Lemma prefix_Some p : forall s r : str, prefix p s = Some r <-> s = p ++ r.
Proof.
  induction p as [|x p IH]; intros s r; cbn [prefix app].
  - split; [now intros [= ->] | now intros ->].
  - destruct s as [|y s]; [split; discriminate|].
    unfold char_eqb. destruct (N.eqb_spec x y) as [E|E].
    + rewrite IH. split; [intros ->; now rewrite E | now intros [= _ ->]].
    + split; [discriminate | intros [= <- _]; congruence].
Qed.

Lemma find_ci_Some p : forall s r : str,
  find_ci p s = Some r ->
  exists x o : str,
    s = x ++ o ++ r /\ map upper o = map upper p
    /\ forall x' o' r' : str,
         s = x' ++ o' ++ r' -> map upper o' = map upper p ->
         List.length x <= List.length x'.
Proof.
  assert (Here : forall s r, prefix_ci p s = Some r ->
            exists x o : str,
              s = x ++ o ++ r /\ map upper o = map upper p
              /\ forall x' o' r' : str,
                   s = x' ++ o' ++ r' -> map upper o' = map upper p ->
                   List.length x <= List.length x').
  { intros s r E. apply prefix_ci_Some in E as (o & E & Ho).
    exists [], o. repeat split; auto. intros. simpl. lia. }
  induction s as [|c s IH]; intros r; cbn [find_ci].
  - destruct (prefix_ci p []) eqn:E; [|discriminate].
    intros [= ->]. now apply Here.
  - destruct (prefix_ci p (c :: s)) eqn:E.
    + intros [= ->]. now apply Here.
    + intros H. apply IH in H as (x & o & -> & Ho & Hmin).
      exists (c :: x), o. split; [reflexivity|]. split; [exact Ho|].
      intros [|c' x'] o' r' H' Ho'.
      * exfalso.
        assert (F : prefix_ci p (c :: x ++ o ++ r) = Some r')
          by (apply prefix_ci_Some; now exists o').
        congruence.
      * injection H' as _ H'. simpl. apply le_n_S. eapply Hmin; eauto.
Qed.

Lemma find_ci_None p : forall s : str,
  find_ci p s = None ->
  forall x o r : str, s = x ++ o ++ r -> map upper o <> map upper p.
Proof.
  induction s as [|c s IH]; cbn [find_ci];
    destruct (prefix_ci p _) eqn:E; try discriminate;
    intros H [|c' x] o r Hs Ho; try discriminate.
  - assert (F : prefix_ci p [] = Some r)
      by (apply prefix_ci_Some; now exists o).
    congruence.
  - assert (F : prefix_ci p (c :: s) = Some r)
      by (apply prefix_ci_Some; now exists o).
    congruence.
  - injection Hs as _ Hs. exact (IH H x o r Hs Ho).
Qed.

Lemma upper_marker (o : str) : map upper o = lit "```" -> o = lit "```".
Proof.
  change (lit "```") with [96; 96; 96]%N.
  destruct o as [|a [|b [|c [|]]]]; try discriminate.
  cbn [map]. intros [= Ha Hb Hc].
  apply upper_backtick in Ha, Hb, Hc. now subst.
Qed.

Lemma opens_fence_length (o : str) : opens_fence o -> List.length o = 7.
Proof.
  intros H. apply (f_equal (@List.length _)) in H.
  now rewrite length_map in H.
Qed.

(** The opening of a fence is the marker and a label. *)
Lemma opens_fence_label (o : str) :
  opens_fence o ->
  exists label, o = lit "```" ++ label /\ map upper label = lit "JSON".
Proof.
  unfold opens_fence. change (lit "```JSON") with ([96; 96; 96]%N ++ lit "JSON").
  destruct o as [|a [|b [|c label]]]; try discriminate.
  cbn [map app]. intros [= Ha Hb Hc Hl].
  apply upper_backtick in Ha, Hb, Hc. subst. now exists label.
Qed.

Lemma re_fence_Some (t rest : str) :
  re_fence t = Some rest ->
  exists o inner : str,
    t = o ++ inner ++ lit "```" ++ rest /\ opens_fence o
    /\ forall o' inner' post' : str,
         t = o' ++ inner' ++ lit "```" ++ post' -> opens_fence o' ->
         List.length inner <= List.length inner'.
Proof.
  unfold re_fence. destruct (prefix_ci _ t) as [r|] eqn:E; [|discriminate].
  intros H. apply prefix_ci_Some in E as (o & -> & Ho).
  apply find_ci_Some in H as (x & c & -> & Hc & Hmin).
  apply upper_marker in Hc. subst c.
  exists o, x. split; [reflexivity|]. split; [exact Ho|].
  intros o' inner' post' H Ho'.
  apply app_same_length in H as [_ H].
  - now apply (Hmin inner' (lit "```") post').
  - now rewrite (opens_fence_length o Ho), (opens_fence_length o' Ho').
Qed.

Lemma re_fence_None (t : str) :
  re_fence t = None ->
  forall o inner post : str,
    t = o ++ inner ++ lit "```" ++ post -> ~ opens_fence o.
Proof.
  unfold re_fence. intros H o inner post -> Ho.
  assert (E : prefix_ci (lit "```json") (o ++ inner ++ lit "```" ++ post)
              = Some (inner ++ lit "```" ++ post))
    by (apply prefix_ci_Some; now exists o).
  rewrite E in H.
  now apply (find_ci_None _ _ H inner (lit "```") post).
Qed.

(** What [match] finds with the fence expression is the first fenced
    block. *)
Lemma first_fence_found : forall s b : str,
  match_first re_fence s = Some b ->
  exists pre o inner post : str,
    first_fence s pre o inner post /\ b = o ++ inner ++ lit "```".
Proof.
  induction s as [|c s IH]; intros b.
  - cbn [match_first]. change (re_fence []) with (@None str). discriminate.
  - destruct (re_fence (c :: s)) as [rest|] eqn:E.
    + rewrite (match_first_found _ _ _ E). intros H.
      assert (Hb : b = firstn (List.length (c :: s) - List.length rest)
                          (c :: s)) by congruence.
      clear H. apply re_fence_Some in E as (o & inner & E & Ho & Hmin).
      exists [], o, inner, rest. split.
      * split; [now split|].
        intros [|c' pre'] o' inner' post' [H Ho']; [right | left; simpl; lia].
        split; [reflexivity|]. now apply (Hmin o' inner' post').
      * rewrite E in Hb.
        replace (o ++ inner ++ lit "```" ++ rest)
          with ((o ++ inner ++ lit "```") ++ rest) in Hb
          by now rewrite <- !app_assoc.
        now rewrite firstn_matched in Hb.
    + cbn [match_first]. rewrite E. intros H.
      apply IH in H as (pre & o & inner & post & [[Hs Ho] Hmin] & ->).
      exists (c :: pre), o, inner, post. split; [|reflexivity]. split.
      * split; [now rewrite Hs | exact Ho].
      * intros [|c' pre'] o' inner' post' [H Ho'].
        -- now destruct (re_fence_None _ E o' inner' post' H).
        -- injection H as _ H.
           destruct (Hmin pre' o' inner' post' (conj H Ho')) as [L | [L1 L2]];
             [left | right]; simpl; lia.
Qed.

Lemma no_fence_found : forall s : str,
  match_first re_fence s = None -> no_fence s.
Proof.
  induction s as [|c s IH]; cbn [match_first];
    destruct (re_fence _) eqn:E; try discriminate;
    intros H [|c' pre] o inner post [Hs Ho]; try discriminate.
  - now destruct (re_fence_None _ E o inner post Hs).
  - now destruct (re_fence_None _ E o inner post Hs).
  - injection Hs as _ Hs. now apply (IH H pre o inner post).
Qed.

(** There is one first fenced block, at most. *)
Lemma first_fence_unique (s pre o inner post pre' o' inner' post' : str) :
  first_fence s pre o inner post -> first_fence s pre' o' inner' post' ->
  pre = pre' /\ o = o' /\ inner = inner' /\ post = post'.
Proof.
  intros [[Hs Ho] Hmin] [[Hs' Ho'] Hmin'].
  assert (L : List.length pre = List.length pre'
              /\ List.length inner = List.length inner').
  { destruct (Hmin _ _ _ _ (conj Hs' Ho')) as [L|[L1 L2]],
             (Hmin' _ _ _ _ (conj Hs Ho)) as [L'|[L1' L2']]; lia. }
  destruct L as [L1 L2]. rewrite Hs in Hs'.
  apply app_same_length in Hs' as [-> Hs']; [|exact L1].
  apply app_same_length in Hs' as [-> Hs'];
    [|now rewrite (opens_fence_length o Ho), (opens_fence_length o' Ho')].
  apply app_same_length in Hs' as [-> Hs']; [|exact L2].
  apply app_inv_head in Hs'. now subst.
Qed.

Lemma match_first_fence (s pre o inner post : str) :
  first_fence s pre o inner post ->
  match_first re_fence s = Some (o ++ inner ++ lit "```").
Proof.
  intros H. destruct (match_first re_fence s) as [b|] eqn:E.
  - apply first_fence_found in E as (pre' & o' & inner' & post' & H' & ->).
    now destruct (first_fence_unique _ _ _ _ _ _ _ _ _ H H')
      as (_ & -> & -> & _).
  - apply no_fence_found in E. now destruct (E pre o inner post (proj1 H)).
Qed.

Lemma match_first_no_fence (s : str) :
  no_fence s -> match_first re_fence s = None.
Proof.
  intros H. destruct (match_first re_fence s) as [b|] eqn:E; [|reflexivity].
  apply first_fence_found in E as (pre & o & inner & post & [F _] & _).
  now destruct (H pre o inner post).
Qed.

(** A fenced block with no backtick before it nor inside it is the
    first one. *)
Lemma first_fence_plain (pre o inner post : str) :
  opens_fence o -> ~ In 96%N pre -> ~ In 96%N inner ->
  first_fence (pre ++ o ++ inner ++ lit "```" ++ post) pre o inner post.
Proof.
  intros Ho Hpre Hinner. split; [now split|].
  intros pre' o' inner' post' [H Ho'].
  destruct (opens_fence_label o' Ho') as (label' & -> & _).
  destruct (Nat.lt_trichotomy (List.length pre) (List.length pre'))
    as [L|[L|L]]; [now left | right | exfalso].
  - split; [exact L|].
    apply app_same_length in H as [_ H]; [|exact L].
    apply app_same_length in H as [_ H];
      [|now rewrite (opens_fence_length o Ho), (opens_fence_length _ Ho')].
    destruct (Nat.le_gt_cases (List.length inner) (List.length inner'))
      as [L'|L']; [exact L'|exfalso].
    apply Hinner. symmetry in H.
    exact (app_eq_shorter 96%N inner' inner _ _ H L').
  - apply Hpre. symmetry in H.
    exact (app_eq_shorter 96%N pre' pre _ _ H L).
Qed.

Lemma after_last_brace_None (s : str) :
  after_last_brace s = None -> ~ In 125%N s.
Proof.
  induction s as [|c r IH]; cbn [after_last_brace In]; [tauto|].
  destruct (after_last_brace r); [discriminate|].
  destruct (N.eqb_spec c 125); [discriminate|].
  intros _ [F|F]; [congruence | now apply IH].
Qed.

Lemma after_last_brace_Some : forall s post : str,
  after_last_brace s = Some post ->
  exists x, s = x ++ [125%N] ++ post /\ ~ In 125%N post.
Proof.
  induction s as [|c r IH]; intros post; cbn [after_last_brace];
    [discriminate|].
  destruct (after_last_brace r) as [rest|] eqn:E.
  - intros [= ->]. destruct (IH post eq_refl) as (x & -> & H).
    now exists (c :: x).
  - destruct (N.eqb_spec c 125); [|discriminate]. intros [= ->]. subst c.
    exists []. split; [reflexivity | now apply after_last_brace_None].
Qed.

Lemma match_first_no_closing (s : str) :
  ~ In 125%N s -> match_first re_braces s = None.
Proof.
  induction s as [|c s IH]; intros H; [reflexivity|].
  cbn [match_first re_braces].
  rewrite after_last_brace_absent by (intros F; apply H; now right).
  destruct (c =? 123)%N; apply IH; intros F; apply H; now right.
Qed.

(** What [match] finds with the brace expression goes from the first
    opening brace to the last closing brace. *)
Lemma braces_found : forall s b : str,
  match_first re_braces s = Some b ->
  exists pre mid post : str,
    braces_at s pre mid post /\ b = [123%N] ++ mid ++ [125%N].
Proof.
  induction s as [|c s IH]; intros b; [discriminate|].
  destruct (re_braces (c :: s)) as [rest|] eqn:E.
  - rewrite (match_first_found _ _ _ E). intros H.
    assert (Hb : b = firstn (List.length (c :: s) - List.length rest)
                        (c :: s)) by congruence.
    clear H. cbn [re_braces] in E.
    destruct (N.eqb_spec c 123) as [Hc|]; [|discriminate].
    apply after_last_brace_Some in E as (x & Hs & Hp).
    assert (R : c :: s = ([123%N] ++ x ++ [125%N]) ++ rest)
      by (rewrite Hs, Hc, <- !app_assoc; reflexivity).
    rewrite R, firstn_matched in Hb.
    exists [], x, rest. split; [|exact Hb].
    split; [now rewrite Hs, Hc|]. split; [intros [] | exact Hp].
  - cbn [match_first]. rewrite E. intros H.
    destruct (N.eqb_spec c 123) as [->|Hc].
    + cbn [re_braces] in E. rewrite N.eqb_refl in E.
      apply after_last_brace_None in E.
      rewrite match_first_no_closing in H by exact E. discriminate.
    + apply IH in H as (pre & mid & post & (-> & Hpre & Hpost) & ->).
      exists (c :: pre), mid, post. split; [|reflexivity].
      split; [reflexivity|]. split; [|exact Hpost].
      intros [F|F]; [congruence | auto].
Qed.

Lemma no_braces_found : forall s : str,
  match_first re_braces s = None -> no_braces s.
Proof.
  induction s as [|c s IH]; cbn [match_first].
  - intros _ [|c pre] mid post; discriminate.
  - destruct (re_braces (c :: s)) eqn:E; [discriminate|].
    intros H [|c' pre] mid post Hs.
    + injection Hs as -> Hs. cbn [re_braces] in E. rewrite N.eqb_refl in E.
      apply after_last_brace_None in E. apply E. rewrite Hs.
      apply in_or_app. right. now left.
    + injection Hs as _ Hs. exact (IH H pre mid post Hs).
Qed.

Lemma match_first_braces (s pre mid post : str) :
  braces_at s pre mid post ->
  match_first re_braces s = Some ([123%N] ++ mid ++ [125%N]).
Proof.
  intros (-> & Hpre & Hpost).
  rewrite (match_first_skip re_braces 123%N re_braces_head) by exact Hpre.
  assert (E : re_braces ([123%N] ++ mid ++ [125%N] ++ post) = Some post).
  { cbn [app re_braces]. rewrite N.eqb_refl.
    now apply after_last_brace_last. }
  etransitivity; [apply (match_first_found _ _ _ E)|]. f_equal.
  replace ([123%N] ++ mid ++ [125%N] ++ post)
    with (([123%N] ++ mid ++ [125%N]) ++ post)
    by (rewrite <- !app_assoc; reflexivity).
  apply firstn_matched.
Qed.

Lemma match_first_no_braces (s : str) :
  no_braces s -> match_first re_braces s = None.
Proof.
  intros H. destruct (match_first re_braces s) as [b|] eqn:E; [|reflexivity].
  apply braces_found in E as (pre & mid & post & (F & _) & _).
  now destruct (H pre mid post).
Qed.

(** *** Deleting the markers *)

Lemma re_fence_marker_Some (s rest : str) :
  re_fence_marker s = Some rest ->
  s = lit "```json" ++ rest
  \/ (s = lit "```" ++ rest /\ forall t, rest <> lit "json" ++ t).
Proof.
  unfold re_fence_marker. destruct (prefix (lit "```json") s) as [r|] eqn:E.
  - intros [= ->]. left. now apply prefix_Some.
  - intros H. apply prefix_Some in H. right. split; [exact H|].
    intros t ->. subst s.
    assert (F : prefix (lit "```json") (lit "```" ++ lit "json" ++ t) = Some t)
      by now apply prefix_Some.
    congruence.
Qed.

Lemma re_fence_marker_None (s : str) :
  re_fence_marker s = None -> forall t, s <> lit "```" ++ t.
Proof.
  unfold re_fence_marker. destruct (prefix (lit "```json") s); [discriminate|].
  intros H t ->. rewrite prefix_here in H. discriminate.
Qed.

Lemma re_fence_marker_long (s : str) :
  re_fence_marker (lit "```json" ++ s) = Some s.
Proof. unfold re_fence_marker. now rewrite prefix_here. Qed.

Lemma re_fence_marker_short (s : str) :
  (forall t, s <> lit "json" ++ t) ->
  re_fence_marker (lit "```" ++ s) = Some s.
Proof.
  intros H. unfold re_fence_marker.
  destruct (prefix (lit "```json") (lit "```" ++ s)) as [r|] eqn:E.
  - apply prefix_Some in E. destruct (H r).
    change (lit "```json" ++ r) with (lit "```" ++ lit "json" ++ r) in E.
    now apply app_inv_head in E.
  - apply prefix_here.
Qed.

Lemma re_fence_marker_keep (c : char) (s : str) :
  (forall t, c :: s <> lit "```" ++ t) -> re_fence_marker (c :: s) = None.
Proof.
  intros H. destruct (re_fence_marker (c :: s)) as [r|] eqn:E; [|reflexivity].
  apply re_fence_marker_Some in E as [E|[E _]].
  - now destruct (H (lit "json" ++ r)).
  - now destruct (H r).
Qed.

Lemma replace_from_keep m rep fuel (c : char) (s : str) :
  m (c :: s) = None ->
  replace_from m rep (S fuel) (c :: s) = c :: replace_from m rep fuel s.
Proof. intros H. cbn [replace_from]. now rewrite H. Qed.

Lemma markers_deleted_replace : forall fuel (s : str),
  List.length s < fuel ->
  markers_deleted s (replace_from re_fence_marker [] fuel s).
Proof.
  induction fuel as [|fuel IH]; intros s L; [lia|].
  destruct (re_fence_marker s) as [rest|] eqn:E.
  - rewrite (replace_from_match _ _ _ _ _ E). cbn [app].
    apply re_fence_marker_Some in E as [-> | [-> Hn]].
    + apply deleted_long, IH. rewrite length_app in L.
      change (List.length (lit "```json")) with 7 in L. lia.
    + apply deleted_short; [exact Hn|]. apply IH.
      rewrite length_app in L.
      change (List.length (lit "```")) with 3 in L. lia.
  - destruct s as [|c s].
    + cbn [replace_from]. rewrite E. constructor.
    + rewrite (replace_from_keep _ _ _ _ _ E).
      apply deleted_keep; [now apply re_fence_marker_None|].
      apply IH. simpl in L. lia.
Qed.

Lemma markers_deleted_unique (s out : str) :
  markers_deleted s out ->
  forall fuel, List.length s < fuel ->
    replace_from re_fence_marker [] fuel s = out.
Proof.
  induction 1 as [|s out H IH|s out Hn H IH|c s out Hn H IH];
    intros [|fuel] L; try lia.
  - reflexivity.
  - rewrite (replace_from_match _ _ _ _ _ (re_fence_marker_long s)).
    apply IH. rewrite length_app in L.
    change (List.length (lit "```json")) with 7 in L. lia.
  - rewrite (replace_from_match _ _ _ _ _ (re_fence_marker_short s Hn)).
    apply IH. rewrite length_app in L.
    change (List.length (lit "```")) with 3 in L. lia.
  - rewrite (replace_from_keep _ _ _ _ _ (re_fence_marker_keep c s Hn)).
    f_equal. apply IH. simpl in L. lia.
Qed.

(** [without_markers] deletes the markers, and nothing else does. *)
Lemma without_markers_deleted (block out : str) :
  markers_deleted block out <-> out = without_markers block.
Proof.
  unfold without_markers, replace_all. split.
  - intros H. symmetry. apply (markers_deleted_unique _ _ H). lia.
  - intros ->. apply markers_deleted_replace. lia.
Qed.

Lemma first_fence_closes (s pre o inner post : str) :
  first_fence s pre o inner post -> closes_first inner.
Proof.
  intros [[Hs Ho] Hmin] x y E.
  destruct (Hmin pre o x (y ++ post)) as [L|[_ L]]; [|lia|exact L].
  split; [|exact Ho]. rewrite Hs. do 2 f_equal.
  now rewrite (app_assoc inner), E, <- !app_assoc.
Qed.

Lemma closes_first_cons (c : char) (t : str) :
  c <> 96%N -> closes_first t -> closes_first (c :: t).
Proof.
  intros Hc H [|d x] y E.
  - change (lit "```") with [96; 96; 96]%N in E. injection E as E _.
    contradiction.
  - injection E as _ E. simpl. apply le_n_S. exact (H x y E).
Qed.

Lemma closes_first_tail (c : char) (t : str) :
  closes_first (c :: t) -> closes_first t.
Proof.
  intros H x y E. apply le_S_n, (H (c :: x) y). cbn [app]. now rewrite E.
Qed.

Lemma markers_deleted_closing (t : str) :
  closes_first t -> markers_deleted (t ++ lit "```") t.
Proof.
  induction t as [|c t IH]; intros H.
  - apply (deleted_short [] []); [discriminate | constructor].
  - cbn [app]. apply deleted_keep.
    + intros y E. specialize (H [] y E). simpl in H. lia.
    + apply IH. eapply closes_first_tail; eauto.
Qed.

(** With the label in lower case the markers go and the inside stays. *)
Lemma without_markers_inner (inner : str) :
  closes_first inner ->
  without_markers (lit "```json" ++ inner ++ lit "```") = inner.
Proof.
  intros H. symmetry. apply without_markers_deleted.
  now apply deleted_long, markers_deleted_closing.
Qed.

(** With the label in another case the label stays, and no JSON text
    starts with it. *)
Lemma without_markers_label (o inner : str) :
  opens_fence o -> o <> lit "```json" -> closes_first inner ->
  parse_or_null (without_markers (o ++ inner ++ lit "```")) = Of JNull.
Proof.
  intros Ho Hne H.
  destruct (opens_fence_label o Ho) as (label & -> & Hl).
  destruct (label_letters label Hl) as (a & b & c & d & -> & Ha & Hb & Hc & Hd).
  assert (E : without_markers ((lit "```" ++ [a; b; c; d]) ++ inner ++ lit "```")
              = a :: b :: c :: d :: inner).
  { symmetry. apply without_markers_deleted.
    rewrite <- app_assoc. apply deleted_short.
    - intros t E. apply Hne. injection E as -> -> -> ->. reflexivity.
    - apply (markers_deleted_closing (a :: b :: c :: d :: inner)).
      repeat apply closes_first_cons; try exact H; lia. }
  rewrite E. now apply parse_or_null_letter.
Qed.

(** C4, amended: (1) the whole text is parsed; (2) if that fails and the
    text holds a fenced block (the marker and the label [json] in either
    case, up to the next marker), the first one is taken, with its
    markers; (3) only when the text holds no fenced block, the text from
    its first opening brace to its last closing brace is taken, if any;
    (4) from the block that was taken the markers [```json], in lower
    case only, and [```] are deleted, wherever they are, and what is
    left is parsed: the outcome, [null] when it does not parse, is
    final.  So a fenced block labelled [json] gives its inside, a
    fenced block labelled in another case gives [null], and so does a
    text with neither block; [null] gives the caller an empty task
    list. *)
Theorem safeParseJson_order (s : str) :
  (forall parsed, JSON_parse s = Ok parsed ->
     safeParseJson (Of (JStr s)) = Ok (Of parsed))
  /\ (forall e pre o inner post,
        JSON_parse s = Throw e -> first_fence s pre o inner post ->
        safeParseJson (Of (JStr s))
        = Ok (parse_or_null (without_markers (o ++ inner ++ lit "```")))
        /\ (o = lit "```json" ->
            without_markers (o ++ inner ++ lit "```") = inner)
        /\ (o <> lit "```json" ->
            safeParseJson (Of (JStr s)) = Ok (Of JNull)))
  /\ (forall e pre mid post,
        JSON_parse s = Throw e -> no_fence s -> braces_at s pre mid post ->
        safeParseJson (Of (JStr s))
        = Ok (parse_or_null (without_markers ([123%N] ++ mid ++ [125%N]))))
  /\ (forall e, JSON_parse s = Throw e -> no_fence s -> no_braces s ->
        safeParseJson (Of (JStr s)) = Ok (Of JNull))
  /\ ((exists pre o inner post, first_fence s pre o inner post)
      \/ no_fence s)
  /\ ((exists pre mid post, braces_at s pre mid post) \/ no_braces s)
  /\ (forall block out,
        markers_deleted block out <-> out = without_markers block)
  /\ (forall block, ~ In 96%N block -> without_markers block = block)
  /\ normalize (Of JNull) = Ok [].
Proof.
  split; [|split; [|split; [|split; [|split; [|split; [|split; [|split]]]]]]].
  - unfold safeParseJson. cbn [ToString json_ToString rbind].
    now intros parsed ->.
  - intros e pre o inner post He Hf.
    assert (E : safeParseJson (Of (JStr s))
                = Ok (parse_or_null (without_markers (o ++ inner ++ lit "```")))).
    { apply (safeParseJson_block s e); [exact He|].
      now rewrite (match_first_fence _ _ _ _ _ Hf). }
    split; [exact E|]. split.
    + intros ->. apply without_markers_inner.
      now apply (first_fence_closes _ _ _ _ _ Hf).
    + intros Hne. rewrite E. f_equal.
      apply without_markers_label; [apply Hf | exact Hne|].
      now apply (first_fence_closes _ _ _ _ _ Hf).
  - intros e pre mid post He Hn Hb.
    apply (safeParseJson_block s e); [exact He|].
    now rewrite (match_first_no_fence _ Hn), (match_first_braces _ _ _ _ Hb).
  - intros e He Hn Hb. unfold safeParseJson.
    cbn [ToString json_ToString rbind].
    now rewrite He, (match_first_no_fence _ Hn), (match_first_no_braces _ Hb).
  - destruct (match_first re_fence s) as [b|] eqn:E.
    + left. apply first_fence_found in E as (pre & o & inner & post & H & _).
      now exists pre, o, inner, post.
    + right. now apply no_fence_found.
  - destruct (match_first re_braces s) as [b|] eqn:E.
    + left. apply braces_found in E as (pre & mid & post & H & _).
      now exists pre, mid, post.
    + right. now apply no_braces_found.
  - apply without_markers_deleted.
  - intros block H. unfold without_markers.
    apply replace_all_no_match.
    now apply (has_match_absent re_fence_marker 96%N eq_refl
                 re_fence_marker_head).
  - reflexivity.
Qed.

(** An instance of each case: a text that is JSON; braces that hold a
    marker, which is deleted before parsing; a fenced block labelled in
    upper case, whose inside is JSON and which gives [null]; a fenced
    block that is not JSON followed by an object; a text with no
    block. *)
Lemma safeParseJson_order_witness :
  safeParseJson (Of (JStr (lit "[1]"))) = Ok (Of (JArr [JNum (of_Z 1)]))
  /\ safeParseJson (Of (JStr a_marker_in_braces))
     = Ok (Of (JObj [(lit "a", JStr [])]))
  /\ safeParseJson (Of (JStr (fenced [] (lit "JSON") (lit "{}") [])))
     = Ok (Of JNull)
  /\ safeParseJson (Of (JStr fenced_then_braces)) = Ok (Of JNull)
  /\ safeParseJson (Of (JStr (lit "no"))) = Ok (Of JNull).
Proof.
  split; [|split; [|split; [|split]]].
  - apply (proj1 (safeParseJson_order _)). reflexivity.
  - etransitivity.
    + apply (proj1 (proj2 (proj2 (safeParseJson_order a_marker_in_braces)))
               (SyntaxError (lit "Unexpected token in JSON"))
               (lit "x ") (quoted "a" ++ lit ": " ++ quoted "```") (lit " y")).
      * vm_compute. reflexivity.
      * apply no_fence_found. vm_compute. reflexivity.
      * split; [vm_compute; reflexivity|].
        split; vm_compute; intuition discriminate.
    + vm_compute. reflexivity.
  - refine (proj2 (proj2
             (proj1 (proj2 (safeParseJson_order
                              (fenced [] (lit "JSON") (lit "{}") [])))
                (SyntaxError (lit "Unexpected token in JSON"))
                [] (lit "```JSON") (lit "{}") [] _ _)) _).
    + vm_compute. reflexivity.
    + apply (first_fence_plain [] (lit "```JSON") (lit "{}") []).
      * reflexivity.
      * intros [].
      * vm_compute. intuition discriminate.
    + discriminate.
  - etransitivity.
    + refine (proj1
               (proj1 (proj2 (safeParseJson_order fenced_then_braces))
                  (SyntaxError (lit "Unexpected token in JSON"))
                  [] (lit "```json") (lit "
not json
") (lit " {" ++ quoted "microTasks" ++ lit ":[{}]}") _ _)).
      * vm_compute. reflexivity.
      * apply (first_fence_plain [] (lit "```json") (lit "
not json
") (lit " {" ++ quoted "microTasks" ++ lit ":[{}]}")).
        -- reflexivity.
        -- intros [].
        -- vm_compute. intuition discriminate.
    + vm_compute. reflexivity.
  - apply (proj1 (proj2 (proj2 (proj2 (safeParseJson_order (lit "no")))))
             (SyntaxError (lit "Unexpected token in JSON"))).
    + vm_compute. reflexivity.
    + apply no_fence_found. vm_compute. reflexivity.
    + apply no_braces_found. vm_compute. reflexivity.
Defined.

(** ** The successful reply (claim C9) *)


(** *** The pages *)




(** *** The blocks of the prompt *)




(** *** The normalized list *)



